(** * Product Metrics Sandbox: generators and metrics

    A shallow embedding of [utils/generators.py] and [utils/metrics.py],
    and what is proved about them.

    Conventions of the embedding.
    - Python and numpy floats are exact rationals ([Q]); a comparison of
      floats is a comparison of rationals, and results are stated up to
      [Qeq].  Where the code can produce an infinity or a NaN the value is
      a [pyfloat].
    - A [datetime] / [pd.Timestamp] is the number of microseconds elapsed
      since 2025-01-01T00:00:00 (an integer, possibly negative).
    - A pandas [DataFrame] is the list of its rows, in row order; a pivoted
      frame is a [Pivot].
    - A raised exception is the [Raise] branch of [result].
    - [numpy.random.Generator] is a stream of standard uniform doubles
      together with the position of the next one to hand out; every
      primitive draw consumes one double ([rng.integers(low, high)] is
      [low + floor((high - low) * u)]).
    - scipy's [norm.ppf], [brentq], and the p-values of [chi2_contingency]
      and [ttest_ind] are parameters of the functions that call them. *)

From Stdlib Require Import ZArith QArith Qround Qminmax Lia Lqa.
From stdpp Require Import base decidable option list sorting gmap strings.

Local Open Scope Z_scope.

(** ** Exceptions and results *)

Inductive exn : Set :=
| ValueError
| ZeroDivisionError
| OverflowError
| AttributeError
| IndexError
| RuntimeError.

Inductive result (A : Type) : Type :=
| Ok (a : A)
| Raise (e : exn).
Arguments Ok {A} a.
Arguments Raise {A} e.

#[global] Instance result_ret : MRet result := fun A a => Ok a.
#[global] Instance result_bind : MBind result := fun A B f m =>
  match m with
  | Ok a => f a
  | Raise e => Raise e
  end.

#[global] Instance result_fmap : FMap result := fun A B f m =>
  match m with
  | Ok a => Ok (f a)
  | Raise e => Raise e
  end.

Definition raises {A} (r : result A) : bool :=
  match r with Ok _ => false | Raise _ => true end.

(** ** Rational helpers *)

Definition Qltb (a b : Q) : bool := negb (Qle_bool b a).
Definition Qleb (a b : Q) : bool := Qle_bool a b.
Definition Qeqb (a b : Q) : bool := Qeq_bool a b.

(** [sum(values)] *)
Definition Qsum (l : list Q) : Q := fold_right Qplus 0%Q l.

(** [int(x)]: truncation towards zero. *)
Definition py_int (x : Q) : Z := Z.quot (Qnum x) (Zpos (Qden x)).

(** Rounding to the nearest integer, ties to the even one. *)
Definition round_half_even (x : Q) : Z :=
  let f := Qfloor x in
  let r := (x - inject_Z f)%Q in
  if Qltb r (1 # 2) then f
  else if Qltb (1 # 2) r then f + 1
  else if Z.even f then f else f + 1.

(** [round(x, 2)], [round(x, 1)] and [round(x, 4)]. *)
Definition py_round2 (x : Q) : Q := (inject_Z (round_half_even (x * 100)) / 100)%Q.
Definition py_round1 (x : Q) : Q := (inject_Z (round_half_even (x * 10)) / 10)%Q.
Definition py_round4 (x : Q) : Q := (inject_Z (round_half_even (x * 10000)) / 10000)%Q.

(** ** Time *)

Definition US_PER_DAY : Z := 86400000000.

(** [timedelta(days=d)] for an integer [d], and for a float [d] (the
    constructor rounds to the nearest microsecond, ties to even). *)
Definition timedelta_days (d : Z) : Z := d * US_PER_DAY.
Definition timedelta_days_float (d : Q) : Z :=
  round_half_even (d * inject_Z US_PER_DAY).

(** Days from 1970-01-01 to 2025-01-01. *)
Definition EPOCH_2025 : Z := 20089.

(** Proleptic Gregorian (year, month) of a timestamp. *)
Definition civil_year_month (ts : Z) : Z * Z :=
  let z := ts / US_PER_DAY + EPOCH_2025 + 719468 in
  let era := z / 146097 in
  let doe := z - era * 146097 in
  let yoe := (doe - doe / 1460 + doe / 36524 - doe / 146096) / 365 in
  let y := yoe + era * 400 in
  let doy := doe - (365 * yoe + yoe / 4 - yoe / 100) in
  let mp := (5 * doy + 2) / 153 in
  let m := if mp <? 10 then mp + 3 else mp - 9 in
  (if m <=? 2 then y + 1 else y, m).

(** [.dt.month] *)
Definition dt_month (ts : Z) : Z := snd (civil_year_month ts).

(** [.dt.to_period("M")]: the ordinal of the calendar month (months since
    1970-01).  The code also keys cohorts by the string form "YYYY-MM" of
    this period, which is in one-to-one correspondence with the ordinal. *)
Definition to_period_M (ts : Z) : Z :=
  let '(y, m) := civil_year_month ts in (y - 1970) * 12 + (m - 1).

(** ** numpy.random.Generator *)

Record Generator : Type := mkGenerator {
  doubles : nat -> Q;   (* the k-th standard uniform double of the stream *)
  position : nat        (* index of the next double to be consumed *)
}.

(** A computation that consumes the random stream and may raise. *)
Definition Rand (A : Type) : Type := Generator -> result (A * Generator).

#[global] Instance Rand_ret : MRet Rand := fun A a g => Ok (a, g).
#[global] Instance Rand_bind : MBind Rand := fun A B f m g =>
  match m g with
  | Ok (a, g') => f a g'
  | Raise e => Raise e
  end.

Definition throw {A} (e : exn) : Rand A := fun _ => Raise e.

(** [rng.random()] *)
Definition rng_random : Rand Q := fun g =>
  Ok (doubles g (position g), mkGenerator (doubles g) (S (position g))).

(** [rng.uniform(low, high)] *)
Definition rng_uniform (low high : Q) : Rand Q :=
  u ← rng_random; mret (low + (high - low) * u)%Q.

(** [rng.integers(low, high)], [high] exclusive. *)
Definition rng_integers (low high : Z) : Rand Z :=
  u ← rng_random; mret (low + Qfloor (inject_Z (high - low) * u)).

(** [n] successive results of [c], in order. *)
Fixpoint replicateM {A} (n : nat) (c : Rand A) : Rand (list A) :=
  match n with
  | O => mret []
  | S n' => x ← c; xs ← replicateM n' c; mret (x :: xs)
  end.

(** The size argument of a vectorised draw: negative sizes are refused. *)
Definition rng_sized {A} (size : Z) (c : Rand A) : Rand (list A) :=
  if size <? 0 then throw ValueError else replicateM (Z.to_nat size) c.

(** [p.cumsum()] *)
Definition cumsum (p : list Q) : list Q :=
  snd (fold_left (fun '(acc, out) x => ((acc + x)%Q, out ++ [(acc + x)%Q])) p (0%Q, [])).

(** [cdf.searchsorted(u, side='right')]: how many entries are [<= u]. *)
Definition searchsorted_right (cdf : list Q) (u : Q) : nat :=
  length (filter (fun c => Qleb c u = true) cdf).

(** [rng.choice(a, size=size, p=p)] with replacement: the arguments are
    checked (every failed check is a [ValueError]; a NaN among [p] fails
    the check of the sum), then [size] doubles are drawn and each is
    located in the normalised cumulative sums of [p]. *)
Definition rng_choice {A} (a : list A) (size : Z) (p : list Q) : Rand (list A) :=
  if size <? 0 then throw ValueError
  else if (length a =? 0)%nat && negb (size =? 0) then throw ValueError
  else if negb (length p =? length a)%nat then throw ValueError
  else if existsb (fun x => Qltb x 0) p then throw ValueError
  else if negb (Qeqb (Qsum p) 1) then throw ValueError
  else
    let cdf := cumsum p in
    let cdf := map (fun c => (c / default 1 (last cdf))%Q) cdf in
    us ← replicateM (Z.to_nat size) rng_random;
    mapM (fun u : Q => match a !! searchsorted_right cdf u with
                     | Some x => mret x
                     | None => throw IndexError
                     end) us.

(** [for x in xs: acc = body(x, acc)] in the [Rand] monad. *)
Fixpoint for_each {A S} (xs : list A) (body : A -> S -> Rand S) (acc : S) : Rand S :=
  match xs with
  | [] => mret acc
  | x :: xs' => acc' ← body x acc; for_each xs' body acc'
  end.

(** ** Rows of the two datasets *)

Record User : Type := mkUser {
  user_id : Z;
  registered_at : Z;
  converted : bool;
  variant : string;
  channel : string
}.

Record Payment : Type := mkPayment {
  pay_user_id : Z;
  payment_id : Z;
  amount : Q;
  paid_at : Z
}.

(** [pd.DataFrame({...})] from five columns of equal length. *)
Fixpoint users_frame (ids regs : list Z) (conv : list bool) (vars chans : list string)
  : list User :=
  match ids, regs, conv, vars, chans with
  | i :: ids', r :: regs', c :: conv', v :: vars', ch :: chans' =>
      mkUser i r c v ch :: users_frame ids' regs' conv' vars' chans'
  | _, _, _, _, _ => []
  end.

(** [pd.Series(dates).dt.month.values]: an empty list makes a Series that
    is not datetime-like, on which the [.dt] accessor raises. *)
Definition series_dt_month (dates : list Z) : Rand (list Z) :=
  match dates with
  | [] => throw AttributeError
  | _ => mret (map dt_month dates)
  end.

(** ** pandas helpers shared by the cohort tables *)

(** [Series.unique()]: distinct values in order of first appearance. *)
Fixpoint unique (l : list Z) : list Z :=
  match l with
  | [] => []
  | x :: l' => x :: filter (fun y => y ≠ x) (unique l')
  end.

(** A row of [payments_df.merge(users[["user_id", "cohort", "reg_month"]],
    on="user_id")] extended with [paid_month] and [month_number]. *)
Record PayRow : Type := mkPayRow {
  row_user_id : Z;
  row_amount : Q;
  row_paid_at : Z;
  row_cohort : Z;
  row_reg_month : Z;
  row_paid_month : Z;
  row_month_number : Z
}.

(** [lambda x: x.n if hasattr(x, "n") and x.n >= 0 else 0] on the month
    offset [paid_month - reg_month]. *)
Definition month_number_of (paid_month reg_month : Z) : Z :=
  let n := paid_month - reg_month in if 0 <=? n then n else 0.

(** The inner join on [user_id] (left order kept), then the two derived
    columns.  [build_retention_cohorts] and [churn_by_cohort_table] build
    this same table with the same statements. *)
Definition cohort_pay (users_df : list User) (payments_df : list Payment) : list PayRow :=
  let users := map (fun u => (user_id u, to_period_M (registered_at u),
                              to_period_M (registered_at u))) users_df in
  flat_map (fun p =>
    map (fun '(_, cohort, reg_month) =>
           let paid_month := to_period_M (paid_at p) in
           mkPayRow (pay_user_id p) (amount p) (paid_at p) cohort reg_month paid_month
                    (month_number_of paid_month reg_month))
        (filter (fun '(uid, _, _) => uid = pay_user_id p) users))
    payments_df.

(** [groupby("cohort")["user_id"].apply(set).to_dict()] *)
Definition groupby_set (rws : list PayRow) : gmap Z (gset Z) :=
  fold_left (fun d r =>
               <[row_cohort r := {[row_user_id r]} ∪ default ∅ (d !! row_cohort r)]> d)
            rws ∅.

(** A pivoted frame: sorted row labels, sorted column labels, and the
    cells that hold a value (a missing key is a NaN cell). *)
Record Pivot : Type := mkPivot {
  index : list Z;
  columns : list Z;
  cells : gmap (Z * Z) Q
}.

(** [pd.DataFrame()] *)
Definition empty_frame : Pivot := mkPivot [] [] ∅.

(** [DataFrame.pivot(index=, columns=, values=)]: refuses duplicate
    (row, column) pairs. *)
Definition pivot (data : list (Z * Z * Q)) : result Pivot :=
  if decide (NoDup (data.*1)) then
    Ok (mkPivot (merge_sort Z.le (unique (data.*1.*1)))
                (merge_sort Z.le (unique (data.*1.*2)))
                (list_to_map (map (fun '(c, m, v) => ((c, m), v)) data)))
  else Raise ValueError.

(** [.fillna(v)]: every cell of the frame gets a value. *)
Definition fillna (v : Q) (t : Pivot) : Pivot :=
  mkPivot (index t) (columns t)
          (list_to_map (map (fun k => (k, default v (cells t !! k)))
                            (list_prod (index t) (columns t)))).

(** ** pandas helpers of the revenue and activity tables *)

(** [Series.nunique()] *)
Definition nunique (l : list Z) : nat := length (unique l).

(** [Series.mean()] of a float column with at least one row. *)
Definition series_mean (l : list Q) : Q := (Qsum l / inject_Z (Z.of_nat (length l)))%Q.

(** [DataFrame.empty]: no rows or no columns. *)
Definition frame_empty (t : Pivot) : bool :=
  bool_decide (index t = []) || bool_decide (columns t = []).

(** [groupby(key).size()]: how many rows carry each key. *)
Definition groupby_size (keys : list Z) : gmap Z nat :=
  fold_left (fun d k => <[k := S (default O (d !! k))]> d) keys ∅.

(** [pivot_table(index="cohort", columns="month_number", values="amount",
    aggfunc="sum", fill_value=...)]: one row per cohort and one column per
    month number of the data, both sorted; a cell is the sum of the amounts
    of its group, or [fill_value] when the group has no row. *)
Definition pivot_table_sum (pay : list PayRow) (fill_value : Q) : Pivot :=
  let cs := merge_sort Z.le (unique (map row_cohort pay)) in
  let ms := merge_sort Z.le (unique (map row_month_number pay)) in
  mkPivot cs ms
    (list_to_map
       (map (fun k : Z * Z =>
               (k, match filter (fun r => row_cohort r = k.1 ∧ row_month_number r = k.2) pay with
                   | [] => fill_value
                   | grp => Qsum (map row_amount grp)
                   end))
            (list_prod cs ms))).

(** Running sums of the row [c] over the columns [ms], from [acc]; a NaN
    cell stays NaN and adds nothing. *)
Fixpoint row_cumsum (cs : gmap (Z * Z) Q) (c : Z) (ms : list Z) (acc : Q)
  : list ((Z * Z) * Q) :=
  match ms with
  | [] => []
  | m :: ms' =>
      match cs !! (c, m) with
      | Some v => ((c, m), (acc + v)%Q) :: row_cumsum cs c ms' (acc + v)%Q
      | None => row_cumsum cs c ms' acc
      end
  end.

(** [DataFrame.cumsum(axis=1)] *)
Definition cumsum_axis1 (t : Pivot) : Pivot :=
  mkPivot (index t) (columns t)
          (list_to_map (flat_map (fun c => row_cumsum (cells t) c (columns t) 0%Q) (index t))).

(** [DataFrame.div(sizes, axis=0)] by a Series of group sizes: the two
    indexes are aligned on their sorted union, and a cell has a value only
    where both the frame and the Series have one (a group size is never 0). *)
Definition div_axis0 (t : Pivot) (sizes : gmap Z nat) : Pivot :=
  mkPivot (merge_sort Z.le (unique (index t ++ (map_to_list sizes).*1)))
          (columns t)
          (list_to_map
             (omap (fun k : Z * Z =>
                      v ← cells t !! k;
                      n ← sizes !! k.1;
                      Some (k, (v / inject_Z (Z.of_nat n))%Q))
                   (list_prod (index t) (columns t)))).

(** [groupby(["cohort", "month_number"])["user_id"]]: the users of each
    (cohort, month number) group; [.nunique()] is the size of the set. *)
Definition groupby_users (rws : list PayRow) : gmap (Z * Z) (gset Z) :=
  fold_left (fun d r =>
               let k := (row_cohort r, row_month_number r) in
               <[k := {[row_user_id r]} ∪ default ∅ (d !! k)]> d)
            rws ∅.

(** [Series.unstack(fill_value=...)] of a Series keyed by (row, column):
    sorted row and column labels, and [fill_value] where the Series has no
    entry. *)
Definition unstack (s : gmap (Z * Z) Q) (fill_value : Q) : Pivot :=
  let keys := (map_to_list s).*1 in
  let cs := merge_sort Z.le (unique (keys.*1)) in
  let ms := merge_sort Z.le (unique (keys.*2)) in
  mkPivot cs ms
          (list_to_map (map (fun k => (k, default fill_value (s !! k))) (list_prod cs ms))).

(** [Series.min()] of a non-empty column. *)
Definition column_min (l : list Z) : Z :=
  match l with
  | [] => 0%Z
  | x :: l' => fold_left Z.min l' x
  end.

(** [groupby("user_id")["paid_at"].transform("min")]: for every row, the
    earliest payment time of the row's user. *)
Definition groupby_transform_min (payments_df : list Payment) : list Z :=
  map (fun p => column_min (map paid_at
                  (filter (fun q => pay_user_id q = pay_user_id p) payments_df)))
      payments_df.

(** Days from 1970-01-01 to the first day of month [m] of year [y]. *)
Definition days_from_civil (y m : Z) : Z :=
  let y := if m <=? 2 then y - 1 else y in
  let era := y / 400 in
  let yoe := y - era * 400 in
  let doy := (153 * (if 2 <? m then m - 3 else m + 9) + 2) / 5 in
  let doe := yoe * 365 + yoe / 4 - yoe / 100 + doy in
  era * 146097 + doe - 719468.

(** [Period.to_timestamp()] of a monthly period: midnight of its first day. *)
Definition to_timestamp (period : Z) : Z :=
  (days_from_civil (1970 + period / 12) (period mod 12 + 1) - EPOCH_2025) * US_PER_DAY.

(** * generators.py *)

Module Generators.

Local Open Scope Q_scope.

(** Conversion multipliers by channel. *)
Definition CHANNEL_CONVERSION_MULT : gmap string Q :=
  <["ads" := 0.90]> (<["organic" := 1.0]> (<["referral" := 1.25]> ∅)).

(** Seasonality by month: the multiplier applied to the conversion. *)
Definition _seasonality_mult (month : Z) (enabled : bool) : Q :=
  if negb enabled then 1.0
  else if (month =? 12)%Z || (month =? 1)%Z then 1.2
  else if (month =? 7)%Z || (month =? 8)%Z then 0.85
  else 1.0.

(** One conversion draw at the probability of the channel and month. *)
Definition _effective_conversion (base_rate_pct : Q) (channel : string)
    (reg_month : Z) (seasonality_enabled : bool) : Rand bool :=
  let mult := default 1.0 (CHANNEL_CONVERSION_MULT !! channel)
              * _seasonality_mult reg_month seasonality_enabled in
  let p := (base_rate_pct / 100.0) * mult in
  let p := Qmin 1.0 (Qmax 0.0 p) in
  u ← rng_random; mret (Qltb u p).

(** [dict.get(key, 0)] on a dict kept in insertion order. *)
Fixpoint dict_get (d : list (string * Q)) (key : string) (dflt : Q) : Q :=
  match d with
  | [] => dflt
  | (k, v) :: d' => if String.eqb k key then v else dict_get d' key dflt
  end.

Section WithBitGenerator.

(** [bit_generator s k]: the [k]-th double produced by the generator that
    numpy seeds with [s]. *)
Variable bit_generator : Z -> nat -> Q.

(** [np.random.default_rng(seed)]; with [seed=None] the generator is seeded
    from fresh operating-system entropy, here the argument [entropy]. *)
Definition default_rng (seed : option Z) (entropy : Z) : Generator :=
  mkGenerator (bit_generator (default entropy seed)) 0.

(** The user table.  The stream is consumed in the order of the source:
    [n_users] registration dates, [n_users] channels, [n_users] conversion
    draws, then [n_users] variants when [ab_test] is set.  [channel_pct] is
    the dict in insertion order, [None] standing for the default. *)
Definition generate_users (n_users : Z) (conversion_rate : Q) (ab_test : bool)
    (channel_pct : option (list (string * Q))) (seasonality_enabled : bool)
    (seed : option Z) (entropy : Z) : result (list User) :=
  let rng := default_rng seed entropy in
  let channel_pct :=
    default [("ads", 30); ("organic", 50); ("referral", 20)] channel_pct in
  let total := let s := Qsum (channel_pct.*2) in if Qeqb s 0 then 1 else s in
  let channels := channel_pct.*1 in
  let probs := map (fun c => dict_get channel_pct c 0 / total) channels in
  let probs := let s := Qsum probs in map (fun x => x / s) probs in
  let start := 0%Z in
  let end_ := timedelta_days 364 in
  let days_span := ((end_ - start) / US_PER_DAY + 1)%Z in
  fst <$> (
    xs ← rng_sized n_users (rng_uniform 0 (inject_Z days_span));
    let registered_at :=
      map (fun x => (start + timedelta_days (Z.min (py_int x) (days_span - 1)))%Z) xs in
    channel ← rng_choice channels n_users probs;
    reg_months ← series_dt_month registered_at;
    converted ← mapM (fun '(ch, m) =>
                        _effective_conversion conversion_rate ch m seasonality_enabled)
                     (zip channel reg_months);
    variant ← (if ab_test
               then rng_choice ["control"; "test"] n_users [0.5; 0.5]
               else mret (replicate (Z.to_nat n_users) "control"));
    mret (users_frame (seqZ 1 n_users) (merge_sort Z.le registered_at)
                      converted variant channel)) rng.

(** [reg_dates.loc[uid]], taking [.iloc[0]] when several rows carry [uid]. *)
Definition reg_dates_loc (users_df : list User) (uid : Z) : Z :=
  default 0%Z (registered_at <$> head (filter (fun u => user_id u = uid) users_df)).

(** State of the generation pass: the rows appended so far and the counter. *)
Record pass : Type := mkPass { rows : list Payment; next_payment_id : Z }.

(** [rows.append({...}); payment_id += 1], the amount rounded to cents. *)
Definition append_row (uid : Z) (a : Q) (t : Z) (s : pass) : pass :=
  mkPass (rows s ++ [mkPayment uid (next_payment_id s) (py_round2 a) t])
         (next_payment_id s + 1).

(** The [for _ in range(n_repeat)] loop; returning early is [break]. *)
Fixpoint repeat_loop (n_repeat : nat) (uid : Z) (churn_days min_amount max_amount : Q)
    (last_paid : Z) (payment_number : Z) (s : pass) : Rand pass :=
  match n_repeat with
  | O => mret s
  | S n' =>
      gap_days ← rng_uniform 7 (Qmin churn_days 70);
      if Qltb churn_days gap_days then mret s
      else
        let last_paid := (last_paid + timedelta_days_float gap_days)%Z in
        let payment_number := (payment_number + 1)%Z in
        amount ← (if (3 <=? payment_number)%Z
                  then let mid := (min_amount + max_amount) / 2 in
                       rng_uniform mid max_amount
                  else rng_uniform min_amount max_amount);
        repeat_loop n' uid churn_days min_amount max_amount last_paid payment_number
                    (append_row uid amount last_paid s)
  end.

(** Body of [for uid in payers]. *)
Definition payer_body (users_df : list User)
    (min_amount max_amount first_payment_min first_payment_max churn_days repeat_rate : Q)
    (uid : Z) (s : pass) : Rand pass :=
  let reg := reg_dates_loc users_df uid in
  first_days ← rng_uniform 0 30;
  let last_paid := (reg + timedelta_days_float first_days)%Z in
  amount ← rng_uniform first_payment_min first_payment_max;
  let s := append_row uid amount last_paid s in
  again ← rng_random;
  if negb (Qltb again repeat_rate) then mret s
  else
    n_repeat ← rng_integers 1 6;
    let payment_number := 1%Z in
    repeat_loop (Z.to_nat n_repeat) uid churn_days min_amount max_amount
                last_paid payment_number s.

(** The payment table: one double per user for the pay-rate mask, then the
    payers in row order. *)
Definition generate_payments (users_df : list User)
    (min_amount max_amount first_payment_min first_payment_max churn_months
     pay_rate repeat_rate : Q) (seed : option Z) (entropy : Z)
  : result (list Payment) :=
  let rng := default_rng seed entropy in
  let churn_days := churn_months * 30 in
  let n_users := length users_df in
  (fun '(s, _) => rows s) <$> (
    mask ← replicateM n_users rng_random;
    let payers_mask := map (fun u => Qltb u pay_rate) mask in
    let payers := (filter (fun '(u, b) => b = true) (zip users_df payers_mask)).*1 in
    let payers := map user_id payers in
    for_each payers
      (payer_body users_df min_amount max_amount first_payment_min first_payment_max
                  churn_days repeat_rate)
      (mkPass [] 1)) rng.

End WithBitGenerator.

(** Retention by cohort: the share of the month-0 payers of a cohort that
    pay again in month N. *)
Definition build_retention_cohorts (users_df : list User) (payments_df : list Payment)
  : result Pivot :=
  if bool_decide (users_df = []) || bool_decide (payments_df = []) then Ok empty_frame
  else
    let pay := cohort_pay users_df payments_df in
    let pay_m0 := groupby_set (filter (fun r => row_month_number r = 0%Z) pay) in
    let retention_data :=
      flat_map (fun cohort =>
        let payers_m0 := default ∅ (pay_m0 !! cohort) in
        if bool_decide (payers_m0 = ∅) then []
        else
          let n_m0 := size payers_m0 in
          map (fun month_num =>
                 let payers_mn : gset Z :=
                   list_to_set (map row_user_id
                     (filter (fun r => row_cohort r = cohort
                                       ∧ row_month_number r = month_num) pay)) in
                 let returned := size (payers_m0 ∩ payers_mn) in
                 let pct := if negb (n_m0 =? 0)%nat
                            then inject_Z (Z.of_nat returned) / inject_Z (Z.of_nat n_m0) * 100
                            else 0 in
                 (cohort, month_num, pct))
              (merge_sort Z.le (unique (map row_month_number pay))))
        (unique (map row_cohort pay)) in
    if bool_decide (retention_data = []) then Ok empty_frame
    else fillna 0 <$> pivot retention_data.

(** Revenue by cohort and month of life, and the cumulative revenue per
    registered user of the cohort. *)
Definition build_cohorts (users_df : list User) (payments_df : list Payment)
  : Pivot * Pivot :=
  if bool_decide (users_df = []) || bool_decide (payments_df = [])
  then (empty_frame, empty_frame)
  else
    let pay := cohort_pay users_df payments_df in
    let cohort_revenue := pivot_table_sum pay 0 in
    let cohort_sizes := groupby_size (map (fun u => to_period_M (registered_at u)) users_df) in
    let cohort_ltv := div_axis0 (cumsum_axis1 cohort_revenue) cohort_sizes in
    (cohort_revenue, cohort_ltv).

(** The number of distinct payers by cohort and month of life. *)
Definition build_user_cohorts (users_df : list User) (payments_df : list Payment) : Pivot :=
  if bool_decide (users_df = []) || bool_decide (payments_df = []) then empty_frame
  else
    let pay := cohort_pay users_df payments_df in
    let cohort_users :=
      (fun s : gset Z => inject_Z (Z.of_nat (size s))) <$> groupby_users pay in
    let user_pivot := unstack cohort_users 0 in
    user_pivot.

End Generators.

(** * metrics.py *)

(** A Python float that may be infinite or not a number. *)
Inductive pyfloat : Type :=
| Finite (q : Q)
| PosInf
| NaN.

Module Metrics.

Local Open Scope Q_scope.




(** Churn by cohort: the share of the month-0 payers of a cohort that do
    not pay in month N. *)
Definition churn_by_cohort_table (users_df : list User) (payments_df : list Payment)
  : result Pivot :=
  if bool_decide (users_df = []) || bool_decide (payments_df = []) then Ok empty_frame
  else
    let pay := cohort_pay users_df payments_df in
    let pay_m0 := groupby_set (filter (fun r => row_month_number r = 0%Z) pay) in
    let churn_data :=
      flat_map (fun cohort =>
        let payers_m0 := default ∅ (pay_m0 !! cohort) in
        if bool_decide (payers_m0 = ∅) then []
        else
          let n_m0 := size payers_m0 in
          map (fun month_num =>
                 let payers_mn : gset Z :=
                   list_to_set (map row_user_id
                     (filter (fun r => row_cohort r = cohort
                                       ∧ row_month_number r = month_num) pay)) in
                 let retained := size (payers_m0 ∩ payers_mn) in
                 let churn_pct :=
                   if negb (n_m0 =? 0)%nat
                   then 100 - (inject_Z (Z.of_nat retained) / inject_Z (Z.of_nat n_m0) * 100)
                   else 0 in
                 (cohort, month_num, churn_pct))
              (merge_sort Z.le (unique (map row_month_number pay))))
        (unique (map row_cohort pay)) in
    if bool_decide (churn_data = []) then Ok empty_frame
    else fillna 0 <$> pivot churn_data.

(** ** A/B comparison *)

(** [users_df] as [ab_metrics] receives it: the column labels, and the rows
    (the [variant] field of a row is read only when the label is there). *)
Record UsersFrame : Type := mkUsersFrame {
  frame_columns : list string;
  frame_rows : list User
}.

(** A row of the summary table. *)
Record SummaryRow : Type := mkSummaryRow {
  group : string;
  n_users : Z;
  conversion_pct : Q;
  revenue : Q;
  arpu : Q;
  arpu_p_value : Q
}.

Definition count_true (l : list bool) : Z := Z.of_nat (length (filter (fun b => b = true) l)).

(** [Series.mean()] of a boolean column with at least one row. *)
Definition mean_bool (l : list bool) : Q :=
  inject_Z (count_true l) / inject_Z (Z.of_nat (length l)).

(** Revenue of each user of [grp], 0 for users without payments. *)
Definition revenue_per_user (grp : list User) (payments_df : list Payment) : list Q :=
  let ids := map user_id grp in
  map (fun uid => Qsum (map amount (filter (fun p => pay_user_id p = uid)
                                           (filter (fun p => pay_user_id p ∈ ids) payments_df))))
      ids.

(** ** Product metrics *)

(** Conversion to the target action, in percent. *)
Definition calc_conversion_rate (users_df : list User) : Q :=
  if bool_decide (users_df = []) then 0.0
  else mean_bool (map converted users_df) * 100.

(** ARPU: revenue over all users. *)
Definition calc_arpu (users_df : list User) (payments_df : list Payment) : Q :=
  if bool_decide (users_df = []) then 0.0
  else
    let total_revenue :=
      if negb (bool_decide (payments_df = [])) then Qsum (map amount payments_df) else 0 in
    total_revenue / inject_Z (Z.of_nat (length users_df)).

(** ARPPU: revenue over the paying users. *)
Definition calc_arppu (users_df : list User) (payments_df : list Payment) : Q :=
  if bool_decide (payments_df = []) then 0.0
  else
    let payers := nunique (map pay_user_id payments_df) in
    if (payers =? 0)%nat then 0.0
    else Qsum (map amount payments_df) / inject_Z (Z.of_nat payers).

(** The join of [calc_ltv_n_months]: amount and month offset
    [paid_month - reg_month] of every (payment, user) pair with the same
    [user_id].  The offset is taken as it is, negative when the payment
    precedes the registration month. *)
Definition ltv_pay (users_df : list User) (payments_df : list Payment) : list (Q * Z) :=
  let users := map (fun u => (user_id u, to_period_M (registered_at u))) users_df in
  flat_map (fun p =>
    map (fun '(_, reg_month) => (amount p, (to_period_M (paid_at p) - reg_month)%Z))
        (filter (fun '(uid, _) => uid = pay_user_id p) users))
    payments_df.

(** LTV over [n_months]: revenue of the first [n_months] months of life
    over all users. *)
Definition calc_ltv_n_months (users_df : list User) (payments_df : list Payment)
    (n_months : Z) : Q :=
  if bool_decide (users_df = []) || bool_decide (payments_df = []) then 0.0
  else
    let pay := ltv_pay users_df payments_df in
    let pay_first_n := filter (fun r : Q * Z => (r.2 < n_months)%Z) pay in
    let total_revenue := Qsum (pay_first_n.*1) in
    total_revenue / inject_Z (Z.of_nat (length users_df)).

(** Share of the users with at least one payment, in percent. *)
Definition calc_paying_share (users_df : list User) (payments_df : list Payment) : Q :=
  if bool_decide (users_df = []) then 0.0
  else
    let payers :=
      if negb (bool_decide (payments_df = []))
      then nunique (map pay_user_id payments_df) else O in
    inject_Z (Z.of_nat payers) / inject_Z (Z.of_nat (length users_df)) * 100.

(** Number of paying users. *)
Definition calc_payers_count (payments_df : list Payment) : Z :=
  if bool_decide (payments_df = []) then 0%Z
  else Z.of_nat (nunique (map pay_user_id payments_df)).

(** Average amount of the repeat payments: those strictly later than the
    first payment of their user. *)
Definition calc_avg_check_repeat (payments_df : list Payment) : Q :=
  if bool_decide (payments_df = []) then 0.0
  else
    let first_ts := groupby_transform_min payments_df in
    let repeat_mask :=
      map (fun '(p, f) => bool_decide (f < paid_at p)%Z) (zip payments_df first_ts) in
    let repeat_payments :=
      map amount (filter (fun '(p, b) => b = true) (zip payments_df repeat_mask)).*1 in
    if bool_decide (repeat_payments = []) then 0.0
    else series_mean repeat_payments.



(** Payback period in months; [None] when it is not defined. *)
Definition calc_payback_months (cac arpu_monthly : Q) : option Q :=
  if Qleb arpu_monthly 0 then None else Some (cac / arpu_monthly).

(** ROI by cohort, in percent: one entry per row of [cohort_ltv], NaN
    ([None]) where the LTV cell is NaN. *)
Definition calc_roi_by_cohorts (cohort_ltv : Pivot) (cac : Q) (last_n_months : Z)
  : list (Z * option Q) :=
  if frame_empty cohort_ltv || Qleb cac 0 || (length (columns cohort_ltv) =? 0)%nat then []
  else
    let target_col := (last_n_months - 1)%Z in
    let cols := merge_sort Z.le (columns cohort_ltv) in
    let col := if bool_decide (target_col ∈ columns cohort_ltv) then target_col
               else default 0%Z (last cols) in
    map (fun c =>
           (c, (fun ltv => py_round1 ((ltv - cac) / cac * 100)) <$> cells cohort_ltv !! (c, col)))
        (index cohort_ltv).

Section WithScipy.

(** [chi2_test t]: the p-value [scipy.stats.chi2_contingency] computes for
    the 2x2 table [t] once it has accepted it. *)
Variable chi2_test : (Z * Z) * (Z * Z) -> pyfloat.
(** [stats.ttest_ind(a, b, equal_var=False)], its p-value. *)
Variable ttest_ind : list Q -> list Q -> pyfloat.
(** [stats.norm.ppf] *)
Variable norm_ppf : Q -> Q.
(** [scipy.optimize.brentq(f, a, b)] *)
Variable brentq : (Q -> result pyfloat) -> Q -> Q -> result Q.

(** [stats.chi2_contingency(table)]: a negative count, or a zero among the
    expected frequencies [row_i * col_j / total], raises [ValueError]. *)
Definition chi2_contingency (table : (Z * Z) * (Z * Z)) : result pyfloat :=
  let '((a, b), (c, d)) := table in
  if ((a <? 0) || (b <? 0) || (c <? 0) || (d <? 0))%Z then Raise ValueError
  else
    let total := (a + b + c + d)%Z in
    if negb (total =? 0)%Z
       && ((a + b =? 0) || (c + d =? 0) || (a + c =? 0) || (b + d =? 0))%Z
    then Raise ValueError
    else Ok (chi2_test table).

(** [x < y]; a comparison with NaN is false. *)
Definition pyfloat_lt (x : pyfloat) (y : Q) : bool :=
  match x with
  | Finite q => Qltb q y
  | PosInf => false
  | NaN => false
  end.

(** Control against test: the summary table, the p-value of the
    conversion test, the uplift and the significance flag. *)
Definition ab_metrics (users_df : UsersFrame) (payments_df : list Payment)
  : result (list SummaryRow * pyfloat * Q * bool) :=
  if negb (bool_decide ("variant" ∈ frame_columns users_df))
     || (length (remove_dups (map variant (frame_rows users_df))) <? 2)%nat
  then Ok ([], Finite 0.0, 0.0, false)
  else
    let control := filter (fun u => variant u = "control") (frame_rows users_df) in
    let test := filter (fun u => variant u = "test") (frame_rows users_df) in
    let conv_control := count_true (map converted control) in
    let conv_test := count_true (map converted test) in
    let n_control := Z.of_nat (length control) in
    let n_test := Z.of_nat (length test) in
    let table := ((conv_control, n_control - conv_control)%Z,
                  (conv_test, n_test - conv_test)%Z) in
    p_value ← chi2_contingency table;
    let cr_control := if negb (n_control =? 0)%Z
                      then mean_bool (map converted control) * 100 else 0 in
    let cr_test := if negb (n_test =? 0)%Z
                   then mean_bool (map converted test) * 100 else 0 in
    let uplift := if negb (Qeqb cr_control 0)
                  then (cr_test - cr_control) / cr_control * 100 else 0 in
    let nonempty := negb (bool_decide (payments_df = [])) in
    let rev_control :=
      if nonempty
      then Qsum (map amount (filter (fun p => pay_user_id p ∈ map user_id control) payments_df))
      else 0.0 in
    let rev_test :=
      if nonempty
      then Qsum (map amount (filter (fun p => pay_user_id p ∈ map user_id test) payments_df))
      else 0.0 in
    let arpu_control := if negb (n_control =? 0)%Z then rev_control / inject_Z n_control else 0 in
    let arpu_test := if negb (n_test =? 0)%Z then rev_test / inject_Z n_test else 0 in
    let p_value_arpu :=
      if nonempty && negb (n_control =? 0)%Z && negb (n_test =? 0)%Z
      then
        let all_control_rev := revenue_per_user control payments_df in
        let all_test_rev := revenue_per_user test payments_df in
        if (2 <=? length all_control_rev)%nat && (2 <=? length all_test_rev)%nat
        then match ttest_ind all_control_rev all_test_rev with
             | Finite q => q
             | PosInf => 1.0
             | NaN => 1.0
             end
        else 1.0
      else 1.0 in
    let summary_df :=
      [ mkSummaryRow "Контроль" n_control (py_round2 cr_control) (py_round2 rev_control)
                     (py_round2 arpu_control) (py_round4 p_value_arpu);
        mkSummaryRow "Тест" n_test (py_round2 cr_test) (py_round2 rev_test)
                     (py_round2 arpu_test) (py_round4 p_value_arpu) ] in
    let significant := pyfloat_lt p_value 0.05 in
    Ok (summary_df, p_value, uplift, significant).

(** ** MDE and sample size *)

(** Critical value of Z for [alpha]. *)
Definition _z_crit (alpha : Q) (two_sided : bool) : Q :=
  if two_sided then norm_ppf (1 - alpha / 2) else norm_ppf (1 - alpha).

(** [a / b] on Python floats. *)
Definition py_div (a b : Q) : result Q :=
  if Qeqb b 0 then Raise ZeroDivisionError else Ok (a / b).

(** [ceil(a / b)] where [a] is a numpy float: the quotient by zero is an
    infinity or a NaN, which [math.ceil] refuses. *)
Definition ceil_np_div (a b : Q) : result Z :=
  if Qeqb b 0 then (if Qeqb a 0 then Raise ValueError else Raise OverflowError)
  else Ok (Qceiling (a / b)).

(** The closure [mde_equation] of both solvers, with the captured
    variables as parameters. *)
Definition mde_equation (p_control z_alpha z_beta ratio n_target : Q) (effect_abs : Q)
  : result pyfloat :=
  if Qleb effect_abs 0 then Ok PosInf
  else
    let p2_test := Qmin 0.99 (p_control + effect_abs) in
    let v1 := p_control * (1 - p_control) in
    let v2 := p2_test * (1 - p2_test) in
    q ← py_div v2 ratio;
    let n_needed := (z_alpha + z_beta) ^ 2 * (v1 + q) / (effect_abs ^ 2) in
    Ok (Finite (n_needed - n_target)).

(** [except (ValueError, ZeroDivisionError): ... 50.0] *)
Definition except_50 (r : result Q) : result Q :=
  match r with
  | Ok x => Ok x
  | Raise ValueError => Ok 50.0
  | Raise ZeroDivisionError => Ok 50.0
  | Raise e => Raise e
  end.

(** MDE in percent at 1000 per group, and the sample size per group for
    [target_lift_pct].  The sample size is computed first, outside the
    [try] block. *)
Definition calc_mde_and_sample_size (p_control alpha power ratio target_lift_pct : Q)
  : result (Q * Z) :=
  if Qleb p_control 0 || Qleb 1 p_control then Ok (0.0, 0%Z)
  else
    let z_alpha := _z_crit alpha true in
    let z_beta := norm_ppf power in
    let p1 := p_control in
    let p2 := Qmin 0.99 (p1 * (1 + target_lift_pct / 100)) in
    let effect_size := p2 - p1 in
    let var1 := p1 * (1 - p1) in
    let var2 := p2 * (1 - p2) in
    q ← py_div var2 ratio;
    n_per_group ← ceil_np_div ((z_alpha + z_beta) ^ 2 * (var1 + q)) (effect_size ^ 2);
    let n_per_group := Z.max 30 n_per_group in
    let n_ref := 1000 in
    mde_pct ← except_50 (
      effect_abs ← brentq (mde_equation p_control z_alpha z_beta ratio n_ref)
                          0.001 (Qmin 0.5 (1 - p_control - 0.001));
      if Qltb 0 p_control then Ok ((effect_abs / p_control) * 100) else Ok 50.0);
    Ok (py_round1 mde_pct, n_per_group).

(** MDE in percent at [n_per_group] per group. *)
Definition calc_mde_simple (n_per_group : Z) (p_control alpha power ratio : Q) : result Q :=
  if (n_per_group <=? 0)%Z || Qleb p_control 0 || Qleb 1 p_control then Ok 0.0
  else
    let z_alpha := _z_crit alpha true in
    let z_beta := norm_ppf power in
    except_50 (
      effect_abs ← brentq (mde_equation p_control z_alpha z_beta ratio (inject_Z n_per_group))
                          0.001 (Qmin 0.5 (1 - p_control - 0.001));
      let mde_pct := if Qltb 0 p_control then (effect_abs / p_control) * 100 else 50.0 in
      Ok (py_round1 mde_pct)).

End WithScipy.

End Metrics.

(** * Notions used in the statements

    What the specification says, written after its words, and the
    auxiliary notions the statements below are phrased with. *)

Local Open Scope Q_scope.

(** ** Random streams *)

(** A finite prefix of doubles as a bit generator (the same for every
    seed); used to evaluate the generators on concrete streams. *)
Definition stream_of (l : list Q) : Z -> nat -> Q := fun _ k => nth k l 0%Q.

(** Every double of the stream lies in [0, 1). *)
Definition unit_stream (g : Generator) : Prop :=
  forall k, 0 <= doubles g k < 1.

(** The generator after [n] more doubles have been consumed. *)
Definition skip (n : nat) (g : Generator) : Generator :=
  mkGenerator (doubles g) (n + position g).

(** The next [n] doubles of a generator. *)
Definition draws (g : Generator) (n : nat) : list Q :=
  map (fun i => doubles g (i + position g)%nat) (seq 0 n).

(** ** Users *)

(** The conversion probability the specification attaches to a record:
    base rate, channel multiplier and seasonality multiplier of the month
    of the record's own [registered_at], clamped to [0, 1]. *)
Definition spec_conversion_probability (base_conversion_pct : Q)
    (seasonality_enabled : bool) (u : User) : Q :=
  let channel_multiplier :=
    if String.eqb (channel u) "ads" then 0.90
    else if String.eqb (channel u) "organic" then 1.00
    else if String.eqb (channel u) "referral" then 1.25
    else 1.00 in
  let m := dt_month (registered_at u) in
  let seasonality_multiplier :=
    if seasonality_enabled
    then (if (m =? 12)%Z || (m =? 1)%Z then 1.20
          else if (m =? 7)%Z || (m =? 8)%Z then 0.85 else 1.00)
    else 1.00 in
  Qmin 1 (Qmax 0 (base_conversion_pct / 100 * channel_multiplier * seasonality_multiplier)).

(** The probability [_effective_conversion] compares its double with. *)
Definition effective_probability (base_rate_pct : Q) (channel : string) (reg_month : Z)
    (seasonality_enabled : bool) : Q :=
  Qmin 1.0 (Qmax 0.0 (base_rate_pct / 100.0
                      * (default 1.0 (Generators.CHANNEL_CONVERSION_MULT !! channel)
                         * Generators._seasonality_mult reg_month seasonality_enabled))).

(** The registration date made from the double [u]:
    [start + timedelta(days=min(int(x), days_span - 1))] for
    [x = 0 + (365 - 0) * u]. *)
Definition drawn_date (u : Q) : Z :=
  (0 + timedelta_days (Z.min (py_int (0 + (inject_Z 365 - 0) * u)) (365 - 1)))%Z.

(** A stream for two users: two registration draws (day 200, 20 July; day
    10, 11 January), two channel draws (organic), two conversion draws. *)
Definition c1_stream : list Q := [0.55; 0.03; 0.5; 0.5; 0.9; 0.9].

(** ** Payments *)





(** ** Cohort tables *)

(** The records both cohort loops append: one per kept cohort and month. *)
Definition grid (skip_ : Z -> bool) (v : Z -> Z -> Q) (cs ms : list Z) : list (Z * Z * Q) :=
  flat_map (fun c => if skip_ c then [] else map (fun m => (c, m, v c m)) ms) cs.

(** The cohorts a loop does not [continue] past. *)
Definition kept (skip_ : Z -> bool) (cs : list Z) : list Z :=
  filter (fun c => skip_ c = false) cs.

(** The test before [continue]: no month-0 payers. *)
Definition skip_cohort (pay_m0 : gmap Z (gset Z)) (cohort : Z) : bool :=
  bool_decide (default ∅ (pay_m0 !! cohort) = ∅).

(** [len(payers_m0 & payers_mn)] *)
Definition came_back (pay : list PayRow) (pay_m0 : gmap Z (gset Z)) (cohort month_num : Z)
  : nat :=
  size (default ∅ (pay_m0 !! cohort)
        ∩ list_to_set (map row_user_id
            (filter (fun r => row_cohort r = cohort ∧ row_month_number r = month_num) pay))).

(** The cell [build_retention_cohorts] computes. *)
Definition retention_pct (pay : list PayRow) (pay_m0 : gmap Z (gset Z))
    (cohort month_num : Z) : Q :=
  if negb (size (default ∅ (pay_m0 !! cohort)) =? 0)%nat
  then inject_Z (Z.of_nat (came_back pay pay_m0 cohort month_num))
       / inject_Z (Z.of_nat (size (default ∅ (pay_m0 !! cohort)))) * 100
  else 0.

(** The cell [churn_by_cohort_table] computes. *)
Definition churn_pct (pay : list PayRow) (pay_m0 : gmap Z (gset Z))
    (cohort month_num : Z) : Q :=
  if negb (size (default ∅ (pay_m0 !! cohort)) =? 0)%nat
  then 100 - (inject_Z (Z.of_nat (came_back pay pay_m0 cohort month_num))
              / inject_Z (Z.of_nat (size (default ∅ (pay_m0 !! cohort)))) * 100)
  else 0.

(** ** Churn rate, after the specification *)






(** ** A/B comparison, MDE and sample size *)

(** The guard of [ab_metrics]. *)
Definition ab_not_applicable (users_df : Metrics.UsersFrame) : bool :=
  negb (bool_decide ("variant" ∈ Metrics.frame_columns users_df))
  || (length (remove_dups (map variant (Metrics.frame_rows users_df))) <? 2)%nat.

(** The contingency table [ab_metrics] hands to [chi2_contingency]. *)
Definition ab_table (users_df : Metrics.UsersFrame) : (Z * Z) * (Z * Z) :=
  let control := filter (fun u => variant u = "control") (Metrics.frame_rows users_df) in
  let test := filter (fun u => variant u = "test") (Metrics.frame_rows users_df) in
  ((Metrics.count_true (map converted control),
    Z.of_nat (length control) - Metrics.count_true (map converted control))%Z,
   (Metrics.count_true (map converted test),
    Z.of_nat (length test) - Metrics.count_true (map converted test))%Z).

(** Two users, one per variant, neither converted. *)
Definition c2_users : Metrics.UsersFrame :=
  Metrics.mkUsersFrame ["user_id"; "registered_at"; "converted"; "variant"; "channel"]
    [ mkUser 1 0 false "control" "organic"; mkUser 2 0 false "test" "organic" ].

(** The per-group sample size of the two-proportion power formula. *)
Definition power_formula (norm_ppf : Q -> Q) (p_control alpha power ratio target_lift_pct : Q)
  : Q :=
  let z_alpha := norm_ppf (1 - alpha / 2) in
  let z_beta := norm_ppf power in
  let p1 := p_control in
  let p2 := Qmin 0.99 (p1 * (1 + target_lift_pct / 100)) in
  (z_alpha + z_beta) ^ 2 * (p1 * (1 - p1) + p2 * (1 - p2) / ratio) / (p2 - p1) ^ 2.

(** Quantiles of the standard normal distribution at the two levels the
    defaults use, to six decimals. *)
Definition norm_ppf_table (q : Q) : Q :=
  if Qeqb q 0.975 then 1.959964
  else if Qeqb q 0.8 then 0.841621
  else 0.

(** Sign of a function value; NaN has none. *)
Definition sign_of (y : pyfloat) : option Z :=
  match y with
  | Finite q => Some (if Qltb q 0 then -1 else if Qltb 0 q then 1 else 0)%Z
  | PosInf => Some 1%Z
  | NaN => None
  end.

(** Bisection: [sa] is the sign of [f a]. *)
Fixpoint bisect (fuel : nat) (f : Q -> result pyfloat) (a b : Q) (sa : Z) : result Q :=
  match fuel with
  | O => Ok (Qred ((a + b) / 2))
  | S fuel' =>
      let m := Qred ((a + b) / 2) in
      fm ← f m;
      match sign_of fm with
      | None => Raise ValueError
      | Some 0%Z => Ok m
      | Some sm => if (sm =? sa)%Z then bisect fuel' f m b sa else bisect fuel' f a m sa
      end
  end.

(** A root finder with the interface of [brentq] and what it promises:
    exceptions of [f] pass through, [ValueError] unless [f a] and [f b]
    have opposite signs, otherwise a point of the bracket where [f]
    changes sign (here found by 40 bisection steps). *)
Definition bisect_brentq (f : Q -> result pyfloat) (a b : Q) : result Q :=
  fa ← f a;
  fb ← f b;
  match sign_of fa, sign_of fb with
  | Some sa, Some sb =>
      if (0 <? sa * sb)%Z then Raise ValueError
      else if (sa =? 0)%Z then Ok a
      else if (sb =? 0)%Z then Ok b
      else bisect 40 f a b sa
  | _, _ => Raise ValueError
  end.

(** ** Product metrics *)

(** A payment that has a strictly earlier payment of the same user. *)
Definition is_repeat (payments : list Payment) (p : Payment) : Prop :=
  Exists (fun q => pay_user_id q = pay_user_id p ∧ (paid_at q < paid_at p)%Z) payments.

#[global] Instance is_repeat_dec payments p : Decision (is_repeat payments p) :=
  Exists_dec (fun q => pay_user_id q = pay_user_id p ∧ (paid_at q < paid_at p)%Z) payments.



(** ** Revenue and activity tables *)

(** A cumulative-LTV table with one cohort (2025-01) and three months. *)
Definition example_ltv : Pivot :=
  mkPivot [660%Z] [0; 1; 2]%Z
          (<[(660, 0)%Z := 120]> (<[(660, 1)%Z := 300]> (<[(660, 2)%Z := 750]> ∅))).

(** The distinct payers of a cohort in a month of life. *)
Definition payers_in (pay : list PayRow) (cohort month_num : Z) : gset Z :=
  list_to_set (map row_user_id
    (filter (fun r => row_cohort r = cohort ∧ row_month_number r = month_num) pay)).

(** Revenue of a cohort in its months of life up to [month_num]. *)
Definition revenue_through (pay : list PayRow) (cohort month_num : Z) : Q :=
  Qsum (map row_amount
    (filter (fun r => row_cohort r = cohort ∧ (row_month_number r <= month_num)%Z) pay)).

(** The number of users registered in the month [cohort]. *)
Definition cohort_size (users_df : list User) (cohort : Z) : nat :=
  length (filter (fun u => to_period_M (registered_at u) = cohort) users_df).

(** ** Rows of the payment table *)







(** ** Sample data *)

(** Two users, registered on 1 January and on 12 March 2025. *)
Definition example_users : list User :=
  [ mkUser 1 0 true "control" "organic"; mkUser 2 (timedelta_days 70) false "test" "ads" ].

(** Two payments of the first user, on 6 January and on 10 February. *)
Definition example_payments : list Payment :=
  [ mkPayment 1 1 299 (timedelta_days 5); mkPayment 1 2 500 (timedelta_days 40) ].



Local Close Scope Q_scope.

(** * Facts *)

(** ** Comparisons on rationals *)

Lemma Qltb_lt a b : Qltb a b = true <-> (a < b)%Q.
Proof.
  unfold Qltb. rewrite negb_true_iff. split.
  - intros H. apply Qnot_le_lt. intros Hle.
    apply Qle_bool_iff in Hle. congruence.
  - intros H. destruct (Qle_bool b a) eqn:E; [|reflexivity].
    apply Qle_bool_iff in E. exfalso. exact (Qlt_not_le _ _ H E).
Qed.

Lemma Qltb_ge a b : Qltb a b = false <-> (b <= a)%Q.
Proof.
  unfold Qltb. rewrite negb_false_iff. apply Qle_bool_iff.
Qed.

Lemma Qleb_le a b : Qleb a b = true <-> (a <= b)%Q.
Proof. apply Qle_bool_iff. Qed.

Lemma Qeqb_eq a b : Qeqb a b = true <-> (a == b)%Q.
Proof. apply Qeq_bool_iff. Qed.


(** ** Calendar and rounding *)

Local Open Scope Q_scope.

Example civil_year_month_2025 :
  map (fun d => civil_year_month (timedelta_days d)) [0; 30; 31; 58; 59; 180; 181; 364; 365; -1]%Z
  = [(2025, 1); (2025, 1); (2025, 2); (2025, 2); (2025, 3); (2025, 6); (2025, 7);
     (2025, 12); (2026, 1); (2024, 12)]%Z.
Proof. reflexivity. Qed.

Example to_period_M_2025 : to_period_M 0 = 660%Z /\ to_period_M (timedelta_days 59) = 662%Z.
Proof. split; reflexivity. Qed.

Example py_round2_ties :
  py_round2 0.125 == 0.12 /\ py_round2 0.135 == 0.14 /\ py_round2 299.997 == 300.
Proof. repeat split. Qed.

Lemma round_half_even_bounds (x : Q) :
  (Qfloor x <= round_half_even x <= Qfloor x + 1)%Z.
Proof.
  unfold round_half_even.
  destruct (Qltb _ _); [lia|]. destruct (Qltb _ _); [lia|].
  destruct (Z.even _); lia.
Qed.

Lemma round_half_even_mono (x y : Q) : x <= y -> (round_half_even x <= round_half_even y)%Z.
Proof.
  intros Hxy.
  pose proof (Qfloor_resp_le _ _ Hxy) as Hf.
  pose proof (round_half_even_bounds x) as Bx.
  pose proof (round_half_even_bounds y) as By.
  destruct (Z.eq_dec (Qfloor x) (Qfloor y)) as [E|Hne]; [|lia].
  clear Bx By Hf. unfold round_half_even. rewrite E.
  set (f := Qfloor y).
  repeat match goal with
         | |- context [Qltb ?a ?b] => destruct (Qltb a b) eqn:?
         end;
    try (destruct (Z.even f); lia);
    exfalso;
    repeat match goal with
           | H : Qltb _ _ = true |- _ => apply Qltb_lt in H
           | H : Qltb _ _ = false |- _ => apply Qltb_ge in H
           end;
    lra.
Qed.




(** ** The random stream *)




(** ** generate_payments *)

Module PaymentsFacts.
Import Generators.
Local Open Scope Q_scope.



Lemma unit_stream_skip n g : unit_stream g -> unit_stream (skip n g).
Proof. intros H k. exact (H k). Qed.


Section PayerLoop.

Variables (users_df : list User).
Variables (min_amount max_amount first_payment_min first_payment_max : Q).
Variables (churn_days repeat_rate : Q).





Hypothesis first_payment_range : first_payment_min <= first_payment_max.



End PayerLoop.


(** A finite list of doubles in [0, 1) makes a unit stream. *)
Lemma unit_stream_of (l : list Q) (seed : Z) (n : nat) :
  forallb (fun q => Qleb 0 q && Qltb q 1) l = true ->
  unit_stream (mkGenerator (stream_of l seed) n).
Proof.
  intros H k. cbn [doubles]. unfold stream_of.
  destruct (nth_in_or_default k l 0) as [Hin| ->]; [|split; [apply Qle_refl|reflexivity]].
  rewrite forallb_forall in H. specialize (H _ Hin).
  apply andb_true_iff in H as [H0 H1].
  split; [apply Qleb_le; exact H0|apply Qltb_lt; exact H1].
Qed.


(** *** Blocks of payments *)


Lemma filter_all {A} (P : A -> Prop) `{!forall x, Decision (P x)} (l : list A) :
  Forall P l -> filter P l = l.
Proof.
  induction 1 as [|x l Hx Hl IH]; [reflexivity|].
  rewrite filter_cons, decide_True by exact Hx. f_equal. exact IH.
Qed.

Lemma filter_none {A} (P : A -> Prop) `{!forall x, Decision (P x)} (l : list A) :
  Forall (fun x => ¬ P x) l -> filter P l = [].
Proof.
  induction 1 as [|x l Hx Hl IH]; [reflexivity|].
  rewrite filter_cons, decide_False by exact Hx. exact IH.
Qed.




(** *** Payers and their registration dates *)










(** Distinct ids are needed: two rows with the same id are two payers, each
    starting again from the registration date. *)
Lemma duplicate_ids_restart_the_clock :
  exists p q,
    generate_payments (stream_of [0.1; 0.1; 0.5; 0.5; 0.9; 0.2; 0.5; 0.9])
      [mkUser 1 0 true "control" "organic"; mkUser 1 0 true "control" "organic"]
      99 5000 299 499 3 0.15 0.3 (Some 42%Z) 0 = Ok [p; q]
    /\ pay_user_id p = pay_user_id q
    /\ (paid_at q < paid_at p)%Z.
Proof.
  eexists _, _. split; [vm_compute; reflexivity|].
  split; reflexivity.
Qed.

End PaymentsFacts.

(** ** generate_users, column by column *)

Module UsersFacts.
Import Generators PaymentsFacts.
Local Open Scope Q_scope.

Lemma bind_ok {A B} (m : Rand A) (k : A -> Rand B) g a g1 :
  m g = Ok (a, g1) -> (m ≫= k) g = k a g1.
Proof. intros H. unfold mbind, Rand_bind. rewrite H. reflexivity. Qed.

(** Evaluates the cumulative distribution of a concrete [rng.choice] and
    shows that a double below 1 lands on one of the items. *)
Ltac choice_lands :=
  let u := fresh "u" in
  let Hu := fresh "Hu" in
  intros u Hu;
  match goal with
  | |- is_Some (_ !! searchsorted_right ?cdf u) =>
      let v := eval vm_compute in cdf in change cdf with v
  end;
  unfold searchsorted_right;
  rewrite ?filter_cons, ?filter_nil;
  repeat case_decide;
  try (eexists; reflexivity);
  exfalso;
  repeat match goal with
         | H : Qleb _ _ = true |- _ => apply Qleb_le in H
         end;
  destruct Hu; lra.

Lemma skip_0 g : skip 0 g = g.
Proof. destruct g. reflexivity. Qed.

Lemma skip_skip n m g : skip n (skip m g) = skip (n + m) g.
Proof. unfold skip. cbn [doubles position]. f_equal. lia. Qed.

Lemma draws_S g n : draws g (S n) = doubles g (position g) :: draws (skip 1 g) n.
Proof.
  unfold draws. cbn [seq map]. f_equal.
  rewrite <- seq_shift, map_map. apply map_ext. intros i.
  cbn [skip doubles position]. f_equal. lia.
Qed.

Lemma replicateM_uniform_at low high n : forall g,
  replicateM n (rng_uniform low high) g
  = Ok (map (fun u => low + (high - low) * u) (draws g n), skip n g).
Proof.
  induction n as [|n IH]; intros g.
  - rewrite skip_0. reflexivity.
  - change (replicateM (S n) (rng_uniform low high) g)
      with (match rng_uniform low high g with
            | Ok (x, g') => match replicateM n (rng_uniform low high) g' with
                            | Ok (xs, g'') => Ok (x :: xs, g'')
                            | Raise e => Raise e
                            end
            | Raise e => Raise e
            end).
    change (rng_uniform low high g)
      with (Ok (A:=Q * Generator) (low + (high - low) * doubles g (position g), skip 1 g)).
    cbv beta iota. rewrite IH, skip_skip, draws_S, Nat.add_1_r. reflexivity.
Qed.

Lemma replicateM_random_at n : forall g,
  replicateM n rng_random g = Ok (draws g n, skip n g).
Proof.
  induction n as [|n IH]; intros g.
  - rewrite skip_0. reflexivity.
  - change (replicateM (S n) rng_random g)
      with (match rng_random g with
            | Ok (x, g') => match replicateM n rng_random g' with
                            | Ok (xs, g'') => Ok (x :: xs, g'')
                            | Raise e => Raise e
                            end
            | Raise e => Raise e
            end).
    change (rng_random g) with (Ok (A:=Q * Generator) (doubles g (position g), skip 1 g)).
    cbv beta iota. rewrite IH, skip_skip, draws_S, Nat.add_1_r. reflexivity.
Qed.

(** The conversion draws: one double per user, in row order, each compared
    with the probability of the channel and month at the same position. *)
Lemma conversions_at base se (l : list (string * Z)) : forall g,
  mapM (fun '(ch, m) => _effective_conversion base ch m se) l g
  = Ok (map (fun '(u, (ch, m)) => Qltb u (effective_probability base ch m se))
            (zip (draws g (length l)) l),
        skip (length l) g).
Proof.
  induction l as [|[ch m] l IH]; intros g.
  - rewrite skip_0. reflexivity.
  - change (mapM (fun '(ch, m) => _effective_conversion base ch m se) ((ch, m) :: l) g)
      with (match _effective_conversion base ch m se g with
            | Ok (y, g') =>
                match mapM (fun '(ch, m) => _effective_conversion base ch m se) l g' with
                | Ok (k, g'') => Ok (y :: k, g'')
                | Raise e => Raise e
                end
            | Raise e => Raise e
            end).
    change (_effective_conversion base ch m se g)
      with (Ok (A:=bool * Generator)
              (Qltb (doubles g (position g)) (effective_probability base ch m se), skip 1 g)).
    cbv beta iota. rewrite IH, skip_skip. cbn [length]. rewrite draws_S, Nat.add_1_r.
    reflexivity.
Qed.

Lemma draws_unit g n : unit_stream g -> forall u, u ∈ draws g n -> 0 <= u < 1.
Proof.
  intros Hg u Hu. unfold draws in Hu.
  apply list_elem_of_In, in_map_iff in Hu as [i [<- _]]. apply Hg.
Qed.

Lemma length_draws g n : length (draws g n) = n.
Proof. unfold draws. rewrite length_map. apply length_seq. Qed.

(** Looking the doubles up consumes nothing more. *)
Lemma mapM_lookup {A} (a : list A) (idx : Q -> nat) (us : list Q) (g : Generator) :
  (forall u, u ∈ us -> is_Some (a !! idx u)) ->
  exists l,
    mapM (fun u : Q => match a !! idx u with
                     | Some x => mret x
                     | None => throw IndexError
                     end) us g = Ok (l, g)
    /\ length l = length us.
Proof.
  induction us as [|u us IH]; intros Hidx.
  - exists []. split; reflexivity.
  - destruct (Hidx u (list_elem_of_here _ _)) as [x Hx].
    destruct (IH (fun v Hv => Hidx v (list_elem_of_further _ _ _ Hv))) as [l [Hl Hlen]].
    exists (x :: l). split; [|simpl; congruence].
    match goal with
    | |- mapM ?f (u :: us) g = _ =>
        change (mapM f (u :: us) g)
          with (match f u g with
                | Ok (y, g') => match mapM f us g' with
                                | Ok (k, g'') => Ok (y :: k, g'')
                                | Raise e => Raise e
                                end
                | Raise e => Raise e
                end)
    end.
    cbv beta. rewrite Hx.
    change ((mret x : Rand A) g) with (Ok (A:=A * Generator) (x, g)).
    cbv beta iota. rewrite Hl. reflexivity.
Qed.

(** [rng.choice] consumes exactly [size] doubles. *)
Lemma rng_choice_at {A} (a : list A) (size : Z) (p : list Q) :
  (0 <= size)%Z ->
  ((length a =? 0)%nat && negb (size =? 0)%Z) = false ->
  negb (length p =? length a)%nat = false ->
  existsb (fun x => Qltb x 0) p = false ->
  negb (Qeqb (Qsum p) 1) = false ->
  (forall u, 0 <= u < 1 ->
     is_Some (a !! searchsorted_right
                     (map (fun c => c / default 1 (last (cumsum p))) (cumsum p)) u)) ->
  forall g, unit_stream g ->
    exists l, rng_choice a size p g = Ok (l, skip (Z.to_nat size) g)
              /\ length l = Z.to_nat size.
Proof.
  intros Hsize H1 H2 H3 H4 Hidx g Hg. unfold rng_choice.
  rewrite (proj2 (Z.ltb_ge size 0) Hsize), H1, H2, H3, H4. cbv zeta.
  rewrite (bind_ok _ _ _ _ _ (replicateM_random_at (Z.to_nat size) g)).
  match goal with
  | |- context [mapM ?f] =>
      destruct (mapM_lookup a
                  (searchsorted_right
                     (map (fun c => c / default 1 (last (cumsum p))) (cumsum p)))
                  (draws g (Z.to_nat size)) (skip (Z.to_nat size) g))
        as [l [Hl Hlen]]
  end.
  - intros u Hu. apply Hidx. exact (draws_unit g _ Hg u Hu).
  - exists l. split; [exact Hl|]. rewrite Hlen. apply length_draws.
Qed.

Lemma users_frame_ids (ids regs : list Z) : forall conv vars chans,
  length regs = length ids -> length conv = length ids ->
  length vars = length ids -> length chans = length ids ->
  map user_id (users_frame ids regs conv vars chans) = ids.
Proof.
  revert regs. induction ids as [|i ids IH]; intros regs conv vars chans H1 H2 H3 H4.
  - reflexivity.
  - destruct regs as [|r regs]; [discriminate|]. destruct conv as [|c conv]; [discriminate|].
    destruct vars as [|v vars]; [discriminate|]. destruct chans as [|ch chans]; [discriminate|].
    simpl in *. f_equal. apply IH; congruence.
Qed.

(** What [generate_users] returns, column by column (default channel
    shares, at least one user): the dates in the frame are the drawn dates
    sorted, while each conversion is drawn at the probability of the
    channel and of the month of the date drawn at the same position,
    before sorting. *)
Lemma generate_users_columns bit_generator n_users conversion_rate ab_test
    seasonality_enabled seed entropy :
  (forall s k, 0 <= bit_generator s k < 1) ->
  (1 <= n_users)%Z ->
  let g0 := default_rng bit_generator seed entropy in
  let n := Z.to_nat n_users in
  let dates := map drawn_date (draws g0 n) in
  exists chans vars,
    length chans = n
    /\ length vars = n
    /\ generate_users bit_generator n_users conversion_rate ab_test None
                      seasonality_enabled seed entropy
       = Ok (users_frame (seqZ 1 n_users) (merge_sort Z.le dates)
               (map (fun '(u, (ch, m)) =>
                       Qltb u (effective_probability conversion_rate ch m seasonality_enabled))
                    (zip (draws (skip (n + n) g0) n) (zip chans (map dt_month dates))))
               vars chans).
Proof.
  intros Hbits Hn g0 n dates. unfold generate_users. cbv zeta. fold g0.
  assert (Hg0 : unit_stream g0) by (intros k; apply Hbits).
  unfold rng_sized. rewrite (proj2 (Z.ltb_ge n_users 0)) by lia. fold n.
  rewrite (bind_ok _ _ _ _ _ (replicateM_uniform_at _ _ n g0)).
  match goal with
  | |- context [mbind _ (rng_choice ?a n_users ?p)] =>
      destruct (rng_choice_at a n_users p) with (g := skip n g0) as [chans [Hch Hlen]]
  end; try reflexivity; try lia; try (apply unit_stream_skip; exact Hg0); [choice_lands|].
  fold n in Hch, Hlen. rewrite skip_skip in Hch.
  rewrite (bind_ok _ _ _ _ _ Hch).
  rewrite map_map.
  change (map _ (draws g0 n)) with dates.
  assert (Hlenr : length dates = n)
    by (unfold dates; rewrite length_map; apply length_draws).
  assert (Hmonths : series_dt_month dates (skip (n + n) g0)
                    = Ok (map dt_month dates, skip (n + n) g0)).
  { destruct dates as [|r regs]; [simpl in Hlenr; lia|reflexivity]. }
  rewrite (bind_ok _ _ _ _ _ Hmonths).
  rewrite (bind_ok _ _ _ _ _ (conversions_at conversion_rate seasonality_enabled _ _)).
  rewrite length_zip, length_map, Hlen, Hlenr, Nat.min_id.
  assert (Hvar : exists vars g4,
            (if ab_test
             then rng_choice ["control"; "test"] n_users [0.5; 0.5]
             else mret (replicate n "control")) (skip n (skip (n + n) g0)) = Ok (vars, g4)
            /\ length vars = n).
  { destruct ab_test.
    - destruct (rng_choice_at ["control"; "test"] n_users [0.5; 0.5])
        with (g := skip n (skip (n + n) g0)) as [vars [Hv Hlenv]];
        try reflexivity; try lia; try (repeat apply unit_stream_skip; exact Hg0);
        [choice_lands|].
      eexists _, _. split; [exact Hv|exact Hlenv].
    - eexists _, _. split; [reflexivity|apply length_replicate]. }
  destruct Hvar as [vars [g4 [Hvar Hlenv]]].
  rewrite (bind_ok _ _ _ _ _ Hvar).
  exists chans, vars. split; [exact Hlen|]. split; [exact Hlenv|]. reflexivity.
Qed.

(** With the default channel shares, [generate_users] returns [n_users]
    rows numbered 1..[n_users] whenever [n_users >= 1]. *)
Lemma generate_users_rows bit_generator n_users conversion_rate ab_test
    seasonality_enabled seed entropy :
  (forall s k, 0 <= bit_generator s k < 1) ->
  (1 <= n_users)%Z ->
  exists users,
    generate_users bit_generator n_users conversion_rate ab_test None
                   seasonality_enabled seed entropy = Ok users
    /\ length users = Z.to_nat n_users
    /\ map user_id users = seqZ 1 n_users.
Proof.
  intros Hbits Hn.
  destruct (generate_users_columns bit_generator n_users conversion_rate ab_test
              seasonality_enabled seed entropy Hbits Hn)
    as [chans [vars [Hlenc [Hlenv Hrun]]]].
  eexists. split; [exact Hrun|].
  match goal with
  | |- context [users_frame ?ids ?regs ?conv vars chans] =>
      assert (Hids : map user_id (users_frame ids regs conv vars chans) = ids)
  end.
  { apply users_frame_ids; rewrite length_seqZ.
    - rewrite (Permutation_length (merge_sort_Permutation Z.le _)).
      rewrite length_map. apply length_draws.
    - rewrite length_map, length_zip, length_zip, length_draws, Hlenc, !length_map,
        length_draws.
      lia.
    - exact Hlenv.
    - exact Hlenc. }
  split; [|exact Hids].
  rewrite <- (length_map user_id), Hids. apply length_seqZ.
Qed.

End UsersFacts.

(** ** generate_users: the claims *)

Module GeneratorsFacts.
Import Generators.
Local Open Scope Q_scope.

(** C1 (evaluation at the failing input).  With a base rate of 100 percent and
    seasonality on, the two users come out as: user 1 registered on 11
    January, organic, not converted; user 2 registered on 20 July, organic,
    converted.  The specified probability of user 1 is 1 (a January
    registration: 1.0 x 1.0 x 1.2, clamped), so no Bernoulli draw at that
    probability can leave it unconverted: the conversion draw was made with
    the month of the date at the same position before the dates were
    sorted. *)
Theorem generate_users_conversion_uses_unsorted_month :
  generate_users (stream_of c1_stream) 2 100 false None true (Some 42%Z) 0
  = Ok [ mkUser 1 (timedelta_days 10) false "control" "organic";
         mkUser 2 (timedelta_days 200) true "control" "organic" ]
  /\ dt_month (timedelta_days 10) = 1%Z
  /\ spec_conversion_probability 100 true
       (mkUser 1 (timedelta_days 10) false "control" "organic") == 1
  /\ (forall u : Q, u < 1 ->
        Qltb u (spec_conversion_probability 100 true
                  (mkUser 1 (timedelta_days 10) false "control" "organic")) = true).
Proof.
  split; [vm_compute; reflexivity|].
  split; [vm_compute; reflexivity|].
  split; [vm_compute; reflexivity|].
  intros u Hu. apply Qltb_lt.
  assert (E : spec_conversion_probability 100 true
                (mkUser 1 (timedelta_days 10) false "control" "organic") == 1)
    by (vm_compute; reflexivity).
  rewrite E. exact Hu.
Qed.

(** C6 (evaluation at the failing input).  With [n_users = 0] the call
    raises, whatever the other arguments are: no empty dataset is
    returned. *)
Theorem generate_users_zero_raises bit_generator conversion_rate ab_test channel_pct
    seasonality_enabled seed entropy :
  raises (generate_users bit_generator 0 conversion_rate ab_test channel_pct
            seasonality_enabled seed entropy) = true.
Proof.
  unfold generate_users.
  generalize (default_rng bit_generator seed entropy) as g.
  set (cp := default _ channel_pct). clearbody cp.
  cbv zeta.
  set (pr := map (fun x : Q => x / _) _). clearbody pr.
  intros g. unfold rng_sized, rng_choice. simpl (0 <? 0)%Z.
  unfold fmap, result_fmap, mbind, Rand_bind, replicateM, mret, Rand_ret, throw.
  simpl (Z.to_nat 0). simpl (negb (0 =? 0)%Z). rewrite andb_false_r.
  cbn [map].
  repeat match goal with |- context [if ?b then _ else _] => destruct b end;
    reflexivity.
Qed.

(** With the default channel shares the exception is the [AttributeError]
    of the [.dt] accessor. *)
Lemma generate_users_zero_default bit_generator conversion_rate ab_test
    seasonality_enabled seed entropy :
  generate_users bit_generator 0 conversion_rate ab_test None seasonality_enabled
                 seed entropy = Raise AttributeError.
Proof. reflexivity. Qed.


(** Without a seed the entropy decides the stream, and two runs may differ:
    the argument [entropy] is not idle. *)
Lemma unseeded_runs_may_differ :
  generate_users (fun s _ => if (s =? 0)%Z then 0.1 else 0.9) 1 100 false None true None 0
  <> generate_users (fun s _ => if (s =? 0)%Z then 0.1 else 0.9) 1 100 false None true None 1.
Proof. vm_compute. discriminate. Qed.

End GeneratorsFacts.

(** ** Retention and churn by cohort *)

Module CohortFacts.
Import Generators Metrics.
Local Open Scope Q_scope.

Lemma elem_of_unique (l : list Z) (x : Z) : x ∈ unique l <-> x ∈ l.
Proof.
  induction l as [|y l IH]; simpl; [reflexivity|].
  rewrite !elem_of_cons, list_elem_of_filter, IH.
  destruct (decide (x = y)) as [->|Hne]; [tauto|]. tauto.
Qed.

Lemma NoDup_unique (l : list Z) : NoDup (unique l).
Proof.
  induction l as [|y l IH]; simpl; [constructor|].
  constructor.
  - rewrite list_elem_of_filter. intros [Hne _]. apply Hne. reflexivity.
  - apply NoDup_filter. exact IH.
Qed.

Lemma elem_of_sorted (l : list Z) (x : Z) : x ∈ merge_sort Z.le l <-> x ∈ l.
Proof. rewrite (merge_sort_Permutation Z.le l). reflexivity. Qed.

Lemma NoDup_sorted (l : list Z) : NoDup l -> NoDup (merge_sort Z.le l).
Proof. intros H. rewrite (merge_sort_Permutation Z.le l). exact H. Qed.

Lemma grid_keys skip v cs ms :
  (grid skip v cs ms).*1 = list_prod (kept skip cs) ms.
Proof.
  unfold grid, kept. induction cs as [|c cs IH]; [reflexivity|].
  simpl flat_map. rewrite fmap_app, IH, filter_cons.
  destruct (skip c) eqn:E.
  - rewrite decide_False by discriminate. reflexivity.
  - rewrite decide_True by reflexivity. simpl. f_equal.
    clear. induction ms as [|m ms IHm]; [reflexivity|].
    simpl. f_equal. exact IHm.
Qed.

Lemma grid_keys_eq skip v w cs ms :
  (grid skip v cs ms).*1 = (grid skip w cs ms).*1.
Proof. rewrite !grid_keys. reflexivity. Qed.

Lemma grid_nil skip v cs ms : grid skip v cs ms = [] <-> (grid skip v cs ms).*1 = [].
Proof.
  split; [intros ->; reflexivity|].
  destruct (grid skip v cs ms); [reflexivity|discriminate].
Qed.

Lemma elem_of_prod (cs ms : list Z) (c m : Z) :
  (c, m) ∈ list_prod cs ms <-> c ∈ cs ∧ m ∈ ms.
Proof. rewrite !list_elem_of_In. apply in_prod_iff. Qed.

Lemma NoDup_prod (cs ms : list Z) : NoDup cs -> NoDup ms -> NoDup (list_prod cs ms).
Proof.
  intros Hc Hm. induction Hc as [|c cs Hnotin Hc IH]; simpl; [constructor|].
  apply NoDup_app. split; [|split].
  - assert (Hinj : Inj eq eq (fun y : Z => (c, y))) by (intros x y E; congruence).
    apply (NoDup_fmap_2 (fun y : Z => (c, y))). exact Hm.
  - intros [c' m'] Hin Hin'.
    apply list_elem_of_In, in_map_iff in Hin as [m'' [E _]]. injection E as -> ->.
    apply elem_of_prod in Hin' as [Hin' _]. contradiction.
  - exact IH.
Qed.

Lemma row_keys (v : Z -> Z -> Q) (c : Z) (ms : list Z) :
  (map (fun '(c, m, x) => ((c, m), x)) (map (fun m => (c, m, v c m)) ms)).*1
  = map (fun m => (c, m)) ms.
Proof.
  induction ms as [|m ms IHm]; [reflexivity|].
  simpl. f_equal. exact IHm.
Qed.

Lemma grid_lookup skip v cs ms (c m : Z) :
  c ∈ kept skip cs -> m ∈ ms ->
  (list_to_map (map (fun '(c, m, x) => ((c, m), x)) (grid skip v cs ms)) : gmap (Z * Z) Q)
    !! (c, m) = Some (v c m).
Proof.
  unfold grid, kept. intros Hc Hm.
  induction cs as [|c' cs IH]; [inversion Hc|].
  simpl flat_map. rewrite filter_cons in Hc.
  destruct (skip c') eqn:E.
  - rewrite decide_False in Hc by discriminate. simpl. apply IH. exact Hc.
  - rewrite decide_True in Hc by reflexivity.
    rewrite map_app, list_to_map_app.
    destruct (decide (c = c')) as [->|Hne].
    + apply lookup_union_Some_l. clear IH Hc.
      induction ms as [|m' ms IHm]; [inversion Hm|].
      simpl. destruct (decide (m = m')) as [->|Hnm].
      * apply lookup_insert_eq.
      * rewrite lookup_insert_ne by congruence.
        apply IHm. apply elem_of_cons in Hm as [Hm|Hm]; [contradiction|exact Hm].
    + apply elem_of_cons in Hc as [Hc|Hc]; [contradiction|].
      rewrite lookup_union_r; [apply IH; exact Hc|].
      apply not_elem_of_list_to_map. rewrite row_keys.
      intros Hin. apply list_elem_of_In, in_map_iff in Hin as [m'' [Eq _]].
      congruence.
Qed.

(** After [fillna] the cells are the products of the row and column
    labels. *)
Lemma fillna_lookup (t : Pivot) (c m : Z) :
  c ∈ index t -> m ∈ columns t ->
  cells (fillna 0 t) !! (c, m) = Some (default 0 (cells t !! (c, m))).
Proof.
  intros Hc Hm. unfold fillna. simpl cells.
  assert (Hin : (c, m) ∈ list_prod (index t) (columns t))
    by (apply elem_of_prod; split; assumption).
  induction (list_prod (index t) (columns t)) as [|k l IH]; [inversion Hin|].
  simpl. destruct (decide ((c, m) = k)) as [<-|Hne].
  - apply lookup_insert_eq.
  - rewrite lookup_insert_ne by congruence. apply IH.
    apply elem_of_cons in Hin as [Hin|Hin]; [congruence|exact Hin].
Qed.

Lemma fillna_lookup_Some (t : Pivot) (k : Z * Z) (x : Q) :
  cells (fillna 0 t) !! k = Some x -> k.1 ∈ index t ∧ k.2 ∈ columns t.
Proof.
  unfold fillna. simpl cells. intros H.
  apply elem_of_list_to_map_2 in H.
  apply list_elem_of_In, in_map_iff in H as [k' [E Hin]].
  apply list_elem_of_In in Hin. injection E as E _. subst k'.
  destruct k as [c m]. apply elem_of_prod in Hin. exact Hin.
Qed.

(** The payers a cohort has in a set of joined rows. *)
Lemma groupby_set_fold (rws : list PayRow) (c u : Z) : forall d : gmap Z (gset Z),
  u ∈ default ∅ (fold_left (fun d r =>
         <[row_cohort r := {[row_user_id r]} ∪ default ∅ (d !! row_cohort r)]> d) rws d !! c)
  <-> u ∈ default ∅ (d !! c) ∨ ∃ r, r ∈ rws ∧ row_cohort r = c ∧ row_user_id r = u.
Proof.
  induction rws as [|r rws IH]; intros d.
  - simpl. split; [intros H; left; exact H|].
    intros [H|[r [Hr _]]]; [exact H|inversion Hr].
  - simpl fold_left. rewrite IH. clear IH.
    destruct (decide (row_cohort r = c)) as [E|Hne].
    + rewrite E, lookup_insert_eq. simpl. rewrite elem_of_union, elem_of_singleton.
      split.
      * intros [[Hu|Hu]|[r' [Hr' H']]].
        -- right. exists r. split; [left|]. split; [exact E|symmetry; exact Hu].
        -- left. exact Hu.
        -- right. exists r'. split; [right; exact Hr'|exact H'].
      * intros [Hu|[r' [Hr' [Hc Hu]]]].
        -- left. right. exact Hu.
        -- apply elem_of_cons in Hr' as [->|Hr'].
           ++ left. left. symmetry. exact Hu.
           ++ right. exists r'. split; [exact Hr'|]. split; assumption.
    + rewrite lookup_insert_ne by exact Hne.
      split.
      * intros [Hu|[r' [Hr' H']]]; [left; exact Hu|].
        right. exists r'. split; [right; exact Hr'|exact H'].
      * intros [Hu|[r' [Hr' [Hc Hu]]]]; [left; exact Hu|].
        apply elem_of_cons in Hr' as [->|Hr']; [contradiction|].
        right. exists r'. split; [exact Hr'|]. split; assumption.
Qed.

Lemma groupby_set_nonempty (rws : list PayRow) (c : Z) :
  default ∅ (groupby_set rws !! c) ≠ ∅ <-> ∃ r, r ∈ rws ∧ row_cohort r = c.
Proof.
  split.
  - intros H. apply set_choose_L in H as [u Hu].
    apply groupby_set_fold in Hu as [Hu|[r [Hr [Hc _]]]].
    + rewrite lookup_empty in Hu. simpl in Hu.
      exfalso. exact (not_elem_of_empty (C:=gset Z) u Hu).
    + exists r. split; assumption.
  - intros [r [Hr Hc]] E.
    assert (Hu : row_user_id r ∈ default ∅ (groupby_set rws !! c)).
    { apply groupby_set_fold. right. exists r. split; [exact Hr|]. split; [exact Hc|reflexivity]. }
    rewrite E in Hu. exact (not_elem_of_empty (C:=gset Z) _ Hu).
Qed.

Lemma cohort_pay_nil_users payments_df : cohort_pay [] payments_df = [].
Proof.
  unfold cohort_pay. induction payments_df as [|p ps IH]; [reflexivity|].
  simpl. exact IH.
Qed.

Lemma cohort_pay_nil_payments users_df : cohort_pay users_df [] = [].
Proof. reflexivity. Qed.

Lemma prod_rows (cs ms : list Z) (c : Z) :
  c ∈ (list_prod cs ms).*1 <-> c ∈ cs ∧ ms ≠ [].
Proof.
  rewrite list_elem_of_fmap. split.
  - intros [[c' m] [-> Hin]]. apply elem_of_prod in Hin as [Hc Hm].
    split; [exact Hc|]. intros ->. inversion Hm.
  - intros [Hc Hne]. destruct ms as [|m ms]; [contradiction|].
    exists (c, m). split; [reflexivity|]. apply elem_of_prod. split; [exact Hc|left].
Qed.

Lemma prod_columns (cs ms : list Z) (m : Z) :
  m ∈ (list_prod cs ms).*2 <-> m ∈ ms ∧ cs ≠ [].
Proof.
  rewrite list_elem_of_fmap. split.
  - intros [[c m'] [-> Hin]]. apply elem_of_prod in Hin as [Hc Hm].
    split; [exact Hm|]. intros ->. inversion Hc.
  - intros [Hm Hne]. destruct cs as [|c cs]; [contradiction|].
    exists (c, m). split; [reflexivity|]. apply elem_of_prod. split; [left|exact Hm].
Qed.

Lemma build_retention_cohorts_grid users_df payments_df :
  build_retention_cohorts users_df payments_df
  = if bool_decide (users_df = []) || bool_decide (payments_df = []) then Ok empty_frame
    else
      let pay := cohort_pay users_df payments_df in
      let pay_m0 := groupby_set (filter (fun r => row_month_number r = 0%Z) pay) in
      let data := grid (skip_cohort pay_m0) (retention_pct pay pay_m0)
                       (unique (map row_cohort pay))
                       (merge_sort Z.le (unique (map row_month_number pay))) in
      if bool_decide (data = []) then Ok empty_frame else fillna 0 <$> pivot data.
Proof. reflexivity. Qed.

Lemma churn_by_cohort_table_grid users_df payments_df :
  churn_by_cohort_table users_df payments_df
  = if bool_decide (users_df = []) || bool_decide (payments_df = []) then Ok empty_frame
    else
      let pay := cohort_pay users_df payments_df in
      let pay_m0 := groupby_set (filter (fun r => row_month_number r = 0%Z) pay) in
      let data := grid (skip_cohort pay_m0) (churn_pct pay pay_m0)
                       (unique (map row_cohort pay))
                       (merge_sort Z.le (unique (map row_month_number pay))) in
      if bool_decide (data = []) then Ok empty_frame else fillna 0 <$> pivot data.
Proof. reflexivity. Qed.

(** A cohort is kept by the loops exactly when one of its joined payments
    has month-of-life 0. *)
Lemma kept_cohort (pay : list PayRow) (c : Z) :
  c ∈ kept (skip_cohort (groupby_set (filter (fun r => row_month_number r = 0%Z) pay)))
           (unique (map row_cohort pay))
  <-> ∃ row, row ∈ pay ∧ row_cohort row = c ∧ row_month_number row = 0%Z.
Proof.
  unfold kept, skip_cohort. rewrite list_elem_of_filter, elem_of_unique.
  rewrite bool_decide_eq_false, groupby_set_nonempty.
  split.
  - intros [[r [Hr Hc]] _]. apply list_elem_of_filter in Hr as [Hm Hr].
    exists r. split; [exact Hr|]. split; assumption.
  - intros [r [Hr [Hc Hm]]]. split.
    + exists r. split; [|exact Hc]. apply list_elem_of_filter. split; assumption.
    + apply list_elem_of_In, in_map_iff. exists r. split; [exact Hc|].
      apply list_elem_of_In. exact Hr.
Qed.

Lemma months_nonempty (pay : list PayRow) (row : PayRow) :
  row ∈ pay -> merge_sort Z.le (unique (map row_month_number pay)) ≠ [].
Proof.
  intros Hr E.
  assert (Hin : row_month_number row ∈ merge_sort Z.le (unique (map row_month_number pay))).
  { apply elem_of_sorted, elem_of_unique, list_elem_of_In, in_map.
    apply list_elem_of_In. exact Hr. }
  rewrite E in Hin. inversion Hin.
Qed.

Lemma pct_complement (pay : list PayRow) (pay_m0 : gmap Z (gset Z)) (c m : Z) :
  skip_cohort pay_m0 c = false ->
  retention_pct pay pay_m0 c m + churn_pct pay pay_m0 c m == 100.
Proof.
  unfold skip_cohort, retention_pct, churn_pct. intros Hs.
  apply bool_decide_eq_false in Hs.
  destruct (size (default ∅ (pay_m0 !! c))) as [|n] eqn:En.
  - exfalso. apply Hs. apply leibniz_equiv, size_empty_iff. exact En.
  - cbn [Nat.eqb negb]. ring.
Qed.

(** C4.  Both tables are produced (neither function raises); they have the
    same cohorts as rows and the same months as columns; in every cell of
    both, retention + churn is 100 percent; and a cohort is a row exactly when
    one of its payments has month-of-life 0, that is, when it has a month-0
    payer. *)
Theorem retention_churn_complementary users_df payments_df :
  exists R C : Pivot,
    build_retention_cohorts users_df payments_df = Ok R
    /\ churn_by_cohort_table users_df payments_df = Ok C
    /\ index R = index C
    /\ columns R = columns C
    /\ (forall c m, c ∈ index R -> m ∈ columns R ->
          exists r ch, cells R !! (c, m) = Some r /\ cells C !! (c, m) = Some ch
                       /\ r + ch == 100)
    /\ (forall k r ch, cells R !! k = Some r -> cells C !! k = Some ch -> r + ch == 100)
    /\ (forall c, c ∈ index R <->
          exists row, row ∈ cohort_pay users_df payments_df
                      /\ row_cohort row = c /\ row_month_number row = 0%Z).
Proof.
  rewrite build_retention_cohorts_grid, churn_by_cohort_table_grid.
  destruct (bool_decide (users_df = []) || bool_decide (payments_df = [])) eqn:Hempty.
  { exists empty_frame, empty_frame. repeat split; try reflexivity.
    - intros c m Hc. inversion Hc.
    - intros k r ch Hr. simpl in Hr. rewrite lookup_empty in Hr. discriminate.
    - intros Hc. inversion Hc.
    - intros [row [Hrow _]]. exfalso.
      apply orb_true_iff in Hempty as [E|E]; apply bool_decide_eq_true in E; subst.
      + rewrite cohort_pay_nil_users in Hrow. inversion Hrow.
      + rewrite cohort_pay_nil_payments in Hrow. inversion Hrow. }
  clear Hempty. cbv zeta.
  set (pay := cohort_pay users_df payments_df).
  set (pay_m0 := groupby_set (filter (fun r => row_month_number r = 0%Z) pay)).
  set (cs := unique (map row_cohort pay)).
  set (ms := merge_sort Z.le (unique (map row_month_number pay))).
  assert (Hkept : forall c, c ∈ kept (skip_cohort pay_m0) cs
                   <-> ∃ row, row ∈ pay ∧ row_cohort row = c ∧ row_month_number row = 0%Z)
    by (intros c; apply kept_cohort).
  assert (Hnil : grid (skip_cohort pay_m0) (churn_pct pay pay_m0) cs ms = []
                 <-> grid (skip_cohort pay_m0) (retention_pct pay pay_m0) cs ms = []).
  { rewrite !grid_nil, (grid_keys_eq _ (churn_pct pay pay_m0) (retention_pct pay pay_m0)).
    reflexivity. }
  assert (Hnodup : NoDup (list_prod (kept (skip_cohort pay_m0) cs) ms)).
  { apply NoDup_prod.
    - apply NoDup_filter, NoDup_unique.
    - apply NoDup_sorted, NoDup_unique. }
  case_bool_decide as HR.
  { rewrite bool_decide_eq_true_2 by (apply Hnil; exact HR).
    exists empty_frame, empty_frame. repeat split; try reflexivity.
    - intros c m Hc. inversion Hc.
    - intros k r ch Hr. simpl in Hr. rewrite lookup_empty in Hr. discriminate.
    - intros Hc. inversion Hc.
    - intros [row [Hrow [Hc Hm]]]. exfalso.
      apply grid_nil in HR. rewrite grid_keys in HR.
      assert (Hin : (c, row_month_number row) ∈ list_prod (kept (skip_cohort pay_m0) cs) ms).
      { apply elem_of_prod. split.
        - apply Hkept. exists row. split; [exact Hrow|]. split; assumption.
        - apply elem_of_sorted, elem_of_unique, list_elem_of_In, in_map.
          apply list_elem_of_In. exact Hrow. }
      rewrite HR in Hin. inversion Hin. }
  rewrite bool_decide_eq_false_2 by (intros E; apply HR, Hnil; exact E).
  unfold pivot.
  rewrite (grid_keys_eq _ (churn_pct pay pay_m0) (retention_pct pay pay_m0)).
  rewrite !grid_keys.
  destruct (decide (NoDup (list_prod (kept (skip_cohort pay_m0) cs) ms)))
    as [_|Hn]; [|contradiction].
  eexists. eexists. split; [reflexivity|]. split; [reflexivity|].
  cbn [fmap result_fmap fillna index columns].
  assert (Hidx : forall c,
            c ∈ merge_sort Z.le (unique (list_prod (kept (skip_cohort pay_m0) cs) ms).*1)
            <-> c ∈ kept (skip_cohort pay_m0) cs ∧ ms ≠ []).
  { intros c. rewrite elem_of_sorted, elem_of_unique. apply prod_rows. }
  assert (Hcol : forall m,
            m ∈ merge_sort Z.le (unique (list_prod (kept (skip_cohort pay_m0) cs) ms).*2)
            <-> m ∈ ms ∧ kept (skip_cohort pay_m0) cs ≠ []).
  { intros m. rewrite elem_of_sorted, elem_of_unique. apply prod_columns. }
  assert (Hcell : forall c m,
            c ∈ merge_sort Z.le (unique (list_prod (kept (skip_cohort pay_m0) cs) ms).*1) ->
            m ∈ merge_sort Z.le (unique (list_prod (kept (skip_cohort pay_m0) cs) ms).*2) ->
            exists r ch,
              cells (fillna 0 (mkPivot
                (merge_sort Z.le (unique (list_prod (kept (skip_cohort pay_m0) cs) ms).*1))
                (merge_sort Z.le (unique (list_prod (kept (skip_cohort pay_m0) cs) ms).*2))
                (list_to_map (map (fun '(c, m, v) => ((c, m), v))
                   (grid (skip_cohort pay_m0) (retention_pct pay pay_m0) cs ms)))))
                !! (c, m) = Some r
              /\ cells (fillna 0 (mkPivot
                (merge_sort Z.le (unique (list_prod (kept (skip_cohort pay_m0) cs) ms).*1))
                (merge_sort Z.le (unique (list_prod (kept (skip_cohort pay_m0) cs) ms).*2))
                (list_to_map (map (fun '(c, m, v) => ((c, m), v))
                   (grid (skip_cohort pay_m0) (churn_pct pay pay_m0) cs ms)))))
                !! (c, m) = Some ch
              /\ r + ch == 100).
  { intros c m Hc Hm.
    pose proof (proj1 (Hidx c) Hc) as [Hck _].
    pose proof (proj1 (Hcol m) Hm) as [Hmm _].
    exists (retention_pct pay pay_m0 c m), (churn_pct pay pay_m0 c m).
    rewrite !fillna_lookup by assumption. cbn [cells].
    rewrite !grid_lookup by assumption. repeat split.
    apply pct_complement.
    unfold kept in Hck. apply list_elem_of_filter in Hck as [Hs _]. exact Hs. }
  split; [reflexivity|]. split; [reflexivity|]. split; [exact Hcell|]. split.
  - intros [c m] r ch Hr Hch.
    destruct (fillna_lookup_Some _ _ _ Hr) as [Hc Hm]. cbn [fst snd index columns] in Hc, Hm.
    destruct (Hcell c m Hc Hm) as [r' [ch' [Hr' [Hch' Hsum]]]].
    rewrite Hr in Hr'. rewrite Hch in Hch'.
    injection Hr' as <-. injection Hch' as <-. exact Hsum.
  - intros c. rewrite Hidx, Hkept. split; [intros [H _]; exact H|].
    intros [row [Hrow H]]. split; [exists row; split; assumption|].
    apply (months_nonempty pay row Hrow).
Qed.

End CohortFacts.

(** ** Point-in-time churn rate *)

Module ChurnFacts.
Import Metrics.
Local Open Scope Q_scope.











End ChurnFacts.

(** ** A/B comparison, MDE and sample size *)

Module ABFacts.
Import Metrics.
Local Open Scope Q_scope.

(** The guard of [ab_metrics]: without a variant column, or with fewer
    than two distinct labels, the neutral result is returned. *)
Lemma ab_metrics_guard chi2_test ttest_ind users_df payments_df :
  "variant" ∉ frame_columns users_df
  ∨ (length (remove_dups (map variant (frame_rows users_df))) < 2)%nat ->
  ab_metrics chi2_test ttest_ind users_df payments_df = Ok ([], Finite 0.0, 0.0, false).
Proof.
  intros H. unfold ab_metrics.
  destruct H as [H|H].
  - rewrite bool_decide_eq_false_2 by exact H. reflexivity.
  - apply Nat.ltb_lt in H. rewrite H, orb_true_r. reflexivity.
Qed.

(** On users whose labels are [control] or [test], the guard lets the data
    through exactly when both labels occur. *)
Lemma guard_both_present (users_df : UsersFrame) :
  "variant" ∈ frame_columns users_df ->
  (forall u, u ∈ frame_rows users_df -> variant u = "control" ∨ variant u = "test") ->
  ab_not_applicable users_df = false
  <-> (exists u, u ∈ frame_rows users_df ∧ variant u = "control")
      ∧ (exists u, u ∈ frame_rows users_df ∧ variant u = "test").
Proof.
  intros Hcol Hlabels. unfold ab_not_applicable.
  rewrite bool_decide_eq_true_2 by exact Hcol. cbn [negb orb].
  set (l := map variant (frame_rows users_df)).
  assert (Hl : forall x, x ∈ remove_dups l <-> exists u, u ∈ frame_rows users_df ∧ variant u = x).
  { intros x. rewrite elem_of_remove_dups. unfold l.
    rewrite list_elem_of_In, in_map_iff. split.
    - intros [u [E Hu]]. exists u. split; [apply list_elem_of_In; exact Hu|exact E].
    - intros [u [Hu E]]. exists u. split; [exact E|apply list_elem_of_In; exact Hu]. }
  pose proof (NoDup_remove_dups l) as Hnd.
  rewrite Nat.ltb_ge. split.
  - intros Hlen.
    destruct (remove_dups l) as [|a [|b d]] eqn:E; simpl in Hlen; try lia.
    apply NoDup_cons in Hnd as [Hab _].
    assert (Ha : a ∈ a :: b :: d) by left.
    assert (Hb : b ∈ a :: b :: d) by (right; left).
    apply Hl in Ha as [ua [Hua Ea]]. apply Hl in Hb as [ub [Hub Eb]].
    assert (a ≠ b) by (intros ->; apply Hab; left).
    destruct (Hlabels ua Hua) as [Ca|Ca], (Hlabels ub Hub) as [Cb|Cb];
      try (exfalso; congruence).
    + split; [exists ua|exists ub]; split; assumption.
    + split; [exists ub|exists ua]; split; assumption.
  - intros [Hc Ht]. apply Hl in Hc. apply Hl in Ht.
    destruct (remove_dups l) as [|a [|b d]]; simpl; try lia.
    + inversion Hc.
    + apply elem_of_cons in Hc as [Hc|Hc]; [|inversion Hc].
      apply elem_of_cons in Ht as [Ht|Ht]; [|inversion Ht]. congruence.
Qed.

(** [ab_metrics] raises exactly when the guard lets the data through and
    [chi2_contingency] refuses the table. *)
Lemma ab_metrics_raises_iff chi2_test ttest_ind users_df payments_df :
  raises (ab_metrics chi2_test ttest_ind users_df payments_df)
  = negb (ab_not_applicable users_df)
    && raises (chi2_contingency chi2_test (ab_table users_df)).
Proof.
  unfold ab_metrics, ab_not_applicable.
  destruct (negb (bool_decide _) || _); [reflexivity|].
  cbv zeta. fold (ab_table users_df).
  destruct (chi2_contingency chi2_test (ab_table users_df)); reflexivity.
Qed.

(** C2 (evaluation at the failing input).  Both variants are present with
    one member each and nobody converted: the contingency table is
    [[0, 1], [0, 1]], its first column sums to zero, and the [ValueError]
    of [chi2_contingency] leaves [ab_metrics] uncaught. *)
Theorem ab_metrics_raises_without_conversions chi2_test ttest_ind payments_df :
  ab_metrics chi2_test ttest_ind c2_users payments_df = Raise ValueError.
Proof.
  unfold ab_metrics, c2_users. cbn -[Qeqb Qsum py_round2 py_round4 mean_bool].
  reflexivity.
Qed.

(** The same happens with two labels of which one is not [test]: the guard
    counts labels and does not look at them. *)
Lemma ab_metrics_raises_on_foreign_label chi2_test ttest_ind payments_df :
  ab_metrics chi2_test ttest_ind
    (mkUsersFrame ["variant"]
       [ mkUser 1 0 true "control" "organic"; mkUser 2 0 false "control" "organic";
         mkUser 3 0 true "B" "organic" ]) payments_df
  = Raise ValueError.
Proof.
  unfold ab_metrics. cbn -[Qeqb Qsum py_round2 py_round4 mean_bool].
  reflexivity.
Qed.


(** The same for any quantiles near the tabulated ones: the formula stays
    below 30. *)
Lemma sample_size_formula_small norm_ppf :
  1.9 <= norm_ppf (1 - 0.05 / 2) <= 2.0 -> 0.8 <= norm_ppf 0.8 <= 0.9 ->
  (Qceiling (power_formula norm_ppf 0.5 0.05 0.8 1 98) < 30)%Z.
Proof.
  intros Ha Hb. unfold power_formula.
  set (za := norm_ppf _) in *. set (zb := norm_ppf 0.8) in *.
  assert (E : Qmin 0.99 (0.5 * (1 + 98 / 100)) == 0.99) by (vm_compute; reflexivity).
  cbv zeta. rewrite E.
  assert (Hle : (za + zb) ^ 2 * (0.5 * (1 - 0.5) + 0.99 * (1 - 0.99) / 1)
                / (0.99 - 0.5) ^ 2 <= inject_Z 29).
  { assert (K : (0.5 * (1 - 0.5) + 0.99 * (1 - 0.99) / 1) / (0.99 - 0.5) ^ 2
                == 259900 # 240100) by (vm_compute; reflexivity).
    unfold Qdiv in *. rewrite <- Qmult_assoc. rewrite K.
    assert (0 <= za + zb <= 2.9) by lra.
    assert ((za + zb) ^ 2 <= 8.41) by (simpl; nra).
    unfold inject_Z. nra. }
  apply Qceiling_resp_le in Hle. rewrite Qceiling_Z in Hle. lia.
Qed.




(** C5 (evaluation at the failing input).  At a baseline of 0.99 the target
    [p2 = min(0.99, 0.99 * 1.2)] equals the baseline, the effect size is 0,
    and the sample-size division makes [calc_mde_and_sample_size] raise
    before it reaches the MDE, for every quantile function and root finder;
    [calc_mde_simple] at [n = 1000] returns the sentinel 50. *)
Theorem mde_entry_points_differ_at_099 :
  (forall norm_ppf brentq alpha power,
     raises (calc_mde_and_sample_size norm_ppf brentq 0.99 alpha power 1 20) = true)
  /\ calc_mde_and_sample_size norm_ppf_table bisect_brentq 0.99 0.05 0.8 1 20
     = Raise OverflowError
  /\ calc_mde_simple norm_ppf_table bisect_brentq 1000 0.99 0.05 0.8 1 = Ok 50.0.
Proof.
  split; [|split; vm_compute; reflexivity].
  intros norm_ppf brentq alpha power. unfold calc_mde_and_sample_size.
  cbn [Qleb orb]. change (Qle_bool 0.99 0 || Qle_bool 1 0.99) with false.
  cbv beta iota zeta.
  change (py_div (Qmin 0.99 (0.99 * (1 + 20 / 100))
                  * (1 - Qmin 0.99 (0.99 * (1 + 20 / 100)))) 1)
    with (Ok (A:=Q) (Qmin 0.99 (0.99 * (1 + 20 / 100))
                     * (1 - Qmin 0.99 (0.99 * (1 + 20 / 100))) / 1)).
  cbn [mbind result_bind]. unfold ceil_np_div.
  change (Qeqb ((Qmin 0.99 (0.99 * (1 + 20 / 100)) - 0.99) ^ 2) 0) with true.
  cbv iota. destruct (Qeqb _ 0); reflexivity.
Qed.

(** Away from that slip the two entry points agree: whenever
    [calc_mde_and_sample_size] returns, its MDE is the value of
    [calc_mde_simple] at [n = 1000]. *)
Lemma mde_entry_points_agree norm_ppf brentq p_control alpha power ratio target_lift_pct mde n :
  0 < p_control < 1 ->
  calc_mde_and_sample_size norm_ppf brentq p_control alpha power ratio target_lift_pct
  = Ok (mde, n) ->
  exists mde', calc_mde_simple norm_ppf brentq 1000 p_control alpha power ratio = Ok mde'
               /\ mde' == mde.
Proof.
  intros [Hp0 Hp1]. unfold calc_mde_and_sample_size, calc_mde_simple.
  assert (G0 : Qleb p_control 0 = false).
  { destruct (Qleb p_control 0) eqn:E; [|reflexivity].
    apply Qleb_le in E. lra. }
  assert (G1 : Qleb 1 p_control = false).
  { destruct (Qleb 1 p_control) eqn:E; [|reflexivity].
    apply Qleb_le in E. lra. }
  rewrite G0, G1. cbn [orb Z.leb Z.compare]. cbv zeta.
  destruct (py_div _ ratio) as [q|e]; [|discriminate].
  cbn [mbind result_bind].
  destruct (ceil_np_div _ _) as [k|e]; [|discriminate].
  cbn [mbind result_bind].
  change (inject_Z 1000) with 1000.
  destruct (brentq _ _ _) as [x|e].
  - cbn [mbind result_bind except_50].
    destruct (Qltb 0 p_control); cbn [mbind result_bind except_50];
      intros H; injection H as <- _; eexists; split; reflexivity.
  - destruct e; cbn [except_50 mbind result_bind]; try discriminate;
      intros H; injection H as <- _; eexists; (split; [reflexivity|]);
      vm_compute; reflexivity.
Qed.

End ABFacts.

(** * The other tables and metrics *)

(** ** Calendar *)

Example to_timestamp_2025 :
  map to_timestamp [660; 661; 662; 671; 672; 659; 649; 650]%Z
  = map timedelta_days [0; 31; 59; 334; 365; -31; -335; -306]%Z.
Proof. vm_compute. reflexivity. Qed.

(** From 2020 to 2030, a month starts at its [to_timestamp] and the
    microsecond before belongs to the month before. *)
Example to_timestamp_starts_the_month :
  forallb (fun m => (to_period_M (to_timestamp m) =? m)%Z
                    && (to_period_M (to_timestamp m - 1) =? m - 1)%Z)
          (seqZ 600 132) = true.
Proof. vm_compute. reflexivity. Qed.

Local Open Scope Q_scope.
(** ** Sums and percentages *)

Lemma Qsum_nonneg (l : list Q) : Forall (fun x => 0 <= x) l -> 0 <= Qsum l.
Proof.
  induction 1 as [|x l Hx _ IH]; simpl; [lra|]. lra.
Qed.

Lemma Qsum_app (l1 l2 : list Q) : Qsum (l1 ++ l2) == Qsum l1 + Qsum l2.
Proof.
  induction l1 as [|x l1 IH]; simpl; [ring|]. rewrite IH. ring.
Qed.

Lemma inject_nat_nonneg (n : nat) : 0 <= inject_Z (Z.of_nat n).
Proof. change 0 with (inject_Z 0). rewrite <- Zle_Qle. lia. Qed.

Lemma inject_nat_pos (n : nat) : (0 < n)%nat -> 0 < inject_Z (Z.of_nat n).
Proof. intros H. change 0 with (inject_Z 0). rewrite <- Zlt_Qlt. lia. Qed.

Lemma percent_bounds (c n : nat) :
  (c <= n)%nat -> (0 < n)%nat ->
  0 <= inject_Z (Z.of_nat c) / inject_Z (Z.of_nat n) * 100 <= 100.
Proof.
  intros Hc Hn.
  pose proof (inject_nat_nonneg c) as Ha.
  assert (Hab : inject_Z (Z.of_nat c) <= inject_Z (Z.of_nat n)) by (rewrite <- Zle_Qle; lia).
  pose proof (inject_nat_pos n Hn) as Hb.
  set (a := inject_Z (Z.of_nat c)) in *. set (b := inject_Z (Z.of_nat n)) in *.
  assert (H0 : 0 <= a / b) by (apply Qle_shift_div_l; [exact Hb|lra]).
  assert (H1 : a / b <= 1) by (apply Qle_shift_div_r; [exact Hb|lra]).
  lra.
Qed.

Lemma length_pos {A} (l : list A) : l <> [] -> (0 < length l)%nat.
Proof. destruct l; [contradiction|simpl; lia]. Qed.

Lemma series_mean_bounds (l : list Q) (lo hi : Q) :
  l <> [] -> Forall (fun x => lo <= x <= hi) l -> lo <= series_mean l <= hi.
Proof.
  intros Hne Hall. unfold series_mean.
  pose proof (inject_nat_pos _ (length_pos _ Hne)) as Hlen.
  assert (Hsum : lo * inject_Z (Z.of_nat (length l)) <= Qsum l
                 <= hi * inject_Z (Z.of_nat (length l))).
  { clear Hne Hlen. induction Hall as [|x l Hx _ IH].
    - change (lo * 0 <= 0 <= hi * 0). lra.
    - cbn [length Qsum fold_right]. rewrite Nat2Z.inj_succ, <- Z.add_1_r, inject_Z_plus.
      change (fold_right Qplus 0 l) with (Qsum l). change (inject_Z 1) with 1. lra. }
  split.
  - apply Qle_shift_div_l; [exact Hlen|]. lra.
  - apply Qle_shift_div_r; [exact Hlen|]. lra.
Qed.


Lemma Qdiv_le_mono (a b n : Q) : 0 < n -> a <= b -> a / n <= b / n.
Proof.
  intros Hn Hab. apply Qle_shift_div_l; [exact Hn|].
  assert (E : a / n * n == a) by (field; lra). lra.
Qed.

(** ** Lists and tables *)

Lemma filter_ext_in {A} (P P' : A -> Prop) `{!forall x, Decision (P x)}
    `{!forall x, Decision (P' x)} (l : list A) :
  (forall x, x ∈ l -> P x <-> P' x) -> filter P l = filter P' l.
Proof.
  induction l as [|x l IH]; intros Hiff; [reflexivity|].
  rewrite !filter_cons.
  assert (Hx : P x <-> P' x) by (apply Hiff; left).
  assert (Hl : filter P l = filter P' l) by (apply IH; intros y Hy; apply Hiff; right; exact Hy).
  destruct (decide (P x)) as [HP|HP].
  - rewrite decide_True by (apply Hx; exact HP). rewrite Hl. reflexivity.
  - rewrite decide_False by (intros HP'; apply HP, Hx; exact HP'). exact Hl.
Qed.

Lemma StronglySorted_lt (l : list Z) :
  NoDup l -> StronglySorted Z.le l -> StronglySorted Z.lt l.
Proof.
  induction l as [|x l IH]; intros Hnd Hs; [constructor|].
  apply NoDup_cons in Hnd as [Hx Hnd]. apply StronglySorted_inv in Hs as [Hs Hall].
  constructor; [apply IH; assumption|].
  apply Forall_forall. intros y Hy. rewrite Forall_forall in Hall.
  specialize (Hall y Hy). assert (x <> y) by (intros ->; contradiction). lia.
Qed.

(** A table filled from a function of its keys. *)
Lemma tabulate_lookup (f : Z * Z -> Q) (ks : list (Z * Z)) (k : Z * Z) :
  (list_to_map (map (fun k => (k, f k)) ks) : gmap (Z * Z) Q) !! k
  = if decide (k ∈ ks) then Some (f k) else None.
Proof.
  induction ks as [|x ks IH].
  - destruct (decide (k ∈ [])) as [H|_]; [inversion H|]. apply lookup_empty.
  - cbn [map]. rewrite list_to_map_cons. cbn [fst snd].
    destruct (decide (k = x)) as [->|Hne].
    + rewrite lookup_insert_eq.
      destruct (decide (x ∈ x :: ks)) as [_|H]; [reflexivity|]. exfalso. apply H. left.
    + rewrite lookup_insert_ne by congruence. rewrite IH.
      destruct (decide (k ∈ ks)) as [Hin|Hout];
        destruct (decide (k ∈ x :: ks)) as [Hin'|Hout']; try reflexivity.
      * exfalso. apply Hout'. right. exact Hin.
      * exfalso. apply elem_of_cons in Hin' as [H|H]; [congruence|contradiction].
Qed.

Local Close Scope Q_scope.

(** ** generate_users: dates and labels *)

Module UserRowsFacts.
Import Generators.
Local Open Scope Q_scope.

Lemma mapM_lookup_elems {A} (a : list A) (idx : Q -> nat) (us : list Q) (g : Generator) :
  (forall u, u ∈ us -> is_Some (a !! idx u)) ->
  exists l,
    mapM (fun u : Q => match a !! idx u with
                     | Some x => mret x
                     | None => throw IndexError
                     end) us g = Ok (l, g)
    /\ length l = length us
    /\ Forall (fun x => x ∈ a) l.
Proof.
  induction us as [|u us IH]; intros Hidx.
  - exists []. repeat split. constructor.
  - destruct (Hidx u (list_elem_of_here _ _)) as [x Hx].
    destruct (IH (fun v Hv => Hidx v (list_elem_of_further _ _ _ Hv))) as [l [Hl [Hlen Hin]]].
    exists (x :: l). split; [|split; [simpl; congruence|]].
    + match goal with
      | |- mapM ?f (u :: us) g = _ =>
          change (mapM f (u :: us) g)
            with (match f u g with
                  | Ok (y, g') => match mapM f us g' with
                                  | Ok (k, g'') => Ok (y :: k, g'')
                                  | Raise e => Raise e
                                  end
                  | Raise e => Raise e
                  end)
      end.
      cbv beta. rewrite Hx.
      change ((mret x : Rand A) g) with (Ok (A:=A * Generator) (x, g)).
      cbv beta iota. rewrite Hl. reflexivity.
    + constructor; [|exact Hin]. eapply list_elem_of_lookup_2. exact Hx.
Qed.

(** A choice that passes the checks of [rng.choice] returns [size] items
    of [a]. *)
Lemma rng_choice_lands {A} (a : list A) (size : Z) (p : list Q) :
  (0 <= size)%Z ->
  ((length a =? 0)%nat && negb (size =? 0)%Z) = false ->
  negb (length p =? length a)%nat = false ->
  existsb (fun x => Qltb x 0) p = false ->
  negb (Qeqb (Qsum p) 1) = false ->
  (forall u, 0 <= u < 1 ->
     is_Some (a !! searchsorted_right
                     (map (fun c => c / default 1 (last (cumsum p))) (cumsum p)) u)) ->
  forall g, unit_stream g ->
    exists l, rng_choice a size p g = Ok (l, skip (Z.to_nat size) g)
              /\ length l = Z.to_nat size
              /\ Forall (fun x => x ∈ a) l.
Proof.
  intros Hsize H1 H2 H3 H4 Hidx g Hg. unfold rng_choice.
  rewrite (proj2 (Z.ltb_ge size 0) Hsize), H1, H2, H3, H4. cbv zeta.
  rewrite (UsersFacts.bind_ok _ _ _ _ _ (UsersFacts.replicateM_random_at (Z.to_nat size) g)).
  match goal with
  | |- context [mapM ?f] =>
      destruct (mapM_lookup_elems a
                  (searchsorted_right
                     (map (fun c => c / default 1 (last (cumsum p))) (cumsum p)))
                  (draws g (Z.to_nat size)) (skip (Z.to_nat size) g))
        as [l [Hl [Hlen Hin]]]
  end.
  - intros u Hu. apply Hidx. exact (UsersFacts.draws_unit g _ Hg u Hu).
  - exists l. split; [exact Hl|]. split; [|exact Hin].
    rewrite Hlen. apply UsersFacts.length_draws.
Qed.

(** The user table, column by column, with where the labels come from. *)
Lemma generate_users_labels bit_generator n_users conversion_rate ab_test
    seasonality_enabled seed entropy :
  (forall s k, 0 <= bit_generator s k < 1) ->
  (1 <= n_users)%Z ->
  let g0 := default_rng bit_generator seed entropy in
  let n := Z.to_nat n_users in
  let dates := map drawn_date (draws g0 n) in
  exists conv chans vars,
    length conv = n
    /\ length chans = n
    /\ length vars = n
    /\ Forall (fun ch => ch ∈ ["ads"; "organic"; "referral"]) chans
    /\ Forall (fun v => v ∈ ["control"; "test"]) vars
    /\ (ab_test = false -> vars = replicate n "control")
    /\ Forall (fun b => exists u ch m,
                  0 <= u
                  /\ b = Qltb u (effective_probability conversion_rate ch m seasonality_enabled))
              conv
    /\ generate_users bit_generator n_users conversion_rate ab_test None
                      seasonality_enabled seed entropy
       = Ok (users_frame (seqZ 1 n_users) (merge_sort Z.le dates) conv vars chans).
Proof.
  intros Hbits Hn g0 n dates. unfold generate_users. cbv zeta. fold g0.
  assert (Hg0 : unit_stream g0) by (intros k; apply Hbits).
  unfold rng_sized. rewrite (proj2 (Z.ltb_ge n_users 0)) by lia. fold n.
  rewrite (UsersFacts.bind_ok _ _ _ _ _ (UsersFacts.replicateM_uniform_at _ _ n g0)).
  match goal with
  | |- context [mbind _ (rng_choice ?a n_users ?p)] =>
      destruct (rng_choice_lands a n_users p) with (g := skip n g0)
        as [chans [Hch [Hlen Hchans]]]
  end; try reflexivity; try lia; try (apply PaymentsFacts.unit_stream_skip; exact Hg0);
    [UsersFacts.choice_lands|].
  fold n in Hch, Hlen. rewrite UsersFacts.skip_skip in Hch.
  rewrite (UsersFacts.bind_ok _ _ _ _ _ Hch).
  rewrite map_map.
  change (map _ (draws g0 n)) with dates.
  assert (Hlenr : length dates = n)
    by (unfold dates; rewrite length_map; apply UsersFacts.length_draws).
  assert (Hmonths : series_dt_month dates (skip (n + n) g0)
                    = Ok (map dt_month dates, skip (n + n) g0)).
  { destruct dates as [|r regs]; [simpl in Hlenr; lia|reflexivity]. }
  rewrite (UsersFacts.bind_ok _ _ _ _ _ Hmonths).
  rewrite (UsersFacts.bind_ok _ _ _ _ _
             (UsersFacts.conversions_at conversion_rate seasonality_enabled _ _)).
  rewrite length_zip, length_map, Hlen, Hlenr, Nat.min_id.
  assert (Hvar : exists vars g4,
            (if ab_test
             then rng_choice ["control"; "test"] n_users [0.5; 0.5]
             else mret (replicate n "control")) (skip n (skip (n + n) g0)) = Ok (vars, g4)
            /\ length vars = n
            /\ Forall (fun v => v ∈ ["control"; "test"]) vars
            /\ (ab_test = false -> vars = replicate n "control")).
  { destruct ab_test.
    - destruct (rng_choice_lands ["control"; "test"] n_users [0.5; 0.5])
        with (g := skip n (skip (n + n) g0)) as [vars [Hv [Hlenv Hvars]]];
        try reflexivity; try lia;
        try (repeat apply PaymentsFacts.unit_stream_skip; exact Hg0);
        [UsersFacts.choice_lands|].
      eexists _, _. split; [exact Hv|]. split; [exact Hlenv|]. split; [exact Hvars|].
      discriminate.
    - eexists _, _. split; [reflexivity|]. split; [apply length_replicate|].
      split; [|reflexivity].
      apply Forall_forall. intros v Hv. apply elem_of_replicate in Hv as [-> _]. left. }
  destruct Hvar as [vars [g4 [Hvar [Hlenv [Hvars Hctl]]]]].
  rewrite (UsersFacts.bind_ok _ _ _ _ _ Hvar).
  eexists _, chans, vars. split; [|split; [exact Hlen|split; [exact Hlenv|]]].
  2: { split; [exact Hchans|]. split; [exact Hvars|]. split; [exact Hctl|].
       split; [|reflexivity].
       apply Forall_forall. intros b Hb.
       apply list_elem_of_In, in_map_iff in Hb as [[x [ch m]] [Hb Hin]].
       exists x, ch, m. split; [|symmetry; exact Hb].
       apply in_combine_l, list_elem_of_In in Hin.
       assert (Hg : unit_stream (skip (n + n) g0))
         by (apply PaymentsFacts.unit_stream_skip; exact Hg0).
       destruct (UsersFacts.draws_unit _ _ Hg x Hin) as [H0 _]. exact H0. }
  rewrite length_map, !length_zip, length_map, UsersFacts.length_draws, Hlen, Hlenr.
  lia.
Qed.

Lemma users_frame_columns (ids regs : list Z) : forall conv vars chans,
  length regs = length ids -> length conv = length ids ->
  length vars = length ids -> length chans = length ids ->
  map registered_at (users_frame ids regs conv vars chans) = regs
  /\ map variant (users_frame ids regs conv vars chans) = vars
  /\ map channel (users_frame ids regs conv vars chans) = chans
  /\ map converted (users_frame ids regs conv vars chans) = conv.
Proof.
  revert regs. induction ids as [|i ids IH]; intros regs conv vars chans H1 H2 H3 H4.
  - destruct regs; [|discriminate]. destruct vars; [|discriminate].
    destruct chans; [|discriminate]. destruct conv; [|discriminate]. repeat split.
  - destruct regs as [|r regs]; [discriminate|]. destruct conv as [|c conv]; [discriminate|].
    destruct vars as [|v vars]; [discriminate|]. destruct chans as [|ch chans]; [discriminate|].
    simpl in H1, H2, H3, H4.
    destruct (IH regs conv vars chans) as [E1 [E2 [E3 E4]]]; try congruence.
    cbn [users_frame map registered_at variant channel converted].
    rewrite E1, E2, E3, E4. repeat split.
Qed.

Lemma py_int_nonneg (x : Q) : 0 <= x -> (0 <= py_int x)%Z.
Proof.
  intros H. unfold py_int. apply Z.quot_pos; [|lia].
  unfold Qle in H. simpl in H. lia.
Qed.

Lemma drawn_date_day (u : Q) :
  0 <= u -> exists d, (0 <= d <= 364)%Z ∧ drawn_date u = timedelta_days d.
Proof.
  intros Hu. unfold drawn_date.
  exists (Z.min (py_int (0 + (inject_Z 365 - 0) * u)) (365 - 1)). split; [|reflexivity].
  assert (H : (0 <= py_int (0 + (inject_Z 365 - 0) * u))%Z).
  { apply py_int_nonneg. change (inject_Z 365) with 365. nra. }
  lia.
Qed.

Lemma days_of_2025 (d : Z) :
  (0 <= d <= 364)%Z -> fst (civil_year_month (timedelta_days d)) = 2025%Z.
Proof.
  intros Hd.
  assert (Hall : forallb (fun d => (fst (civil_year_month (timedelta_days d)) =? 2025)%Z)
                         (seqZ 0 365) = true) by (vm_compute; reflexivity).
  rewrite forallb_forall in Hall. apply Z.eqb_eq, Hall.
  apply list_elem_of_In, elem_of_seqZ. lia.
Qed.

(** X1.  With the default channel shares, doubles in [0,1) and at least
    one user, the [registered_at] column of [generate_users] is in
    ascending order and every date is midnight of one of the 365 days of
    2025. *)
Theorem registration_dates_ascend_within_2025 bit_generator n_users conversion_rate
    ab_test seasonality_enabled seed entropy :
  (forall s k, 0 <= bit_generator s k < 1) ->
  (1 <= n_users)%Z ->
  exists users,
    generate_users bit_generator n_users conversion_rate ab_test None
                   seasonality_enabled seed entropy = Ok users
    /\ StronglySorted Z.le (map registered_at users)
    /\ Forall (fun u => exists d, (0 <= d <= 364)%Z
                                  ∧ registered_at u = timedelta_days d
                                  ∧ fst (civil_year_month (registered_at u)) = 2025%Z)
              users.
Proof.
  intros Hbits Hn.
  destruct (generate_users_labels bit_generator n_users conversion_rate ab_test
              seasonality_enabled seed entropy Hbits Hn)
    as [conv [chans [vars [Hlenc [Hlench [Hlenv [_ [_ [_ [_ Hrun]]]]]]]]]].
  eexists. split; [exact Hrun|].
  set (g0 := default_rng bit_generator seed entropy) in *.
  set (dates := map drawn_date (draws g0 (Z.to_nat n_users))) in *.
  assert (Hlenr : length (merge_sort Z.le dates) = length (seqZ 1 n_users)).
  { rewrite (Permutation_length (merge_sort_Permutation Z.le _)), length_seqZ.
    unfold dates. rewrite length_map. apply UsersFacts.length_draws. }
  destruct (users_frame_columns (seqZ 1 n_users) (merge_sort Z.le dates) conv vars chans)
    as [Hregs _]; rewrite ?length_seqZ; try assumption.
  { rewrite <- (length_seqZ 1 n_users). exact Hlenr. }
  split.
  - rewrite Hregs. apply StronglySorted_merge_sort; apply _.
  - apply Forall_forall. intros u Hu.
    assert (Hin : registered_at u ∈ merge_sort Z.le dates).
    { rewrite <- Hregs. apply list_elem_of_In, in_map, list_elem_of_In. exact Hu. }
    rewrite CohortFacts.elem_of_sorted in Hin. unfold dates in Hin.
    apply list_elem_of_In, in_map_iff in Hin as [x [Hx Hin]].
    assert (Hx0 : 0 <= x).
    { apply list_elem_of_In in Hin.
      assert (Hg0 : unit_stream g0) by (intros k; apply Hbits).
      destruct (UsersFacts.draws_unit g0 _ Hg0 x Hin) as [H _]. exact H. }
    destruct (drawn_date_day x Hx0) as [d [Hd E]].
    exists d. split; [exact Hd|]. rewrite <- Hx, E. split; [reflexivity|].
    apply days_of_2025. exact Hd.
Qed.

Lemma registration_dates_ascend_within_2025_witness :
  exists users,
    generate_users (stream_of c1_stream) 2 100 false None true (Some 42%Z) 0 = Ok users
    /\ StronglySorted Z.le (map registered_at users)
    /\ Forall (fun u => exists d, (0 <= d <= 364)%Z
                                  ∧ registered_at u = timedelta_days d
                                  ∧ fst (civil_year_month (registered_at u)) = 2025%Z)
              users.
Proof.
  apply (registration_dates_ascend_within_2025 (stream_of c1_stream) 2 100 false true
           (Some 42%Z) 0).
  - intros s k. exact (PaymentsFacts.unit_stream_of c1_stream s 0 eq_refl k).
  - lia.
Defined.

Lemma remove_dups_replicate (n : nat) (x : string) :
  (length (remove_dups (replicate n x)) <= 1)%nat.
Proof.
  induction n as [|n IH]; [simpl; lia|].
  cbn [replicate remove_dups]. destruct (decide_rel elem_of x (replicate n x)); [exact IH|].
  destruct n as [|n]; [simpl; lia|]. exfalso. apply n0. left.
Qed.

(** X2.  With the default channel shares, doubles in [0,1) and at least
    one user, [generate_users] returns [n_users] rows with the ids
    1, ..., [n_users] in row order, and every row has a channel among ads,
    organic and referral and a variant among control and test. *)
Theorem generated_labels bit_generator n_users conversion_rate ab_test
    seasonality_enabled seed entropy :
  (forall s k, 0 <= bit_generator s k < 1) ->
  (1 <= n_users)%Z ->
  exists users,
    generate_users bit_generator n_users conversion_rate ab_test None
                   seasonality_enabled seed entropy = Ok users
    /\ map user_id users = seqZ 1 n_users
    /\ Forall (fun u => channel u ∈ ["ads"; "organic"; "referral"]
                        ∧ variant u ∈ ["control"; "test"]) users.
Proof.
  intros Hbits Hn.
  destruct (generate_users_labels bit_generator n_users conversion_rate ab_test
              seasonality_enabled seed entropy Hbits Hn)
    as [conv [chans [vars [Hlenc [Hlench [Hlenv [Hchans [Hvars [_ [_ Hrun]]]]]]]]]].
  eexists. split; [exact Hrun|].
  set (g0 := default_rng bit_generator seed entropy) in *.
  set (dates := map drawn_date (draws g0 (Z.to_nat n_users))) in *.
  assert (Hlenr : length (merge_sort Z.le dates) = length (seqZ 1 n_users)).
  { rewrite (Permutation_length (merge_sort_Permutation Z.le _)), length_seqZ.
    unfold dates. rewrite length_map. apply UsersFacts.length_draws. }
  destruct (users_frame_columns (seqZ 1 n_users) (merge_sort Z.le dates) conv vars chans)
    as [_ [Hv [Hc _]]]; rewrite ?length_seqZ; try assumption.
  { rewrite <- (length_seqZ 1 n_users). exact Hlenr. }
  split.
  { apply UsersFacts.users_frame_ids; rewrite ?length_seqZ; try assumption.
    rewrite <- (length_seqZ 1 n_users). exact Hlenr. }
  apply Forall_forall. intros u Hu. split.
  - rewrite Forall_forall in Hchans. apply Hchans. rewrite <- Hc.
    apply list_elem_of_In, in_map, list_elem_of_In. exact Hu.
  - rewrite Forall_forall in Hvars. apply Hvars. rewrite <- Hv.
    apply list_elem_of_In, in_map, list_elem_of_In. exact Hu.
Qed.

Lemma generated_labels_witness :
  exists users,
    generate_users (stream_of c1_stream) 2 100 true None true (Some 42%Z) 0 = Ok users
    /\ map user_id users = seqZ 1 2
    /\ Forall (fun u => channel u ∈ ["ads"; "organic"; "referral"]
                        ∧ variant u ∈ ["control"; "test"]) users.
Proof.
  apply (generated_labels (stream_of c1_stream) 2 100 true true (Some 42%Z) 0).
  - intros s k. exact (PaymentsFacts.unit_stream_of c1_stream s 0 eq_refl k).
  - lia.
Defined.

(** X3.  Without the A/B split every generated user is in the control
    group, and [ab_metrics] on the generated table returns its neutral
    result, whatever the column labels and the payments. *)
Theorem ab_metrics_without_split bit_generator n_users conversion_rate
    seasonality_enabled seed entropy :
  (forall s k, 0 <= bit_generator s k < 1) ->
  (1 <= n_users)%Z ->
  exists users,
    generate_users bit_generator n_users conversion_rate false None
                   seasonality_enabled seed entropy = Ok users
    /\ Forall (fun u => variant u = "control") users
    /\ forall chi2_test ttest_ind cols payments_df,
         Metrics.ab_metrics chi2_test ttest_ind (Metrics.mkUsersFrame cols users) payments_df
         = Ok ([], Finite 0.0, 0.0, false).
Proof.
  intros Hbits Hn.
  destruct (generate_users_labels bit_generator n_users conversion_rate false
              seasonality_enabled seed entropy Hbits Hn)
    as [conv [chans [vars [Hlenc [Hlench [Hlenv [_ [_ [Hctl [_ Hrun]]]]]]]]]].
  specialize (Hctl eq_refl).
  eexists. split; [exact Hrun|].
  set (g0 := default_rng bit_generator seed entropy) in *.
  set (dates := map drawn_date (draws g0 (Z.to_nat n_users))) in *.
  assert (Hlenr : length (merge_sort Z.le dates) = length (seqZ 1 n_users)).
  { rewrite (Permutation_length (merge_sort_Permutation Z.le _)), length_seqZ.
    unfold dates. rewrite length_map. apply UsersFacts.length_draws. }
  destruct (users_frame_columns (seqZ 1 n_users) (merge_sort Z.le dates) conv vars chans)
    as [_ [Hv _]]; rewrite ?length_seqZ; try assumption.
  { rewrite <- (length_seqZ 1 n_users). exact Hlenr. }
  split.
  - apply Forall_forall. intros u Hu.
    assert (Hin : variant u ∈ vars)
      by (rewrite <- Hv; apply list_elem_of_In, in_map, list_elem_of_In; exact Hu).
    rewrite Hctl in Hin. apply elem_of_replicate in Hin as [E _]. exact E.
  - intros chi2_test ttest_ind cols payments_df.
    apply ABFacts.ab_metrics_guard. right. cbn [Metrics.frame_rows].
    rewrite Hv, Hctl. pose proof (remove_dups_replicate (Z.to_nat n_users) "control"). lia.
Qed.

Lemma ab_metrics_without_split_witness :
  exists users,
    generate_users (stream_of c1_stream) 2 100 false None true (Some 42%Z) 0 = Ok users
    /\ Forall (fun u => variant u = "control") users
    /\ forall chi2_test ttest_ind cols payments_df,
         Metrics.ab_metrics chi2_test ttest_ind (Metrics.mkUsersFrame cols users) payments_df
         = Ok ([], Finite 0.0, 0.0, false).
Proof.
  apply (ab_metrics_without_split (stream_of c1_stream) 2 100 true (Some 42%Z) 0).
  - intros s k. exact (PaymentsFacts.unit_stream_of c1_stream s 0 eq_refl k).
  - lia.
Defined.

Lemma multipliers_nonneg (ch : string) (m : Z) (se : bool) :
  0 <= default 1.0 (CHANNEL_CONVERSION_MULT !! ch) * _seasonality_mult m se.
Proof.
  assert (Hc : 0 <= default 1.0 (CHANNEL_CONVERSION_MULT !! ch)).
  { unfold CHANNEL_CONVERSION_MULT.
    destruct (decide (ch = "ads")) as [->|H1];
      [rewrite lookup_insert_eq; simpl; lra|rewrite lookup_insert_ne by congruence].
    destruct (decide (ch = "organic")) as [->|H2];
      [rewrite lookup_insert_eq; simpl; lra|rewrite lookup_insert_ne by congruence].
    destruct (decide (ch = "referral")) as [->|H3];
      [rewrite lookup_insert_eq; simpl; lra|rewrite lookup_insert_ne by congruence].
    rewrite lookup_empty. simpl. lra. }
  assert (Hs : 0 <= _seasonality_mult m se).
  { unfold _seasonality_mult. destruct (negb se); [lra|].
    destruct ((m =? 12)%Z || (m =? 1)%Z); [lra|].
    destruct ((m =? 7)%Z || (m =? 8)%Z); lra. }
  nra.
Qed.

Lemma no_conversion_below_zero (conversion_rate u : Q) (ch : string) (m : Z) (se : bool) :
  conversion_rate <= 0 -> 0 <= u ->
  Qltb u (effective_probability conversion_rate ch m se) = false.
Proof.
  intros Hr Hu. apply Qltb_ge. unfold effective_probability.
  pose proof (multipliers_nonneg ch m se) as Hm.
  set (mult := default 1.0 (CHANNEL_CONVERSION_MULT !! ch) * _seasonality_mult m se) in *.
  assert (Hp : conversion_rate / 100.0 * mult <= 0).
  { assert (conversion_rate / 100.0 <= 0) by (apply Qle_shift_div_r; [reflexivity|lra]).
    nra. }
  apply Qle_trans with 0; [|exact Hu].
  apply Qle_trans with (Qmax 0.0 (conversion_rate / 100.0 * mult)); [apply Q.le_min_r|].
  apply Q.max_lub; [lra|exact Hp].
Qed.

(** X27.  With doubles in [0,1), at least one user and a conversion rate
    of zero or below, [generate_users] marks no user as converted, whatever
    the channels, the months and the seasonality switch are, and
    [calc_conversion_rate] of the generated table is 0. *)
Theorem no_conversion_at_rate_zero bit_generator n_users conversion_rate ab_test
    seasonality_enabled seed entropy :
  (forall s k, 0 <= bit_generator s k < 1) ->
  (1 <= n_users)%Z ->
  conversion_rate <= 0 ->
  exists users,
    generate_users bit_generator n_users conversion_rate ab_test None
                   seasonality_enabled seed entropy = Ok users
    /\ Forall (fun u => converted u = false) users
    /\ Metrics.calc_conversion_rate users == 0.
Proof.
  intros Hbits Hn Hrate.
  destruct (generate_users_labels bit_generator n_users conversion_rate ab_test
              seasonality_enabled seed entropy Hbits Hn)
    as [conv [chans [vars [Hlenc [Hlench [Hlenv [_ [_ [_ [Hconv Hrun]]]]]]]]]].
  eexists. split; [exact Hrun|].
  set (g0 := default_rng bit_generator seed entropy) in *.
  set (dates := map drawn_date (draws g0 (Z.to_nat n_users))) in *.
  assert (Hlenr : length (merge_sort Z.le dates) = length (seqZ 1 n_users)).
  { rewrite (Permutation_length (merge_sort_Permutation Z.le _)), length_seqZ.
    unfold dates. rewrite length_map. apply UsersFacts.length_draws. }
  destruct (users_frame_columns (seqZ 1 n_users) (merge_sort Z.le dates) conv vars chans)
    as [_ [_ [_ Hc]]]; rewrite ?length_seqZ; try assumption.
  { rewrite <- (length_seqZ 1 n_users). exact Hlenr. }
  assert (Hall : Forall (fun b => b = false) conv).
  { eapply Forall_impl; [exact Hconv|]. intros b [u [ch [m [Hu ->]]]].
    apply no_conversion_below_zero; assumption. }
  split.
  - apply Forall_forall. intros u Hu. rewrite Forall_forall in Hall. apply Hall.
    rewrite <- Hc. apply list_elem_of_In, in_map, list_elem_of_In. exact Hu.
  - unfold Metrics.calc_conversion_rate. case_bool_decide; [reflexivity|].
    unfold Metrics.mean_bool, Metrics.count_true. rewrite Hc.
    rewrite (PaymentsFacts.filter_none (fun b => b = true) conv).
    + simpl. unfold Qdiv. ring.
    + eapply Forall_impl; [exact Hall|]. intros b ->. discriminate.
Qed.

Lemma no_conversion_at_rate_zero_witness :
  exists users,
    generate_users (stream_of c1_stream) 2 0 false None true (Some 42%Z) 0 = Ok users
    /\ Forall (fun u => converted u = false) users
    /\ Metrics.calc_conversion_rate users == 0.
Proof.
  apply (no_conversion_at_rate_zero (stream_of c1_stream) 2 0 false true (Some 42%Z) 0).
  - intros s k. exact (PaymentsFacts.unit_stream_of c1_stream s 0 eq_refl k).
  - lia.
  - discriminate.
Defined.

End UserRowsFacts.

(** ** generate_payments: rows, payers, amounts and times *)

Module PaymentRowsFacts.
Import Generators.
Local Open Scope Q_scope.





Section PayerRows.

Variables (users_df : list User).
Variables (min_amount max_amount first_payment_min first_payment_max : Q).
Variables (churn_days repeat_rate : Q).




End PayerRows.



(** *** Who pays *)






(** *** How many payments, and of what amount *)





(** *** When the payments are made *)




End PaymentRowsFacts.

(** ** Ranges of the cohort tables *)

Module CohortTableFacts.
Import Generators Metrics.
Local Open Scope Q_scope.

(** The table both cohort loops end with: its rows are the kept cohorts,
    its columns the months, and every cell holds the value computed for its
    cohort and month. *)
Lemma grid_table skip_ (v : Z -> Z -> Q) (cs ms : list Z) :
  NoDup cs -> NoDup ms ->
  exists T : Pivot,
    (if bool_decide (grid skip_ v cs ms = []) then Ok empty_frame
     else fillna 0 <$> pivot (grid skip_ v cs ms)) = Ok T
    /\ (forall c, c ∈ index T <-> c ∈ kept skip_ cs ∧ ms <> [])
    /\ (forall m, m ∈ columns T <-> m ∈ ms ∧ kept skip_ cs <> [])
    /\ (forall c m x, cells T !! (c, m) = Some x <->
          c ∈ index T ∧ m ∈ columns T ∧ x = v c m).
Proof.
  intros Hcs Hms.
  assert (Hnodup : NoDup (list_prod (kept skip_ cs) ms)).
  { apply CohortFacts.NoDup_prod; [apply NoDup_filter; exact Hcs|exact Hms]. }
  case_bool_decide as HR.
  { exists empty_frame. split; [reflexivity|].
    apply CohortFacts.grid_nil in HR. rewrite CohortFacts.grid_keys in HR.
    assert (Hno : forall c m, c ∈ kept skip_ cs -> m ∈ ms -> False).
    { intros c m Hc Hm.
      assert (Hin : (c, m) ∈ list_prod (kept skip_ cs) ms)
        by (apply CohortFacts.elem_of_prod; split; assumption).
      rewrite HR in Hin. inversion Hin. }
    split; [|split].
    - intros c. split; [intros H; inversion H|]. intros [Hc Hne].
      destruct ms as [|m ms']; [contradiction|]. exfalso. apply (Hno c m Hc). left.
    - intros m. split; [intros H; inversion H|]. intros [Hm Hne].
      destruct (kept skip_ cs) as [|c cs'] eqn:E; [contradiction|].
      exfalso. apply (Hno c m); [left|exact Hm].
    - intros c m x. simpl. rewrite lookup_empty. split; [discriminate|].
      intros [H _]. inversion H. }
  unfold pivot. rewrite !CohortFacts.grid_keys.
  destruct (decide (NoDup (list_prod (kept skip_ cs) ms))) as [_|Hn]; [|contradiction].
  eexists. split; [reflexivity|].
  cbn [fmap result_fmap fillna index columns].
  assert (Hidx : forall c,
            c ∈ merge_sort Z.le (unique (list_prod (kept skip_ cs) ms).*1)
            <-> c ∈ kept skip_ cs ∧ ms <> []).
  { intros c. rewrite CohortFacts.elem_of_sorted, CohortFacts.elem_of_unique.
    apply CohortFacts.prod_rows. }
  assert (Hcol : forall m,
            m ∈ merge_sort Z.le (unique (list_prod (kept skip_ cs) ms).*2)
            <-> m ∈ ms ∧ kept skip_ cs <> []).
  { intros m. rewrite CohortFacts.elem_of_sorted, CohortFacts.elem_of_unique.
    apply CohortFacts.prod_columns. }
  split; [exact Hidx|]. split; [exact Hcol|].
  intros c m x. split.
  - intros Hx. destruct (CohortFacts.fillna_lookup_Some _ _ _ Hx) as [Hc Hm].
    cbn [fst snd index columns] in Hc, Hm. split; [exact Hc|]. split; [exact Hm|].
    rewrite CohortFacts.fillna_lookup in Hx by assumption. cbn [cells] in Hx.
    rewrite CohortFacts.grid_lookup in Hx
      by (first [apply Hidx; exact Hc | apply Hcol; exact Hm]).
    simpl in Hx. congruence.
  - intros [Hc [Hm ->]]. rewrite CohortFacts.fillna_lookup by assumption. cbn [cells].
    rewrite CohortFacts.grid_lookup
      by (first [apply Hidx; exact Hc | apply Hcol; exact Hm]).
    reflexivity.
Qed.

(** The set the group-by holds for a cohort. *)
Lemma groupby_set_elem (rws : list PayRow) (c u : Z) :
  u ∈ default ∅ (groupby_set rws !! c)
  <-> ∃ r, r ∈ rws ∧ row_cohort r = c ∧ row_user_id r = u.
Proof.
  unfold groupby_set. rewrite CohortFacts.groupby_set_fold, lookup_empty. simpl.
  split; [intros [H|H]; [|exact H]|intros H; right; exact H].
  exfalso. exact (not_elem_of_empty (C:=gset Z) u H).
Qed.

Lemma came_back_le (pay : list PayRow) (pay_m0 : gmap Z (gset Z)) (c m : Z) :
  (came_back pay pay_m0 c m <= size (default ∅ (pay_m0 !! c)))%nat.
Proof.
  unfold came_back. apply subseteq_size. apply intersection_subseteq_l.
Qed.

Lemma came_back_month0 (pay : list PayRow) (c : Z) :
  came_back pay (groupby_set (filter (fun r => row_month_number r = 0%Z) pay)) c 0
  = size (default ∅ (groupby_set (filter (fun r => row_month_number r = 0%Z) pay) !! c)).
Proof.
  unfold came_back. f_equal. apply set_eq. intros u.
  rewrite elem_of_intersection, groupby_set_elem, elem_of_list_to_set.
  split; [intros [H _]; exact H|]. intros [r [Hr [Hc Hu]]]. split.
  - exists r. repeat split; assumption.
  - apply list_elem_of_filter in Hr as [Hm Hr].
    apply list_elem_of_In, in_map_iff. exists r. split; [exact Hu|].
    apply list_elem_of_In, list_elem_of_filter. split; [|exact Hr]. split; assumption.
Qed.

Lemma retention_pct_range (pay : list PayRow) (pay_m0 : gmap Z (gset Z)) (c m : Z) :
  0 <= retention_pct pay pay_m0 c m <= 100.
Proof.
  unfold retention_pct.
  destruct (size (default ∅ (pay_m0 !! c)) =? 0)%nat eqn:E; cbn [negb]; [lra|].
  apply Nat.eqb_neq in E. apply percent_bounds; [apply came_back_le|lia].
Qed.

Lemma churn_pct_range (pay : list PayRow) (pay_m0 : gmap Z (gset Z)) (c m : Z) :
  0 <= churn_pct pay pay_m0 c m <= 100.
Proof.
  unfold churn_pct.
  destruct (size (default ∅ (pay_m0 !! c)) =? 0)%nat eqn:E; cbn [negb]; [lra|].
  apply Nat.eqb_neq in E.
  pose proof (percent_bounds _ _ (came_back_le pay pay_m0 c m) ltac:(lia)). lra.
Qed.

Lemma month0_pct (pay : list PayRow) (c : Z) :
  let pay_m0 := groupby_set (filter (fun r => row_month_number r = 0%Z) pay) in
  skip_cohort pay_m0 c = false ->
  retention_pct pay pay_m0 c 0 == 100 /\ churn_pct pay pay_m0 c 0 == 0.
Proof.
  cbv zeta. intros Hs. unfold retention_pct, churn_pct. rewrite came_back_month0.
  unfold skip_cohort in Hs. apply bool_decide_eq_false in Hs.
  destruct (size _) as [|n] eqn:En.
  - exfalso. apply Hs. apply leibniz_equiv, size_empty_iff. exact En.
  - cbn [Nat.eqb negb].
    pose proof (inject_nat_pos (S n) ltac:(lia)). split; field; lra.
Qed.

Lemma month0_column (pay : list PayRow) (c : Z) :
  c ∈ kept (skip_cohort (groupby_set (filter (fun r => row_month_number r = 0%Z) pay)))
           (unique (map row_cohort pay)) ->
  0%Z ∈ merge_sort Z.le (unique (map row_month_number pay)).
Proof.
  intros Hc. apply CohortFacts.kept_cohort in Hc as [row [Hrow [_ Hm]]].
  apply CohortFacts.elem_of_sorted, CohortFacts.elem_of_unique.
  rewrite <- Hm. apply list_elem_of_In, in_map, list_elem_of_In. exact Hrow.
Qed.

Lemma empty_table_range (lo hi v0 : Q) :
  (forall c m x, cells empty_frame !! (c, m) = Some x -> lo <= x <= hi)
  /\ (forall c, c ∈ index empty_frame ->
        0%Z ∈ columns empty_frame ∧ ∃ x, cells empty_frame !! (c, 0%Z) = Some x ∧ x == v0).
Proof.
  split.
  - intros c m x H. simpl in H. rewrite lookup_empty in H. discriminate.
  - intros c H. inversion H.
Qed.

(** X10.  [build_retention_cohorts] returns a table in which every value
    lies between 0 and 100, and every cohort of which has 100 in the column
    of month 0 (which the table then has). *)
Theorem retention_table_range (users_df : list User) (payments_df : list Payment) :
  exists R : Pivot,
    build_retention_cohorts users_df payments_df = Ok R
    /\ (forall c m r, cells R !! (c, m) = Some r -> 0 <= r <= 100)
    /\ (forall c, c ∈ index R ->
          0%Z ∈ columns R ∧ ∃ r, cells R !! (c, 0%Z) = Some r ∧ r == 100).
Proof.
  rewrite CohortFacts.build_retention_cohorts_grid.
  destruct (bool_decide (users_df = []) || bool_decide (payments_df = [])).
  { exists empty_frame. split; [reflexivity|]. apply empty_table_range. }
  cbv zeta.
  set (pay := cohort_pay users_df payments_df).
  set (pay_m0 := groupby_set (filter (fun r => row_month_number r = 0%Z) pay)).
  destruct (grid_table (skip_cohort pay_m0) (retention_pct pay pay_m0)
              (unique (map row_cohort pay))
              (merge_sort Z.le (unique (map row_month_number pay)))
              (CohortFacts.NoDup_unique _)
              (CohortFacts.NoDup_sorted _ (CohortFacts.NoDup_unique _)))
    as [T [HT [Hidx [Hcol Hcell]]]].
  exists T. split; [exact HT|]. split.
  - intros c m r Hr. apply Hcell in Hr as [_ [_ ->]]. apply retention_pct_range.
  - intros c Hc. pose proof (proj1 (Hidx c) Hc) as [Hk Hne].
    assert (H0 : 0%Z ∈ columns T).
    { apply Hcol. split; [apply (month0_column pay c Hk)|].
      intros E. rewrite E in Hk. inversion Hk. }
    split; [exact H0|]. exists (retention_pct pay pay_m0 c 0). split.
    + apply Hcell. repeat split; assumption.
    + apply month0_pct. unfold kept in Hk. apply list_elem_of_filter in Hk as [Hs _]. exact Hs.
Qed.

(** X24.  [churn_by_cohort_table] returns a table in which every value
    lies between 0 and 100, and every cohort of which has 0 in the column of
    month 0 (which the table then has). *)
Theorem churn_table_range (users_df : list User) (payments_df : list Payment) :
  exists C : Pivot,
    churn_by_cohort_table users_df payments_df = Ok C
    /\ (forall c m x, cells C !! (c, m) = Some x -> 0 <= x <= 100)
    /\ (forall c, c ∈ index C ->
          0%Z ∈ columns C ∧ ∃ x, cells C !! (c, 0%Z) = Some x ∧ x == 0).
Proof.
  rewrite CohortFacts.churn_by_cohort_table_grid.
  destruct (bool_decide (users_df = []) || bool_decide (payments_df = [])).
  { exists empty_frame. split; [reflexivity|]. apply empty_table_range. }
  cbv zeta.
  set (pay := cohort_pay users_df payments_df).
  set (pay_m0 := groupby_set (filter (fun r => row_month_number r = 0%Z) pay)).
  destruct (grid_table (skip_cohort pay_m0) (churn_pct pay pay_m0)
              (unique (map row_cohort pay))
              (merge_sort Z.le (unique (map row_month_number pay)))
              (CohortFacts.NoDup_unique _)
              (CohortFacts.NoDup_sorted _ (CohortFacts.NoDup_unique _)))
    as [T [HT [Hidx [Hcol Hcell]]]].
  exists T. split; [exact HT|]. split.
  - intros c m r Hr. apply Hcell in Hr as [_ [_ ->]]. apply churn_pct_range.
  - intros c Hc. pose proof (proj1 (Hidx c) Hc) as [Hk Hne].
    assert (H0 : 0%Z ∈ columns T).
    { apply Hcol. split; [apply (month0_column pay c Hk)|].
      intros E. rewrite E in Hk. inversion Hk. }
    split; [exact H0|]. exists (churn_pct pay pay_m0 c 0). split.
    + apply Hcell. repeat split; assumption.
    + apply month0_pct. unfold kept in Hk. apply list_elem_of_filter in Hk as [Hs _]. exact Hs.
Qed.

End CohortTableFacts.

(** ** Active payers by cohort *)

Module ActivityFacts.
Import Generators Metrics.
Local Open Scope Q_scope.

Lemma groupby_users_fold (rws : list PayRow) (k : Z * Z) (u : Z) :
  forall d : gmap (Z * Z) (gset Z),
  (u ∈ default ∅ (fold_left (fun d r =>
         let k := (row_cohort r, row_month_number r) in
         <[k := {[row_user_id r]} ∪ default ∅ (d !! k)]> d) rws d !! k)
   <-> u ∈ default ∅ (d !! k)
       ∨ ∃ r, r ∈ rws ∧ (row_cohort r, row_month_number r) = k ∧ row_user_id r = u)
  /\ (is_Some (fold_left (fun d r =>
         let k := (row_cohort r, row_month_number r) in
         <[k := {[row_user_id r]} ∪ default ∅ (d !! k)]> d) rws d !! k)
      <-> is_Some (d !! k) ∨ ∃ r, r ∈ rws ∧ (row_cohort r, row_month_number r) = k).
Proof.
  induction rws as [|r rws IH]; intros d.
  - simpl. split.
    + split; [intros H; left; exact H|]. intros [H|[r [Hr _]]]; [exact H|inversion Hr].
    + split; [intros H; left; exact H|]. intros [H|[r [Hr _]]]; [exact H|inversion Hr].
  - cbn [fold_left]. cbv zeta.
    destruct (IH (<[(row_cohort r, row_month_number r) :=
                    {[row_user_id r]} ∪ default ∅ (d !! (row_cohort r, row_month_number r))]> d))
      as [IH1 IH2].
    split.
    + rewrite IH1. destruct (decide ((row_cohort r, row_month_number r) = k)) as [E|E].
      * rewrite E. rewrite lookup_insert_eq. simpl. rewrite elem_of_union, elem_of_singleton.
        split.
        -- intros [[H|H]|[r' [Hr' H]]].
           ++ right. exists r. split; [left|]. split; [exact E|congruence].
           ++ left. exact H.
           ++ right. exists r'. split; [right; exact Hr'|exact H].
        -- intros [H|[r' [Hr' [Hk Hu]]]].
           ++ left. right. exact H.
           ++ apply elem_of_cons in Hr' as [->|Hr'].
              ** left. left. congruence.
              ** right. exists r'. repeat split; assumption.
      * rewrite lookup_insert_ne by exact E. split.
        -- intros [H|[r' [Hr' H]]]; [left; exact H|].
           right. exists r'. split; [right; exact Hr'|exact H].
        -- intros [H|[r' [Hr' [Hk Hu]]]]; [left; exact H|].
           apply elem_of_cons in Hr' as [->|Hr']; [contradiction|].
           right. exists r'. repeat split; assumption.
    + rewrite IH2. destruct (decide ((row_cohort r, row_month_number r) = k)) as [E|E].
      * rewrite E. rewrite lookup_insert_eq. split.
        -- intros _. right. exists r. split; [left|exact E].
        -- intros _. left. eexists. reflexivity.
      * rewrite lookup_insert_ne by exact E. split.
        -- intros [H|[r' [Hr' H]]]; [left; exact H|].
           right. exists r'. split; [right; exact Hr'|exact H].
        -- intros [H|[r' [Hr' Hk]]]; [left; exact H|].
           apply elem_of_cons in Hr' as [->|Hr']; [contradiction|].
           right. exists r'. split; assumption.
Qed.

Lemma groupby_users_payers (pay : list PayRow) (c m : Z) :
  default ∅ (groupby_users pay !! (c, m)) = payers_in pay c m.
Proof.
  apply set_eq. intros u. unfold groupby_users, payers_in.
  rewrite (proj1 (groupby_users_fold pay (c, m) u ∅)), lookup_empty, elem_of_list_to_set.
  simpl. split.
  - intros [H|[r [Hr [Hk Hu]]]]; [exfalso; exact (not_elem_of_empty (C:=gset Z) u H)|].
    injection Hk as Hc Hm.
    apply list_elem_of_In, in_map_iff. exists r. split; [exact Hu|].
    apply list_elem_of_In, list_elem_of_filter. split; [split; assumption|exact Hr].
  - intros Hin. right. apply list_elem_of_In, in_map_iff in Hin as [r [Hu Hr]].
    apply list_elem_of_In, list_elem_of_filter in Hr as [[Hc Hm] Hr].
    exists r. split; [exact Hr|]. split; [congruence|exact Hu].
Qed.

Lemma groupby_users_is_Some (pay : list PayRow) (c m : Z) :
  is_Some (groupby_users pay !! (c, m))
  <-> ∃ r, r ∈ pay ∧ row_cohort r = c ∧ row_month_number r = m.
Proof.
  unfold groupby_users.
  rewrite (proj2 (groupby_users_fold pay (c, m) 0%Z ∅)), lookup_empty. split.
  - intros [[x H]|[r [Hr Hk]]]; [discriminate|]. injection Hk as Hc Hm.
    exists r. repeat split; assumption.
  - intros [r [Hr [Hc Hm]]]. right. exists r. split; [exact Hr|congruence].
Qed.

(** The labels and cells of an unstacked Series. *)
Lemma unstack_spec (s : gmap (Z * Z) Q) (fill_value : Q) :
  (forall c, c ∈ index (unstack s fill_value) <-> ∃ m, is_Some (s !! (c, m)))
  /\ (forall m, m ∈ columns (unstack s fill_value) <-> ∃ c, is_Some (s !! (c, m)))
  /\ (forall c m, c ∈ index (unstack s fill_value) -> m ∈ columns (unstack s fill_value) ->
        cells (unstack s fill_value) !! (c, m) = Some (default fill_value (s !! (c, m)))).
Proof.
  assert (Hkeys : forall k, k ∈ (map_to_list s).*1 <-> is_Some (s !! k)).
  { intros k. rewrite list_elem_of_fmap. split.
    - intros [[k' x] [-> Hin]]. apply elem_of_map_to_list in Hin. exists x. exact Hin.
    - intros [x Hx]. exists (k, x). split; [reflexivity|].
      apply elem_of_map_to_list. exact Hx. }
  unfold unstack. cbn [index columns cells].
  split; [|split].
  - intros c. rewrite CohortFacts.elem_of_sorted, CohortFacts.elem_of_unique, list_elem_of_fmap.
    split.
    + intros [[c' m] [-> Hk]]. exists m. apply Hkeys. exact Hk.
    + intros [m Hm]. exists (c, m). split; [reflexivity|]. apply Hkeys. exact Hm.
  - intros m. rewrite CohortFacts.elem_of_sorted, CohortFacts.elem_of_unique, list_elem_of_fmap.
    split.
    + intros [[c m'] [-> Hk]]. exists c. apply Hkeys. exact Hk.
    + intros [c Hc]. exists (c, m). split; [reflexivity|]. apply Hkeys. exact Hc.
  - intros c m Hc Hm.
    rewrite (tabulate_lookup (fun k => default fill_value (s !! k))).
    rewrite decide_True; [reflexivity|].
    apply CohortFacts.elem_of_prod. split; assumption.
Qed.

(** The table of distinct payers made from the joined payments. *)
Lemma activity_table (pay : list PayRow) :
  let U := unstack ((fun s : gset Z => inject_Z (Z.of_nat (size s))) <$> groupby_users pay) 0 in
  (forall c, c ∈ index U <-> ∃ r, r ∈ pay ∧ row_cohort r = c)
  /\ (forall m, m ∈ columns U <-> ∃ r, r ∈ pay ∧ row_month_number r = m)
  /\ (forall c m, c ∈ index U -> m ∈ columns U ->
        cells U !! (c, m) = Some (inject_Z (Z.of_nat (size (payers_in pay c m))))).
Proof.
  cbv zeta.
  set (s := (fun s : gset Z => inject_Z (Z.of_nat (size s))) <$> groupby_users pay).
  destruct (unstack_spec s 0) as [Hidx [Hcol Hcell]].
  assert (Hs : forall c m, is_Some (s !! (c, m))
                           <-> ∃ r, r ∈ pay ∧ row_cohort r = c ∧ row_month_number r = m).
  { intros c m. unfold s. rewrite lookup_fmap, fmap_is_Some.
    apply groupby_users_is_Some. }
  split; [|split].
  - intros c. rewrite Hidx. split.
    + intros [m Hm]. apply Hs in Hm as [r [Hr [Hc _]]]. exists r. split; assumption.
    + intros [r [Hr Hc]]. exists (row_month_number r). apply Hs. exists r. repeat split; assumption.
  - intros m. rewrite Hcol. split.
    + intros [c Hc]. apply Hs in Hc as [r [Hr [_ Hm]]]. exists r. split; assumption.
    + intros [r [Hr Hm]]. exists (row_cohort r). apply Hs. exists r. repeat split; assumption.
  - intros c m Hc Hm. rewrite (Hcell c m Hc Hm). f_equal.
    unfold s. rewrite lookup_fmap. rewrite <- groupby_users_payers.
    destruct (groupby_users pay !! (c, m)); reflexivity.
Qed.

Lemma build_user_cohorts_table (users_df : list User) (payments_df : list Payment) :
  build_user_cohorts users_df payments_df
  = unstack ((fun s : gset Z => inject_Z (Z.of_nat (size s)))
               <$> groupby_users (cohort_pay users_df payments_df)) 0
  ∨ (build_user_cohorts users_df payments_df = empty_frame
     ∧ cohort_pay users_df payments_df = []).
Proof.
  unfold build_user_cohorts.
  destruct (bool_decide (users_df = []) || bool_decide (payments_df = [])) eqn:Hempty.
  - right. split; [reflexivity|].
    apply orb_true_iff in Hempty as [E|E]; apply bool_decide_eq_true in E; subst.
    + apply CohortFacts.cohort_pay_nil_users.
    + apply CohortFacts.cohort_pay_nil_payments.
  - left. reflexivity.
Qed.

(** X11.  The rows of [build_user_cohorts] are the cohorts, and its columns
    the months of life, of the joined payments; every cell is the number of
    distinct users of the cohort that paid in that month of life, 0 when
    nobody did. *)
Theorem build_user_cohorts_counts (users_df : list User) (payments_df : list Payment) :
  (forall c, c ∈ index (build_user_cohorts users_df payments_df)
             <-> ∃ r, r ∈ cohort_pay users_df payments_df ∧ row_cohort r = c)
  /\ (forall m, m ∈ columns (build_user_cohorts users_df payments_df)
                <-> ∃ r, r ∈ cohort_pay users_df payments_df ∧ row_month_number r = m)
  /\ (forall c m,
        c ∈ index (build_user_cohorts users_df payments_df) ->
        m ∈ columns (build_user_cohorts users_df payments_df) ->
        cells (build_user_cohorts users_df payments_df) !! (c, m)
        = Some (inject_Z (Z.of_nat (size (payers_in (cohort_pay users_df payments_df) c m))))).
Proof.
  destruct (build_user_cohorts_table users_df payments_df) as [E|[E Hpay]]; rewrite E.
  - exact (activity_table (cohort_pay users_df payments_df)).
  - rewrite Hpay. split; [|split].
    + intros c. split; [intros H; inversion H|intros [r [H _]]; inversion H].
    + intros m. split; [intros H; inversion H|intros [r [H _]]; inversion H].
    + intros c m H. inversion H.
Qed.

Lemma month0_payers (pay : list PayRow) (c : Z) :
  default ∅ (groupby_set (filter (fun r => row_month_number r = 0%Z) pay) !! c)
  = payers_in pay c 0.
Proof.
  apply set_eq. intros u. unfold payers_in.
  rewrite CohortTableFacts.groupby_set_elem, elem_of_list_to_set. split.
  - intros [r [Hr [Hc Hu]]]. apply list_elem_of_filter in Hr as [Hm Hr].
    apply list_elem_of_In, in_map_iff. exists r. split; [exact Hu|].
    apply list_elem_of_In, list_elem_of_filter. split; [split; assumption|exact Hr].
  - intros Hin. apply list_elem_of_In, in_map_iff in Hin as [r [Hu Hr]].
    apply list_elem_of_In, list_elem_of_filter in Hr as [[Hc Hm] Hr].
    exists r. split; [|split; assumption]. apply list_elem_of_filter. split; assumption.
Qed.

(** X12.  The retention table agrees with the activity table: for every
    cell [r] of [build_retention_cohorts], the table of
    [build_user_cohorts] has the cells of the same cohort at month 0 and at
    the same month, the first is at least 1, and
    [r * payers(month 0) <= 100 * payers(month)]. *)
Theorem retention_within_activity (users_df : list User) (payments_df : list Payment) :
  exists R : Pivot,
    build_retention_cohorts users_df payments_df = Ok R
    /\ forall c m r, cells R !! (c, m) = Some r ->
         exists u0 um,
           cells (build_user_cohorts users_df payments_df) !! (c, 0%Z) = Some u0
           /\ cells (build_user_cohorts users_df payments_df) !! (c, m) = Some um
           /\ 1 <= u0
           /\ r * u0 <= 100 * um.
Proof.
  rewrite CohortFacts.build_retention_cohorts_grid.
  unfold build_user_cohorts.
  destruct (bool_decide (users_df = []) || bool_decide (payments_df = [])).
  { exists empty_frame. split; [reflexivity|]. intros c m r H.
    simpl in H. rewrite lookup_empty in H. discriminate. }
  destruct (activity_table (cohort_pay users_df payments_df)) as [Uidx [Ucol Ucell]].
  cbv zeta in Uidx, Ucol, Ucell |- *. revert Uidx Ucol Ucell.
  set (pay := cohort_pay users_df payments_df).
  set (pay_m0 := groupby_set (filter (fun r => row_month_number r = 0%Z) pay)).
  intros Uidx Ucol Ucell.
  destruct (CohortTableFacts.grid_table (skip_cohort pay_m0) (retention_pct pay pay_m0)
              (unique (map row_cohort pay))
              (merge_sort Z.le (unique (map row_month_number pay)))
              (CohortFacts.NoDup_unique _)
              (CohortFacts.NoDup_sorted _ (CohortFacts.NoDup_unique _)))
    as [T [HT [Hidx [Hcol Hcell]]]].
  exists T. split; [exact HT|]. intros c m r Hr.
  apply Hcell in Hr as [Hc [Hm ->]].
  pose proof (proj1 (Hidx c) Hc) as [Hk _].
  pose proof (proj1 (Hcol m) Hm) as [Hmm _].
  pose proof (proj1 (CohortFacts.kept_cohort pay c) Hk) as [row [Hrow [Hrc Hrm]]].
  pose proof (proj2 (Uidx c) (ex_intro _ row (conj Hrow Hrc))) as HcU.
  pose proof (proj2 (Ucol 0%Z) (ex_intro _ row (conj Hrow Hrm))) as H0U.
  assert (HmU : ∃ r', r' ∈ pay ∧ row_month_number r' = m).
  { rewrite CohortFacts.elem_of_sorted, CohortFacts.elem_of_unique in Hmm.
    apply list_elem_of_In, in_map_iff in Hmm as [r' [E Hr']].
    exists r'. split; [apply list_elem_of_In; exact Hr'|exact E]. }
  apply Ucol in HmU.
  eexists. eexists. split; [apply Ucell; assumption|]. split; [apply Ucell; assumption|].
  assert (Hne : payers_in pay c 0 <> ∅).
  { intros E. assert (Hin : row_user_id row ∈ payers_in pay c 0).
    { unfold payers_in. apply elem_of_list_to_set, list_elem_of_In, in_map.
      apply list_elem_of_In, list_elem_of_filter. split; [split; assumption|exact Hrow]. }
    rewrite E in Hin. exact (not_elem_of_empty (C:=gset Z) _ Hin). }
  assert (Hsz : (1 <= size (payers_in pay c 0))%nat).
  { destruct (size (payers_in pay c 0)) eqn:Es; [|lia].
    exfalso. apply Hne. apply leibniz_equiv, size_empty_iff. exact Es. }
  split.
  - change 1 with (inject_Z (Z.of_nat 1)). rewrite <- Zle_Qle. lia.
  - unfold retention_pct, came_back. unfold pay_m0. rewrite month0_payers.
    fold (payers_in pay c m).
    destruct (size (payers_in pay c 0) =? 0)%nat eqn:E0; [apply Nat.eqb_eq in E0; lia|].
    cbn [negb].
    assert (Hle : (size (payers_in pay c 0 ∩ payers_in pay c m) <= size (payers_in pay c m))%nat)
      by (apply subseteq_size, intersection_subseteq_r).
    pose proof (inject_nat_pos _ Hsz) as Hq.
    assert (Hq2 : inject_Z (Z.of_nat (size (payers_in pay c 0 ∩ payers_in pay c m)))
                  <= inject_Z (Z.of_nat (size (payers_in pay c m))))
      by (rewrite <- Zle_Qle; lia).
    set (a := inject_Z (Z.of_nat (size (payers_in pay c 0 ∩ payers_in pay c m)))) in *.
    set (b := inject_Z (Z.of_nat (size (payers_in pay c 0)))) in *.
    set (d := inject_Z (Z.of_nat (size (payers_in pay c m)))) in *.
    assert (E : a / b * 100 * b == a * 100) by (field; lra).
    rewrite E. lra.
Qed.

End ActivityFacts.

(** ** Product metrics *)

Module MetricsFacts.
Import Metrics.
Local Open Scope Q_scope.

Lemma nunique_pos (l : list Z) : l <> [] -> (0 < nunique l)%nat.
Proof. destruct l; [contradiction|]. unfold nunique. simpl. lia. Qed.

Lemma nunique_le (l k : list Z) : (forall x, x ∈ l -> x ∈ k) -> (nunique l <= length k)%nat.
Proof.
  intros H. unfold nunique. apply submseteq_length, NoDup_submseteq.
  - apply CohortFacts.NoDup_unique.
  - intros x Hx. apply H, CohortFacts.elem_of_unique. exact Hx.
Qed.

(** X13.  [calc_conversion_rate] is a percentage: it lies between 0 and
    100 for every user table (0 for the empty one), and times the number
    of users it is 100 times the number of converted users. *)
Theorem calc_conversion_rate_percent (users_df : list User) :
  0 <= calc_conversion_rate users_df <= 100
  /\ calc_conversion_rate users_df * inject_Z (Z.of_nat (length users_df))
     == 100 * inject_Z (count_true (map converted users_df)).
Proof.
  unfold calc_conversion_rate. case_bool_decide as He.
  - subst. split; [lra|]. reflexivity.
  - unfold mean_bool.
    assert (Hn : (0 < length (map converted users_df))%nat).
    { rewrite length_map. destruct users_df; [contradiction|simpl; lia]. }
    split.
    + unfold count_true. apply percent_bounds; [apply length_filter|exact Hn].
    + rewrite length_map in *.
      assert (Hb : ~ inject_Z (Z.of_nat (length users_df)) == 0).
      { pose proof (inject_nat_pos _ Hn). lra. }
      field. exact Hb.
Qed.

(** X14.  For every pair of tables, ARPU is ARPPU times the paying share:
    [calc_arpu = calc_arppu * calc_paying_share / 100]; and ARPPU times
    [calc_payers_count] is the total revenue. *)
Theorem arpu_is_arppu_times_paying_share (users_df : list User) (payments_df : list Payment) :
  calc_arpu users_df payments_df
  == calc_arppu users_df payments_df * calc_paying_share users_df payments_df / 100
  /\ calc_arppu users_df payments_df * inject_Z (calc_payers_count payments_df)
     == Qsum (map amount payments_df).
Proof.
  unfold calc_arpu, calc_arppu, calc_paying_share, calc_payers_count.
  destruct (bool_decide (payments_df = [])) eqn:Hp.
  - apply bool_decide_eq_true in Hp. subst. cbn [negb map Qsum].
    split; [|reflexivity].
    case_bool_decide; [reflexivity|]. field.
    pose proof (inject_nat_pos _ (length_pos _ H)). lra.
  - apply bool_decide_eq_false in Hp. cbn [negb].
    pose proof (nunique_pos (map pay_user_id payments_df)) as Hn.
    assert (Hm : map pay_user_id payments_df <> []) by (destruct payments_df; [contradiction|discriminate]).
    specialize (Hn Hm).
    destruct (nunique (map pay_user_id payments_df) =? 0)%nat eqn:E;
      [apply Nat.eqb_eq in E; lia|].
    pose proof (inject_nat_pos _ Hn) as Hq.
    split.
    + case_bool_decide as Hu; [field; lra|].
      pose proof (inject_nat_pos _ (length_pos _ Hu)). field. split; lra.
    + field. lra.
Qed.

(** X15.  When every payment belongs to a user of the user table,
    [calc_paying_share] lies between 0 and 100. *)
Theorem calc_paying_share_percent (users_df : list User) (payments_df : list Payment) :
  Forall (fun p => pay_user_id p ∈ map user_id users_df) payments_df ->
  0 <= calc_paying_share users_df payments_df <= 100.
Proof.
  intros Hfk. unfold calc_paying_share.
  case_bool_decide as Hu; [lra|].
  apply percent_bounds; [|apply length_pos; exact Hu].
  destruct (bool_decide (payments_df = [])); cbn [negb]; [lia|].
  rewrite <- (length_map user_id users_df). apply nunique_le.
  intros x Hx. apply list_elem_of_fmap in Hx as [p [-> Hp]].
  rewrite Forall_forall in Hfk. apply Hfk. exact Hp.
Qed.

Lemma calc_paying_share_percent_witness :
  0 <= calc_paying_share example_users example_payments <= 100.
Proof.
  apply calc_paying_share_percent.
  repeat constructor.
Defined.

(** *** LTV over a horizon *)

Lemma Qsum_filter_mono {A} (f : A -> Q) (P P' : A -> Prop)
    `{!forall x, Decision (P x)} `{!forall x, Decision (P' x)} (l : list A) :
  (forall x, P x -> P' x) ->
  Forall (fun x => 0 <= f x) l ->
  0 <= Qsum (map f (filter P l)) <= Qsum (map f (filter P' l)).
Proof.
  intros Himp. induction 1 as [|x l Hx _ IH]; [simpl; lra|].
  rewrite !filter_cons.
  destruct (decide (P x)) as [HP|HP].
  - rewrite decide_True by (apply Himp; exact HP). simpl. lra.
  - destruct (decide (P' x)); simpl; lra.
Qed.

Lemma ltv_pay_amounts (users_df : list User) (payments_df : list Payment) :
  Forall (fun p => 0 <= amount p) payments_df ->
  Forall (fun r : Q * Z => 0 <= r.1) (ltv_pay users_df payments_df).
Proof.
  intros H. unfold ltv_pay. apply Forall_forall. intros r Hr.
  apply list_elem_of_In, in_flat_map in Hr as [p [Hp Hr]].
  apply in_map_iff in Hr as [[uid reg] [<- _]]. simpl.
  rewrite Forall_forall in H. apply H, list_elem_of_In. exact Hp.
Qed.

(** The users that share an id with a payment: at most one when ids are
    unique, exactly one when the payment's user is registered. *)
Lemma matching_users (users_df : list User) (uid0 : Z) :
  NoDup (map user_id users_df) ->
  (length (filter (fun '(uid, _) => uid = uid0)
            (map (fun u => (user_id u, to_period_M (registered_at u))) users_df)) <= 1)%nat
  /\ (uid0 ∈ map user_id users_df ->
      length (filter (fun '(uid, _) => uid = uid0)
                (map (fun u => (user_id u, to_period_M (registered_at u))) users_df)) = 1%nat).
Proof.
  induction users_df as [|u us IH]; intros Hnd.
  - split; [simpl; lia|]. intros H. inversion H.
  - simpl map in *. apply NoDup_cons in Hnd as [Hnotin Hnd].
    destruct (IH Hnd) as [IH1 IH2].
    rewrite filter_cons. destruct (decide (user_id u = uid0)) as [E|E].
    + subst uid0.
      assert (Hnone : filter (fun '(uid, _) => uid = user_id u)
                (map (fun u => (user_id u, to_period_M (registered_at u))) us) = []).
      { apply PaymentsFacts.filter_none. apply Forall_forall. intros [uid reg] Hin E.
        apply list_elem_of_In, in_map_iff in Hin as [v [Hv Hin]].
        injection Hv as Hv _. subst uid. apply Hnotin.
        rewrite <- E. apply list_elem_of_In, in_map, Hin. }
      rewrite Hnone. simpl. split; [lia|reflexivity].
    + split; [exact IH1|]. intros Hin. apply IH2.
      apply elem_of_cons in Hin as [Hin|Hin]; [congruence|exact Hin].
Qed.

Lemma ltv_pay_total (users_df : list User) (payments_df : list Payment) :
  NoDup (map user_id users_df) ->
  Forall (fun p => 0 <= amount p) payments_df ->
  Qsum (ltv_pay users_df payments_df).*1 <= Qsum (map amount payments_df)
  /\ (Forall (fun p => pay_user_id p ∈ map user_id users_df) payments_df ->
      Qsum (ltv_pay users_df payments_df).*1 == Qsum (map amount payments_df)).
Proof.
  intros Hnd. unfold ltv_pay.
  induction 1 as [|p ps Hp _ IH]; [simpl; split; [lra|intros _; reflexivity]|].
  cbn [flat_map map]. rewrite fmap_app, Qsum_app.
  destruct (matching_users users_df (pay_user_id p) Hnd) as [H1 H2].
  destruct IH as [IH1 IH2].
  destruct (filter _ _) as [|[uid reg] [|x l]] eqn:E.
  - simpl. split; [simpl in IH1; lra|].
    intros Hfk. apply Forall_cons in Hfk as [Hin _]. specialize (H2 Hin). simpl in H2. lia.
  - cbn [map fmap list_fmap fst Qsum]. split; [simpl in *; lra|].
    intros Hfk. apply Forall_cons in Hfk as [_ Hfk]. rewrite (IH2 Hfk). simpl. ring.
  - simpl in H1. lia.
Qed.

(** X16.  With amounts that are not negative, the LTV is not negative and
    does not decrease when the horizon grows: for [n <= n'],
    [0 <= calc_ltv_n_months n <= calc_ltv_n_months n']. *)
Theorem calc_ltv_n_months_monotone (users_df : list User) (payments_df : list Payment)
    (n n' : Z) :
  Forall (fun p => 0 <= amount p) payments_df ->
  (n <= n')%Z ->
  0 <= calc_ltv_n_months users_df payments_df n
    <= calc_ltv_n_months users_df payments_df n'.
Proof.
  intros Hpos Hn. unfold calc_ltv_n_months.
  destruct (bool_decide (users_df = []) || bool_decide (payments_df = [])) eqn:He; [lra|].
  apply orb_false_iff in He as [Hu _]. apply bool_decide_eq_false in Hu.
  pose proof (inject_nat_pos _ (length_pos _ Hu)) as Hlen.
  assert (Himp : forall r : Q * Z, (r.2 < n)%Z -> (r.2 < n')%Z) by (intros; lia).
  pose proof (Qsum_filter_mono fst (fun r : Q * Z => (r.2 < n)%Z) (fun r : Q * Z => (r.2 < n')%Z)
                (ltv_pay users_df payments_df) Himp
                (ltv_pay_amounts _ _ Hpos)) as [H0 H1].
  split.
  - apply Qle_shift_div_l; [exact Hlen|].
    apply Qle_trans with 0; [lra|exact H0].
  - apply Qdiv_le_mono; [exact Hlen|exact H1].
Qed.

Lemma calc_ltv_n_months_monotone_witness :
  0 <= calc_ltv_n_months example_users example_payments 1
    <= calc_ltv_n_months example_users example_payments 3.
Proof.
  apply calc_ltv_n_months_monotone.
  - repeat constructor; unfold Qle; simpl; lia.
  - lia.
Defined.

(** X17.  With unique user ids and amounts that are not negative, the LTV
    over any horizon is at most the ARPU; the two are equal when, besides,
    every payment belongs to a user and is made fewer than [n] calendar
    months after the month of registration. *)
Theorem calc_ltv_n_months_below_arpu (users_df : list User) (payments_df : list Payment)
    (n : Z) :
  NoDup (map user_id users_df) ->
  Forall (fun p => 0 <= amount p) payments_df ->
  calc_ltv_n_months users_df payments_df n <= calc_arpu users_df payments_df
  /\ (Forall (fun p => pay_user_id p ∈ map user_id users_df) payments_df ->
      Forall (fun r : Q * Z => (r.2 < n)%Z) (ltv_pay users_df payments_df) ->
      calc_ltv_n_months users_df payments_df n == calc_arpu users_df payments_df).
Proof.
  intros Hnd Hpos. unfold calc_ltv_n_months, calc_arpu.
  destruct (bool_decide (users_df = [])) eqn:Hu;
    [cbn [orb]; split; [lra|intros; reflexivity]|].
  apply bool_decide_eq_false in Hu.
  pose proof (inject_nat_pos _ (length_pos _ Hu)) as Hlen.
  destruct (bool_decide (payments_df = [])) eqn:Hp; cbn [orb negb].
  { split; [|intros _ _; field; lra].
    apply Qle_shift_div_l; [exact Hlen|]. lra. }
  destruct (ltv_pay_total users_df payments_df Hnd Hpos) as [Htot Heq].
  assert (Himp : forall r : Q * Z, (r.2 < n)%Z -> True) by (intros; exact I).
  pose proof (Qsum_filter_mono fst (fun r : Q * Z => (r.2 < n)%Z) (fun _ => True)
                (ltv_pay users_df payments_df) Himp
                (ltv_pay_amounts _ _ Hpos)) as [_ H1].
  rewrite (PaymentsFacts.filter_all (fun _ => True)) in H1 by (apply Forall_forall; intros; exact I).
  split.
  - apply Qdiv_le_mono; [exact Hlen|].
    apply Qle_trans with (Qsum (ltv_pay users_df payments_df).*1); [exact H1|exact Htot].
  - intros Hfk Hall. rewrite (PaymentsFacts.filter_all _ _ Hall), (Heq Hfk). reflexivity.
Qed.

Lemma calc_ltv_n_months_below_arpu_witness :
  calc_ltv_n_months example_users example_payments 3 <= calc_arpu example_users example_payments
  /\ calc_ltv_n_months example_users example_payments 3
     == calc_arpu example_users example_payments.
Proof.
  assert (Hnd : NoDup (map user_id example_users))
    by (apply (bool_decide_unpack _); vm_compute; exact I).
  assert (Hpos : Forall (fun p => 0 <= amount p) example_payments)
    by (repeat constructor; unfold Qle; simpl; lia).
  destruct (calc_ltv_n_months_below_arpu example_users example_payments 3 Hnd Hpos)
    as [Hle Heq].
  split; [exact Hle|]. apply Heq.
  - repeat constructor.
  - repeat constructor.
Defined.

(** *** Repeat payments *)

Lemma fold_left_min_lt (l : list Z) (t : Z) : forall x,
  (fold_left Z.min l x < t)%Z <-> (x < t)%Z ∨ ∃ y, y ∈ l ∧ (y < t)%Z.
Proof.
  induction l as [|z l IH]; intros x; simpl.
  - split; [intros H; left; exact H|]. intros [H|[y [Hy _]]]; [exact H|inversion Hy].
  - rewrite IH. split.
    + intros [H|[y [Hy Hlt]]].
      * destruct (Z.min_spec x z) as [[_ E]|[_ E]]; rewrite E in H.
        -- left. exact H.
        -- right. exists z. split; [left|exact H].
      * right. exists y. split; [right; exact Hy|exact Hlt].
    + intros [H|[y [Hy Hlt]]].
      * left. lia.
      * apply elem_of_cons in Hy as [->|Hy].
        -- left. lia.
        -- right. exists y. split; assumption.
Qed.

Lemma column_min_lt (ts : list Z) (t : Z) :
  ts <> [] -> (column_min ts < t)%Z <-> ∃ y, y ∈ ts ∧ (y < t)%Z.
Proof.
  destruct ts as [|x l]; [contradiction|]. intros _. simpl.
  rewrite fold_left_min_lt. split.
  - intros [H|[y [Hy H]]].
    + exists x. split; [left|exact H].
    + exists y. split; [right; exact Hy|exact H].
  - intros [y [Hy H]]. apply elem_of_cons in Hy as [->|Hy]; [left; exact H|].
    right. exists y. split; assumption.
Qed.

(** Selecting rows by a boolean mask computed row by row is filtering. *)
Lemma mask_filter (g : Payment -> Z) (l : list Payment) :
  (filter (fun '(p, b) => b = true)
     (zip l (map (fun '(p, f) => bool_decide (f < paid_at p)%Z) (zip l (map g l))))).*1
  = filter (fun p => (g p < paid_at p)%Z) l.
Proof.
  induction l as [|p l IH]; [reflexivity|].
  cbn [map zip zip_with]. rewrite !filter_cons.
  destruct (decide (g p < paid_at p)%Z) as [H|H].
  - rewrite bool_decide_eq_true_2 by exact H.
    rewrite decide_True by reflexivity. cbn [fmap list_fmap fst]. f_equal. exact IH.
  - rewrite bool_decide_eq_false_2 by exact H.
    rewrite decide_False by discriminate. exact IH.
Qed.

Lemma first_ts_is_repeat (payments_df : list Payment) (p : Payment) :
  p ∈ payments_df ->
  (column_min (map paid_at (filter (fun q => pay_user_id q = pay_user_id p) payments_df))
   < paid_at p)%Z
  <-> is_repeat payments_df p.
Proof.
  intros Hp. unfold is_repeat. rewrite Exists_exists.
  rewrite column_min_lt.
  - split.
    + intros [y [Hy Hlt]]. apply list_elem_of_fmap in Hy as [q [-> Hq]].
      apply list_elem_of_filter in Hq as [Hu Hq]. exists q. repeat split; assumption.
    + intros [q [Hq [Hu Hlt]]]. exists (paid_at q). split; [|exact Hlt].
      apply list_elem_of_fmap. exists q. split; [reflexivity|].
      apply list_elem_of_filter. split; assumption.
  - intros E. apply fmap_nil_inv in E.
    assert (Hin : p ∈ filter (fun q => pay_user_id q = pay_user_id p) payments_df)
      by (apply list_elem_of_filter; split; [reflexivity|exact Hp]).
    rewrite E in Hin. inversion Hin.
Qed.

Lemma calc_avg_check_repeat_filter (payments_df : list Payment) :
  calc_avg_check_repeat payments_df
  = if bool_decide (map amount (filter (is_repeat payments_df) payments_df) = []) then 0.0
    else series_mean (map amount (filter (is_repeat payments_df) payments_df)).
Proof.
  unfold calc_avg_check_repeat, groupby_transform_min.
  case_bool_decide as He; [subst; reflexivity|].
  cbv zeta. rewrite mask_filter.
  rewrite (filter_ext_in _ (is_repeat payments_df)); [reflexivity|].
  intros p Hp. apply first_ts_is_repeat. exact Hp.
Qed.

(** X18.  [calc_avg_check_repeat] averages the amounts of the payments
    that have a strictly earlier payment of the same user: it is 0.0 when
    there is none, and otherwise times their number it is their sum.  The
    earliest payment of a user, and any payment made at that same time, is
    left out. *)
Theorem calc_avg_check_repeat_spec (payments_df : list Payment) :
  let repeat_payments := map amount (filter (is_repeat payments_df) payments_df) in
  (repeat_payments = [] -> calc_avg_check_repeat payments_df = 0.0)
  /\ (repeat_payments <> [] ->
      calc_avg_check_repeat payments_df * inject_Z (Z.of_nat (length repeat_payments))
      == Qsum repeat_payments).
Proof.
  cbv zeta. rewrite calc_avg_check_repeat_filter. split.
  - intros E. rewrite bool_decide_eq_true_2 by exact E. reflexivity.
  - intros E. rewrite bool_decide_eq_false_2 by exact E. unfold series_mean.
    pose proof (inject_nat_pos _ (length_pos _ E)). field. lra.
Qed.

(** X19.  When every amount lies in [lo, hi]: a table in which every user
    has a single payment gives 0.0, and a table with a repeat payment gives
    an average within [lo, hi]. *)
Theorem calc_avg_check_repeat_range (payments_df : list Payment) (lo hi : Q) :
  Forall (fun p => lo <= amount p <= hi) payments_df ->
  (NoDup (map pay_user_id payments_df) -> calc_avg_check_repeat payments_df = 0.0)
  /\ (Exists (is_repeat payments_df) payments_df ->
      lo <= calc_avg_check_repeat payments_df <= hi).
Proof.
  intros Hall. rewrite calc_avg_check_repeat_filter. split.
  - intros Hnd.
    assert (E : filter (is_repeat payments_df) payments_df = []).
    { apply PaymentsFacts.filter_none. apply Forall_forall. intros p Hp Hrep.
      unfold is_repeat in Hrep. apply Exists_exists in Hrep as [q [Hq [Hu Hlt]]].
      assert (q = p); [|subst; lia].
      apply list_elem_of_lookup in Hp as [i Hi]. apply list_elem_of_lookup in Hq as [j Hj].
      assert (i = j); [|congruence].
      change (map pay_user_id payments_df) with (pay_user_id <$> payments_df) in Hnd.
      apply (NoDup_lookup _ i j (pay_user_id p) Hnd).
      - rewrite list_lookup_fmap, Hi. reflexivity.
      - rewrite list_lookup_fmap, Hj. simpl. congruence. }
    rewrite E. reflexivity.
  - intros Hex. apply Exists_exists in Hex as [p [Hp Hrep]].
    assert (Hin : amount p ∈ map amount (filter (is_repeat payments_df) payments_df)).
    { apply list_elem_of_fmap. exists p. split; [reflexivity|].
      apply list_elem_of_filter. split; assumption. }
    rewrite bool_decide_eq_false_2 by (intros E; rewrite E in Hin; inversion Hin).
    apply series_mean_bounds; [intros E; rewrite E in Hin; inversion Hin|].
    apply Forall_forall. intros x Hx. apply list_elem_of_fmap in Hx as [q [-> Hq]].
    apply list_elem_of_filter in Hq as [_ Hq]. rewrite Forall_forall in Hall. apply Hall, Hq.
Qed.

Lemma calc_avg_check_repeat_range_witness :
  299 <= calc_avg_check_repeat example_payments <= 500.
Proof.
  assert (Hall : Forall (fun p => 299 <= amount p <= 500) example_payments)
    by (repeat constructor; unfold Qle; simpl; lia).
  destruct (calc_avg_check_repeat_range example_payments 299 500 Hall) as [_ Hrep].
  apply Hrep. apply (bool_decide_unpack _). vm_compute. exact I.
Defined.

End MetricsFacts.

(** ** Churn rates *)

Module MonthlyChurnFacts.
Import Metrics.
Local Open Scope Q_scope.



(** *** Churn by calendar month *)












End MonthlyChurnFacts.

(** ** ROI by cohort *)

Module UnitEconomicsFacts.
Import Metrics.
Local Open Scope Q_scope.

Lemma py_round1_mono (x y : Q) : x <= y -> py_round1 x <= py_round1 y.
Proof.
  intros H. unfold py_round1.
  assert (Hz : (round_half_even (x * 10) <= round_half_even (y * 10))%Z)
    by (apply round_half_even_mono; lra).
  rewrite Zle_Qle in Hz. unfold Qdiv. apply Qmult_le_compat_r; [exact Hz|].
  discriminate.
Qed.

Lemma last_sorted_max (l : list Z) (x : Z) :
  last (merge_sort Z.le l) = Some x -> x ∈ l ∧ forall y, y ∈ l -> (y <= x)%Z.
Proof.
  intros Hl.
  assert (Hs : StronglySorted Z.le (merge_sort Z.le l))
    by (apply StronglySorted_merge_sort; apply _).
  assert (H : x ∈ merge_sort Z.le l ∧ forall y, y ∈ merge_sort Z.le l -> (y <= x)%Z).
  { revert Hl Hs. generalize (merge_sort Z.le l). intros s Hl Hs.
    apply last_Some in Hl as [s' ->]. split; [apply elem_of_app; right; left|].
    intros y Hy. apply elem_of_app in Hy as [Hy|Hy].
    - apply (StronglySorted_app_1_elem_of _ _ _ _ _ Hs Hy). left.
    - apply list_elem_of_singleton in Hy as ->. lia. }
  destruct H as [H1 H2]. split; [apply CohortFacts.elem_of_sorted; exact H1|].
  intros y Hy. apply H2, CohortFacts.elem_of_sorted. exact Hy.
Qed.

(** The column [calc_roi_by_cohorts] reads: the target one when the table
    has it, the last one otherwise. *)
Lemma chosen_column (cols : list Z) (target_col : Z) :
  cols <> [] ->
  let col := if bool_decide (target_col ∈ cols) then target_col
             else default 0%Z (last (merge_sort Z.le cols)) in
  col ∈ cols
  /\ (col = target_col ∨ ((target_col ∉ cols) ∧ forall m, m ∈ cols -> (m <= col)%Z)).
Proof.
  intros Hne. cbv zeta. case_bool_decide as Ht; [split; [exact Ht|left; reflexivity]|].
  destruct (last (merge_sort Z.le cols)) as [x|] eqn:El.
  - destruct (last_sorted_max _ _ El) as [H1 H2]. simpl.
    split; [exact H1|]. right. split; assumption.
  - exfalso. apply last_None in El.
    assert (Hperm := merge_sort_Permutation Z.le cols).
    rewrite El in Hperm. apply Permutation_nil_l in Hperm. congruence.
Qed.

Lemma calc_roi_by_cohorts_rows (cohort_ltv : Pivot) (cac : Q) (last_n_months : Z) :
  frame_empty cohort_ltv = false -> 0 < cac ->
  calc_roi_by_cohorts cohort_ltv cac last_n_months
  = let col := if bool_decide ((last_n_months - 1)%Z ∈ columns cohort_ltv)
               then (last_n_months - 1)%Z
               else default 0%Z (last (merge_sort Z.le (columns cohort_ltv))) in
    map (fun c =>
           (c, (fun ltv => py_round1 ((ltv - cac) / cac * 100)) <$> cells cohort_ltv !! (c, col)))
        (index cohort_ltv).
Proof.
  intros Hempty Hcac. unfold calc_roi_by_cohorts. rewrite Hempty. cbn [orb].
  assert (Hq : Qleb cac 0 = false).
  { destruct (Qleb cac 0) eqn:E; [|reflexivity]. apply Qleb_le in E. lra. }
  rewrite Hq. cbn [orb].
  unfold frame_empty in Hempty. apply orb_false_iff in Hempty as [_ Hcols].
  apply bool_decide_eq_false in Hcols.
  destruct (columns cohort_ltv) as [|m ms] eqn:E; [contradiction|]. reflexivity.
Qed.

(** X25.  Every numeric entry of [calc_roi_by_cohorts] belongs to a row of
    the LTV table and is [round((ltv - cac) / cac * 100, 1)] for a positive
    [cac] and the LTV of that row in the column [last_n_months - 1], or in
    the largest column when the table has no such column.  The entry is not
    negative when the LTV covers the CAC, not positive when it does not
    exceed it, and at least -100 when the LTV is not negative. *)
Theorem calc_roi_by_cohorts_entries (cohort_ltv : Pivot) (cac : Q) (last_n_months : Z)
    (c : Z) (roi : Q) :
  (c, Some roi) ∈ calc_roi_by_cohorts cohort_ltv cac last_n_months ->
  exists col ltv,
    col ∈ columns cohort_ltv
    /\ (col = (last_n_months - 1)%Z
        ∨ (((last_n_months - 1)%Z ∉ columns cohort_ltv)
           ∧ forall m, m ∈ columns cohort_ltv -> (m <= col)%Z))
    /\ c ∈ index cohort_ltv
    /\ cells cohort_ltv !! (c, col) = Some ltv
    /\ 0 < cac
    /\ roi = py_round1 ((ltv - cac) / cac * 100)
    /\ (cac <= ltv -> 0 <= roi)
    /\ (ltv <= cac -> roi <= 0)
    /\ (0 <= ltv -> -100 <= roi).
Proof.
  intros Hin.
  assert (Hempty : frame_empty cohort_ltv = false).
  { destruct (frame_empty cohort_ltv) eqn:E; [|reflexivity].
    unfold calc_roi_by_cohorts in Hin. rewrite E in Hin. inversion Hin. }
  assert (Hpos : 0 < cac).
  { apply Qnot_le_lt. intros Hle. apply Qleb_le in Hle.
    unfold calc_roi_by_cohorts in Hin. rewrite Hle, orb_true_r in Hin. inversion Hin. }
  rewrite (calc_roi_by_cohorts_rows _ _ _ Hempty Hpos) in Hin. cbv zeta in Hin.
  assert (Hne : columns cohort_ltv <> []).
  { unfold frame_empty in Hempty. apply orb_false_iff in Hempty as [_ H].
    apply bool_decide_eq_false in H. exact H. }
  destruct (chosen_column (columns cohort_ltv) (last_n_months - 1) Hne) as [Hcol1 Hcol2].
  cbv zeta in Hcol1, Hcol2.
  set (col := if bool_decide ((last_n_months - 1)%Z ∈ columns cohort_ltv)
              then (last_n_months - 1)%Z
              else default 0%Z (last (merge_sort Z.le (columns cohort_ltv)))) in *.
  apply list_elem_of_In, in_map_iff in Hin as [c' [Heq Hc]].
  injection Heq as -> Hcell.
  destruct (cells cohort_ltv !! (c, col)) as [ltv|] eqn:Hltv; [|discriminate].
  simpl in Hcell. injection Hcell as Hroi.
  exists col, ltv.
  split; [exact Hcol1|]. split; [exact Hcol2|].
  split; [apply list_elem_of_In; exact Hc|]. split; [exact Hltv|].
  split; [exact Hpos|]. split; [symmetry; exact Hroi|].
  assert (R0 : py_round1 0 == 0) by reflexivity.
  assert (R100 : py_round1 (-100) == -100) by reflexivity.
  subst roi. split; [|split].
  - intros Hle. rewrite <- R0. apply py_round1_mono.
    assert (0 <= (ltv - cac) / cac) by (apply Qle_shift_div_l; [exact Hpos|lra]). lra.
  - intros Hle. rewrite <- R0. apply py_round1_mono.
    assert ((ltv - cac) / cac <= 0) by (apply Qle_shift_div_r; [exact Hpos|lra]). lra.
  - intros Hle. rewrite <- R100. apply py_round1_mono.
    assert (-1 <= (ltv - cac) / cac) by (apply Qle_shift_div_l; [exact Hpos|lra]). lra.
Qed.

Lemma calc_roi_by_cohorts_entries_witness :
  exists col ltv,
    col ∈ columns example_ltv
    /\ (col = (6 - 1)%Z
        ∨ (((6 - 1)%Z ∉ columns example_ltv)
           ∧ forall m, m ∈ columns example_ltv -> (m <= col)%Z))
    /\ 660%Z ∈ index example_ltv
    /\ cells example_ltv !! (660%Z, col) = Some ltv
    /\ 0 < 500
    /\ 50.0 = py_round1 ((ltv - 500) / 500 * 100)
    /\ (500 <= ltv -> 0 <= 50.0)
    /\ (ltv <= 500 -> 50.0 <= 0)
    /\ (0 <= ltv -> -100 <= 50.0).
Proof.
  apply (calc_roi_by_cohorts_entries example_ltv 500 6 660 50.0).
  vm_compute. left.
Defined.

(** The payback period is defined exactly for a positive monthly ARPU, and
    that many months of it repay the acquisition cost. *)
Lemma calc_payback_months_repays (cac arpu_monthly : Q) :
  match Metrics.calc_payback_months cac arpu_monthly with
  | Some m => 0 < arpu_monthly /\ m * arpu_monthly == cac
  | None => arpu_monthly <= 0
  end.
Proof.
  unfold Metrics.calc_payback_months.
  destruct (Qleb arpu_monthly 0) eqn:E.
  - apply Qleb_le. exact E.
  - assert (Hpos : 0 < arpu_monthly).
    { apply Qnot_le_lt. intros Hle. apply Qleb_le in Hle. congruence. }
    split; [exact Hpos|]. field. lra.
Qed.

End UnitEconomicsFacts.

(** ** Revenue and LTV by cohort *)

Module RevenueFacts.
Import Generators Metrics.
Local Open Scope Q_scope.

(** Where the rows of the join come from. *)
Lemma cohort_pay_elem (users_df : list User) (payments_df : list Payment) (r : PayRow) :
  r ∈ cohort_pay users_df payments_df ->
  ∃ p u, p ∈ payments_df ∧ u ∈ users_df ∧ user_id u = pay_user_id p
         ∧ row_user_id r = pay_user_id p
         ∧ row_amount r = amount p
         ∧ row_cohort r = to_period_M (registered_at u).
Proof.
  unfold cohort_pay. intros Hr.
  apply list_elem_of_In, in_flat_map in Hr as [p [Hp Hr]].
  apply in_map_iff in Hr as [[[uid cohort] reg] [<- Hin]].
  apply list_elem_of_In, list_elem_of_filter in Hin as [Huid Hin].
  apply list_elem_of_In, in_map_iff in Hin as [u [Hu Hin]].
  injection Hu as <- <- <-.
  exists p, u. repeat split; try reflexivity.
  - apply list_elem_of_In. exact Hp.
  - apply list_elem_of_In. exact Hin.
  - exact Huid.
Qed.

Lemma pivot_table_sum_spec (pay : list PayRow) :
  (forall c, c ∈ index (pivot_table_sum pay 0) <-> ∃ r, r ∈ pay ∧ row_cohort r = c)
  /\ (forall m, m ∈ columns (pivot_table_sum pay 0) <-> ∃ r, r ∈ pay ∧ row_month_number r = m)
  /\ StronglySorted Z.lt (columns (pivot_table_sum pay 0))
  /\ (forall c m,
        cells (pivot_table_sum pay 0) !! (c, m)
        = if decide ((c, m) ∈ list_prod (index (pivot_table_sum pay 0))
                                        (columns (pivot_table_sum pay 0)))
          then Some (Qsum (map row_amount
                 (filter (fun r => row_cohort r = c ∧ row_month_number r = m) pay)))
          else None).
Proof.
  unfold pivot_table_sum. cbn [index columns cells].
  split; [|split; [|split]].
  - intros c. rewrite CohortFacts.elem_of_sorted, CohortFacts.elem_of_unique.
    change (map row_cohort pay) with (row_cohort <$> pay). rewrite list_elem_of_fmap.
    split; intros [r [H1 H2]]; exists r; split; auto.
  - intros m. rewrite CohortFacts.elem_of_sorted, CohortFacts.elem_of_unique.
    change (map row_month_number pay) with (row_month_number <$> pay).
    rewrite list_elem_of_fmap.
    split; intros [r [H1 H2]]; exists r; split; auto.
  - apply StronglySorted_lt.
    + apply CohortFacts.NoDup_sorted, CohortFacts.NoDup_unique.
    + apply StronglySorted_merge_sort; apply _.
  - intros c m.
    rewrite (tabulate_lookup
               (fun k : Z * Z =>
                  match filter (fun r => row_cohort r = k.1 ∧ row_month_number r = k.2) pay with
                  | [] => 0
                  | grp => Qsum (map row_amount grp)
                  end)).
    destruct (decide _); [|reflexivity]. cbn [fst snd].
    destruct (filter (fun r => row_cohort r = c ∧ row_month_number r = m) pay); reflexivity.
Qed.

(** The running sums of one row. *)
Lemma row_cumsum_keys (cs : gmap (Z * Z) Q) (c : Z) (ms : list Z) : forall acc k x,
  (k, x) ∈ row_cumsum cs c ms acc -> k.1 = c ∧ k.2 ∈ ms.
Proof.
  induction ms as [|m ms IH]; intros acc k x Hin; [inversion Hin|].
  cbn [row_cumsum] in Hin. destruct (cs !! (c, m)) as [v|].
  - apply elem_of_cons in Hin as [Hin|Hin].
    + injection Hin as -> _. split; [reflexivity|left].
    + destruct (IH _ _ _ Hin) as [H1 H2]. split; [exact H1|right; exact H2].
  - destruct (IH _ _ _ Hin) as [H1 H2]. split; [exact H1|right; exact H2].
Qed.

Lemma row_cumsum_lookup (cs : gmap (Z * Z) Q) (c : Z) (ms : list Z) (m : Z) :
  StronglySorted Z.lt ms ->
  (forall m', m' ∈ ms -> is_Some (cs !! (c, m'))) ->
  m ∈ ms ->
  forall acc, exists x,
    (list_to_map (row_cumsum cs c ms acc) : gmap (Z * Z) Q) !! (c, m) = Some x
    /\ x == acc + Qsum (map (fun m' => default 0 (cs !! (c, m')))
                          (filter (fun m' => (m' <= m)%Z) ms)).
Proof.
  induction 1 as [|m1 ms Hs IH Hall]; intros Hcells Hm acc; [inversion Hm|].
  destruct (Hcells m1 ltac:(left)) as [v Hv].
  cbn [row_cumsum]. rewrite Hv. rewrite list_to_map_cons. cbn [fst snd].
  rewrite filter_cons.
  destruct (decide (m = m1)) as [->|Hne].
  - rewrite lookup_insert_eq. eexists. split; [reflexivity|].
    rewrite decide_True by lia.
    rewrite (PaymentsFacts.filter_none (fun m' => (m' <= m1)%Z) ms).
    + cbn [map Qsum fold_right]. rewrite Hv. simpl. ring.
    + eapply Forall_impl; [exact Hall|]. intros y Hy. simpl in Hy. lia.
  - rewrite lookup_insert_ne by congruence.
    apply elem_of_cons in Hm as [Hm|Hm]; [contradiction|].
    destruct (IH (fun m' H => Hcells m' (list_elem_of_further _ _ _ H)) Hm (acc + v))
      as [x [Hx Ex]].
    exists x. split; [exact Hx|].
    rewrite Forall_forall in Hall. specialize (Hall m Hm).
    rewrite decide_True by lia. cbn [map Qsum fold_right]. rewrite Hv. simpl default.
    rewrite Ex. change (fold_right Qplus 0 ?l) with (Qsum l). ring.
Qed.

Lemma cumsum_axis1_lookup (t : Pivot) (c m : Z) (x : Q) :
  c ∈ index t ->
  (list_to_map (row_cumsum (cells t) c (columns t) 0) : gmap (Z * Z) Q) !! (c, m) = Some x ->
  cells (cumsum_axis1 t) !! (c, m) = Some x.
Proof.
  unfold cumsum_axis1. cbn [cells]. intros Hc Hx.
  induction (index t) as [|c1 cs IH]; [inversion Hc|].
  cbn [flat_map]. rewrite list_to_map_app.
  destruct (decide (c = c1)) as [->|Hne].
  - apply lookup_union_Some_l. exact Hx.
  - apply elem_of_cons in Hc as [Hc|Hc]; [contradiction|].
    rewrite lookup_union_r; [apply IH; exact Hc|].
    apply not_elem_of_list_to_map. intros Hin.
    apply list_elem_of_fmap in Hin as [[k y] [Hk Hin]]. simpl in Hk. subst k.
    apply row_cumsum_keys in Hin as [H1 _]. simpl in H1. congruence.
Qed.

Lemma cumsum_axis1_None (t : Pivot) (c m : Z) :
  c ∉ index t -> cells (cumsum_axis1 t) !! (c, m) = None.
Proof.
  unfold cumsum_axis1. cbn [cells]. intros Hc.
  apply not_elem_of_list_to_map. intros Hin.
  apply list_elem_of_fmap in Hin as [[k y] [Hk Hin]]. simpl in Hk. subst k.
  apply list_elem_of_In, in_flat_map in Hin as [c' [Hc' Hin]].
  apply list_elem_of_In, row_cumsum_keys in Hin as [H1 _]. simpl in H1. subst c'.
  apply Hc, list_elem_of_In. exact Hc'.
Qed.

(** [groupby(...).size()] counts the rows of each key. *)
Lemma groupby_size_fold (keys : list Z) (c : Z) : forall d : gmap Z nat,
  fold_left (fun d k => <[k := S (default O (d !! k))]> d) keys d !! c
  = match length (filter (fun k => k = c) keys) with
    | O => d !! c
    | S n => Some (S n + default O (d !! c))%nat
    end.
Proof.
  induction keys as [|k keys IH]; intros d; [reflexivity|].
  cbn [fold_left]. rewrite IH. rewrite filter_cons.
  destruct (decide (k = c)) as [->|Hne].
  - rewrite lookup_insert_eq. cbn [length default].
    destruct (length (filter (fun k => k = c) keys)); f_equal; unfold id; lia.
  - rewrite lookup_insert_ne by exact Hne. reflexivity.
Qed.

Lemma groupby_size_lookup (users_df : list User) (c : Z) :
  groupby_size (map (fun u => to_period_M (registered_at u)) users_df) !! c
  = match cohort_size users_df c with O => None | S n => Some (S n) end.
Proof.
  unfold groupby_size, cohort_size. rewrite groupby_size_fold, lookup_empty.
  assert (E : length (filter (fun k => k = c)
                        (map (fun u => to_period_M (registered_at u)) users_df))
              = length (filter (fun u => to_period_M (registered_at u) = c) users_df)).
  { induction users_df as [|u us IH]; [reflexivity|].
    cbn [map]. rewrite !filter_cons.
    destruct (decide (to_period_M (registered_at u) = c)); cbn [length]; rewrite IH; reflexivity. }
  rewrite E. clear E.
  destruct (length (filter (fun u => to_period_M (registered_at u) = c) users_df));
    [reflexivity|]. simpl. f_equal. lia.
Qed.

Lemma cohort_size_pos (users_df : list User) (c : Z) :
  (1 <= cohort_size users_df c)%nat <-> ∃ u, u ∈ users_df ∧ to_period_M (registered_at u) = c.
Proof.
  unfold cohort_size. split.
  - intros H. destruct (filter _ users_df) as [|u l] eqn:E; [simpl in H; lia|].
    assert (Hin : u ∈ filter (fun u => to_period_M (registered_at u) = c) users_df)
      by (rewrite E; left).
    apply list_elem_of_filter in Hin as [H1 H2]. exists u. split; assumption.
  - intros [u [Hu Hc]].
    assert (Hin : u ∈ filter (fun u => to_period_M (registered_at u) = c) users_df)
      by (apply list_elem_of_filter; split; assumption).
    destruct (filter _ users_df); [inversion Hin|simpl; lia].
Qed.

(** The cells of a frame divided by group sizes. *)
Lemma div_axis0_lookup (t : Pivot) (sizes : gmap Z nat) (c m : Z) :
  cells (div_axis0 t sizes) !! (c, m)
  = if decide ((c, m) ∈ list_prod (index t) (columns t))
    then v ← cells t !! (c, m); n ← sizes !! c; Some (v / inject_Z (Z.of_nat n))
    else None.
Proof.
  unfold div_axis0. cbn [cells].
  induction (list_prod (index t) (columns t)) as [|k ks IH].
  - destruct (decide _) as [H|_]; [inversion H|]. apply lookup_empty.
  - cbn [omap list_omap].
    destruct (decide ((c, m) = k)) as [<-|Hne].
    + destruct (decide ((c, m) ∈ (c, m) :: ks)) as [_|H]; [|exfalso; apply H; left].
      cbn [fst]. destruct (cells t !! (c, m)) as [v|] eqn:Ev; cbn [mbind option_bind].
      * destruct (sizes !! c) as [n|] eqn:En; cbn [mbind option_bind].
        -- rewrite list_to_map_cons. apply lookup_insert_eq.
        -- rewrite IH. destruct (decide _); reflexivity.
      * rewrite IH. destruct (decide _); reflexivity.
    + assert (Hrest : (list_to_map (omap (fun k : Z * Z =>
                          v ← cells t !! k; n ← sizes !! k.1;
                          Some (k, v / inject_Z (Z.of_nat n))) ks) : gmap (Z * Z) Q) !! (c, m)
                      = if decide ((c, m) ∈ k :: ks)
                        then v ← cells t !! (c, m); n ← sizes !! c;
                             Some (v / inject_Z (Z.of_nat n))
                        else None).
      { rewrite IH. destruct (decide ((c, m) ∈ ks)) as [Hin|Hout];
          destruct (decide ((c, m) ∈ k :: ks)) as [Hin'|Hout']; try reflexivity.
        - exfalso. apply Hout'. right. exact Hin.
        - exfalso. apply elem_of_cons in Hin' as [H|H]; [congruence|contradiction]. }
      destruct (cells t !! k) as [v|]; cbn [mbind option_bind]; [|exact Hrest].
      destruct (sizes !! k.1) as [n|]; cbn [mbind option_bind]; [|exact Hrest].
      rewrite list_to_map_cons. cbn [fst snd]. rewrite lookup_insert_ne by congruence.
      exact Hrest.
Qed.

(** Summing group by group is summing everything. *)
Lemma Qsum_indicator (ms : list Z) (k : Z) (x : Q) :
  NoDup ms -> k ∈ ms ->
  Qsum (map (fun m' => if decide (k = m') then x else 0) ms) == x.
Proof.
  induction 1 as [|m ms Hm Hnd IH]; intros Hk; [inversion Hk|].
  cbn [map Qsum fold_right]. change (fold_right Qplus 0 ?l) with (Qsum l).
  destruct (decide (k = m)) as [->|Hne].
  - assert (E : Qsum (map (fun m' => if decide (m = m') then x else 0) ms) == 0).
    { clear IH Hk Hnd. induction ms as [|y ms IH]; [reflexivity|].
      cbn [map Qsum fold_right]. change (fold_right Qplus 0 ?l) with (Qsum l).
      rewrite decide_False by (intros ->; apply Hm; left).
      rewrite IH; [ring|]. intros H. apply Hm. right. exact H. }
    rewrite E. ring.
  - apply elem_of_cons in Hk as [Hk|Hk]; [contradiction|]. rewrite (IH Hk). ring.
Qed.

Lemma Qsum_pointwise {A} (f g h : A -> Q) (l : list A) :
  (forall a, f a == g a + h a) ->
  Qsum (map f l) == Qsum (map g l) + Qsum (map h l).
Proof.
  intros H. induction l as [|a l IH]; [reflexivity|].
  cbn [map Qsum fold_right]. change (fold_right Qplus 0 ?l) with (Qsum l).
  rewrite IH, H. ring.
Qed.

Lemma sum_by_groups (key : PayRow -> Z) (ms : list Z) (l : list PayRow) :
  NoDup ms -> (forall r, r ∈ l -> key r ∈ ms) ->
  Qsum (map (fun m' => Qsum (map row_amount (filter (fun r => key r = m') l))) ms)
  == Qsum (map row_amount l).
Proof.
  intros Hnd. induction l as [|r l IH]; intros Hkeys.
  - clear Hkeys Hnd. simpl. induction ms as [|m ms IHm]; [reflexivity|].
    cbn [map Qsum fold_right]. change (fold_right Qplus 0 ?l) with (Qsum l).
    rewrite IHm. reflexivity.
  - rewrite (Qsum_pointwise _ (fun m' => if decide (key r = m') then row_amount r else 0)
               (fun m' => Qsum (map row_amount (filter (fun r => key r = m') l)))).
    + rewrite Qsum_indicator by (first [exact Hnd | apply Hkeys; left]).
      rewrite IH by (intros r' Hr'; apply Hkeys; right; exact Hr').
      reflexivity.
    + intros m'. rewrite filter_cons. destruct (decide (key r = m')); simpl; ring.
Qed.

Lemma Qsum_ext_in {A} (f g : A -> Q) (l : list A) :
  (forall a, a ∈ l -> f a == g a) -> Qsum (map f l) == Qsum (map g l).
Proof.
  induction l as [|a l IH]; intros H; [reflexivity|].
  cbn [map Qsum fold_right]. change (fold_right Qplus 0 ?l) with (Qsum l).
  rewrite IH by (intros b Hb; apply H; right; exact Hb).
  rewrite (H a) by left. reflexivity.
Qed.

(** The revenue cells of a cohort up to a month add up to the revenue of
    the cohort through that month. *)
Lemma revenue_cells_sum (pay : list PayRow) (ms : list Z) (c m : Z) :
  NoDup ms ->
  (forall r, r ∈ pay -> row_month_number r ∈ ms) ->
  Qsum (map (fun m' => Qsum (map row_amount
               (filter (fun r => row_cohort r = c ∧ row_month_number r = m') pay)))
          (filter (fun m' => (m' <= m)%Z) ms))
  == revenue_through pay c m.
Proof.
  intros Hnd Hms. unfold revenue_through.
  rewrite <- (sum_by_groups row_month_number (filter (fun m' => (m' <= m)%Z) ms)
                (filter (fun r => row_cohort r = c ∧ (row_month_number r <= m)%Z) pay)).
  - apply Qsum_ext_in. intros m' Hm'. apply list_elem_of_filter in Hm' as [Hle _].
    rewrite list_filter_filter.
    rewrite (filter_ext_in
               (fun r => row_cohort r = c ∧ row_month_number r = m')
               (fun r => row_month_number r = m'
                         ∧ row_cohort r = c ∧ (row_month_number r <= m)%Z) pay);
      [reflexivity|].
    intros r _. split; [intros [H1 H2]; repeat split; [exact H2|exact H1|lia]|].
    intros [H1 [H2 _]]. split; assumption.
  - apply NoDup_filter. exact Hnd.
  - intros r Hr. apply list_elem_of_filter in Hr as [[_ Hle] Hr].
    apply list_elem_of_filter. split; [exact Hle|apply Hms; exact Hr].
Qed.

Lemma build_cohorts_tables (users_df : list User) (payments_df : list Payment) :
  (build_cohorts users_df payments_df
   = (pivot_table_sum (cohort_pay users_df payments_df) 0,
      div_axis0 (cumsum_axis1 (pivot_table_sum (cohort_pay users_df payments_df) 0))
                (groupby_size (map (fun u => to_period_M (registered_at u)) users_df)))
   ∧ users_df <> [] ∧ payments_df <> [])
  ∨ (build_cohorts users_df payments_df = (empty_frame, empty_frame)
     ∧ cohort_pay users_df payments_df = []
     ∧ (users_df = [] ∨ payments_df = [])).
Proof.
  unfold build_cohorts.
  destruct (bool_decide (users_df = []) || bool_decide (payments_df = [])) eqn:Hempty.
  - right. split; [reflexivity|].
    apply orb_true_iff in Hempty as [E|E]; apply bool_decide_eq_true in E; subst.
    + split; [apply CohortFacts.cohort_pay_nil_users|left; reflexivity].
    + split; [apply CohortFacts.cohort_pay_nil_payments|right; reflexivity].
  - left. apply orb_false_iff in Hempty as [E1 E2].
    apply bool_decide_eq_false in E1. apply bool_decide_eq_false in E2.
    split; [reflexivity|]. split; assumption.
Qed.

Lemma ltv_cell (users_df : list User) (payments_df : list Payment) (c m : Z) :
  c ∈ index (pivot_table_sum (cohort_pay users_df payments_df) 0) ->
  m ∈ columns (pivot_table_sum (cohort_pay users_df payments_df) 0) ->
  (1 <= cohort_size users_df c)%nat
  /\ exists x,
       cells (div_axis0 (cumsum_axis1 (pivot_table_sum (cohort_pay users_df payments_df) 0))
                (groupby_size (map (fun u => to_period_M (registered_at u)) users_df)))
         !! (c, m) = Some x
       /\ x * inject_Z (Z.of_nat (cohort_size users_df c))
          == revenue_through (cohort_pay users_df payments_df) c m.
Proof.
  set (pay := cohort_pay users_df payments_df).
  destruct (pivot_table_sum_spec pay) as [Hidx [Hcol [Hsorted Hcells]]].
  intros Hc Hm.
  assert (Hsize : (1 <= cohort_size users_df c)%nat).
  { apply cohort_size_pos. apply Hidx in Hc as [r [Hr Hrc]].
    apply cohort_pay_elem in Hr as [p [u [_ [Hu [_ [_ [_ E]]]]]]].
    exists u. split; [exact Hu|congruence]. }
  split; [exact Hsize|].
  rewrite div_axis0_lookup.
  rewrite decide_True by (apply CohortFacts.elem_of_prod; split; assumption).
  rewrite groupby_size_lookup.
  destruct (cohort_size users_df c) as [|n] eqn:En; [lia|].
  destruct (row_cumsum_lookup (cells (pivot_table_sum pay 0)) c
              (columns (pivot_table_sum pay 0)) m Hsorted) with (acc := 0)
    as [y [Hy Ey]].
  { intros m' Hm'. rewrite Hcells.
    rewrite decide_True by (apply CohortFacts.elem_of_prod; split; assumption).
    eexists. reflexivity. }
  { exact Hm. }
  rewrite (cumsum_axis1_lookup _ c m y Hc Hy). cbn [mbind option_bind].
  eexists. split; [reflexivity|].
  pose proof (inject_nat_pos (S n) ltac:(lia)) as Hpos.
  assert (E : y / inject_Z (Z.of_nat (S n)) * inject_Z (Z.of_nat (S n)) == y)
    by (field; lra).
  rewrite E, Ey.
  rewrite <- (revenue_cells_sum pay (columns (pivot_table_sum pay 0)) c m).
  - rewrite Qplus_0_l. apply Qsum_ext_in. intros m' Hm'.
    apply list_elem_of_filter in Hm' as [_ Hm'].
    rewrite Hcells.
    rewrite decide_True by (apply CohortFacts.elem_of_prod; split; assumption).
    reflexivity.
  - apply CohortFacts.NoDup_sorted, CohortFacts.NoDup_unique.
  - intros r Hr. apply Hcol. exists r. split; [exact Hr|reflexivity].
Qed.

(** X8.  The rows of the revenue table of [build_cohorts] are the cohorts,
    and its columns the months of life, of the joined payments.  A cell is
    the sum of the amounts of its cohort and month; the LTV cell of the same
    place, times the number of users registered in the cohort, is the
    revenue of the cohort through that month of life. *)
Theorem build_cohorts_ltv (users_df : list User) (payments_df : list Payment) :
  (forall c, c ∈ index (build_cohorts users_df payments_df).1
             <-> ∃ r, r ∈ cohort_pay users_df payments_df ∧ row_cohort r = c)
  /\ (forall m, m ∈ columns (build_cohorts users_df payments_df).1
                <-> ∃ r, r ∈ cohort_pay users_df payments_df ∧ row_month_number r = m)
  /\ (forall c m,
        c ∈ index (build_cohorts users_df payments_df).1 ->
        m ∈ columns (build_cohorts users_df payments_df).1 ->
        cells (build_cohorts users_df payments_df).1 !! (c, m)
        = Some (Qsum (map row_amount
                  (filter (fun r => row_cohort r = c ∧ row_month_number r = m)
                          (cohort_pay users_df payments_df))))
        /\ (1 <= cohort_size users_df c)%nat
        /\ exists x,
             cells (build_cohorts users_df payments_df).2 !! (c, m) = Some x
             /\ x * inject_Z (Z.of_nat (cohort_size users_df c))
                == revenue_through (cohort_pay users_df payments_df) c m).
Proof.
  destruct (build_cohorts_tables users_df payments_df) as [[E _]|[E [Hpay _]]]; rewrite E;
    cbn [fst snd].
  - destruct (pivot_table_sum_spec (cohort_pay users_df payments_df))
      as [Hidx [Hcol [_ Hcells]]].
    split; [exact Hidx|]. split; [exact Hcol|].
    intros c m Hc Hm. split.
    + rewrite Hcells.
      rewrite decide_True by (apply CohortFacts.elem_of_prod; split; assumption).
      reflexivity.
    + apply ltv_cell; assumption.
  - rewrite Hpay. split; [|split].
    + intros c. split; [intros H; inversion H|intros [r [H _]]; inversion H].
    + intros m. split; [intros H; inversion H|intros [r [H _]]; inversion H].
    + intros c m H. inversion H.
Qed.

Lemma div_axis0_index (t : Pivot) (sizes : gmap Z nat) (c : Z) :
  c ∈ index (div_axis0 t sizes) <-> c ∈ index t ∨ is_Some (sizes !! c).
Proof.
  unfold div_axis0. cbn [index].
  rewrite CohortFacts.elem_of_sorted, CohortFacts.elem_of_unique, elem_of_app.
  rewrite list_elem_of_fmap. split.
  - intros [H|[[k n] [-> Hin]]]; [left; exact H|]. right.
    apply elem_of_map_to_list in Hin. exists n. exact Hin.
  - intros [H|[n Hn]]; [left; exact H|]. right.
    exists (c, n). split; [reflexivity|]. apply elem_of_map_to_list. exact Hn.
Qed.

(** The shape of the LTV table made from a user table and its joined
    payments. *)
Lemma ltv_table_shape (users_df : list User) (payments_df : list Payment) :
  let LTV := div_axis0 (cumsum_axis1 (pivot_table_sum (cohort_pay users_df payments_df) 0))
               (groupby_size (map (fun u => to_period_M (registered_at u)) users_df)) in
  (forall c, c ∈ index LTV <-> ∃ u, u ∈ users_df ∧ to_period_M (registered_at u) = c)
  /\ (forall m, m ∈ columns LTV
                <-> ∃ r, r ∈ cohort_pay users_df payments_df ∧ row_month_number r = m)
  /\ (forall c m, is_Some (cells LTV !! (c, m))
                  <-> (∃ r, r ∈ cohort_pay users_df payments_df ∧ row_cohort r = c)
                      ∧ (∃ r, r ∈ cohort_pay users_df payments_df ∧ row_month_number r = m)).
Proof.
  cbv zeta. set (pay := cohort_pay users_df payments_df).
  destruct (pivot_table_sum_spec pay) as [Hidx [Hcol [Hsorted Hcells]]].
  split; [|split].
  - intros c. rewrite div_axis0_index. cbn [cumsum_axis1 index].
    rewrite Hidx, groupby_size_lookup. split.
    + intros [[r [Hr Hc]]|Hs].
      * apply cohort_pay_elem in Hr as [p [u [_ [Hin [_ [_ [_ Ec]]]]]]].
        exists u. split; [exact Hin|congruence].
      * apply cohort_size_pos. destruct (cohort_size users_df c); [|lia].
        destruct Hs as [x Hx]. discriminate.
    + intros Hex. right. apply cohort_size_pos in Hex.
      destruct (cohort_size users_df c); [lia|]. eexists. reflexivity.
  - intros m. exact (Hcol m).
  - intros c m. rewrite div_axis0_lookup. cbn [cumsum_axis1 index columns].
    rewrite <- Hidx, <- Hcol.
    destruct (decide ((c, m) ∈ list_prod (index (pivot_table_sum pay 0))
                                         (columns (pivot_table_sum pay 0)))) as [Hin|Hout].
    + apply CohortFacts.elem_of_prod in Hin as [Hc Hm].
      destruct (ltv_cell users_df payments_df c m Hc Hm) as [_ [x [Hx _]]].
      rewrite div_axis0_lookup in Hx.
      rewrite decide_True in Hx by (apply CohortFacts.elem_of_prod; split; assumption).
      fold pay in Hx. cbn [cumsum_axis1 index columns] in Hx.
      split; [intros _; split; assumption|]. intros _. exists x. exact Hx.
    + split; [intros [x Hx]; discriminate|]. intros [Hc Hm].
      exfalso. apply Hout. apply CohortFacts.elem_of_prod. split; assumption.
Qed.

(** X9.  The LTV table of [build_cohorts] has a row for every month in
    which a user registered (provided there are payments), and the columns
    of the revenue table; a cell holds a value exactly when its cohort and
    its month have a joined payment each.  The row of a cohort without
    payments holds no value (NaN), not 0. *)
Theorem build_cohorts_ltv_rows (users_df : list User) (payments_df : list Payment) :
  (forall c, c ∈ index (build_cohorts users_df payments_df).2
             <-> payments_df <> []
                 ∧ ∃ u, u ∈ users_df ∧ to_period_M (registered_at u) = c)
  /\ (forall m, m ∈ columns (build_cohorts users_df payments_df).2
                <-> ∃ r, r ∈ cohort_pay users_df payments_df ∧ row_month_number r = m)
  /\ (forall c m, is_Some (cells (build_cohorts users_df payments_df).2 !! (c, m))
                  <-> (∃ r, r ∈ cohort_pay users_df payments_df ∧ row_cohort r = c)
                      ∧ (∃ r, r ∈ cohort_pay users_df payments_df ∧ row_month_number r = m)).
Proof.
  destruct (build_cohorts_tables users_df payments_df) as [[E [Hu Hp]]|[E [Hpay Hnil]]];
    rewrite E; cbn [fst snd].
  - destruct (ltv_table_shape users_df payments_df) as [Hidx [Hcol Hcells]].
    cbv zeta in Hidx, Hcol, Hcells.
    split; [|split; [exact Hcol|exact Hcells]].
    intros c. rewrite Hidx. split; [intros H; split; [exact Hp|exact H]|intros [_ H]; exact H].
  - rewrite Hpay. cbn [empty_frame index columns cells]. split; [|split].
    + intros c. split; [intros H; inversion H|]. intros [Hp [u [Hu Hc]]].
      exfalso. destruct Hnil as [->| ->]; [inversion Hu|contradiction].
    + intros m. split; [intros H; inversion H|intros [r [H _]]; inversion H].
    + intros c m. rewrite lookup_empty. split; [intros [x H]; discriminate|].
      intros [[r [H _]] _]. inversion H.
Qed.

(** X26.  On the LTV table of [build_cohorts], with a positive [cac] and
    at least one joined payment, [calc_roi_by_cohorts] reports NaN exactly
    for the cohorts that have registered users and no payment. *)
Theorem roi_of_cohorts_without_payments (users_df : list User) (payments_df : list Payment)
    (cac : Q) (last_n_months : Z) :
  cohort_pay users_df payments_df <> [] ->
  0 < cac ->
  forall c,
    (c, None) ∈ calc_roi_by_cohorts (build_cohorts users_df payments_df).2 cac last_n_months
    <-> (∃ u, u ∈ users_df ∧ to_period_M (registered_at u) = c)
        ∧ ¬ ∃ r, r ∈ cohort_pay users_df payments_df ∧ row_cohort r = c.
Proof.
  intros Hpay Hcac c.
  destruct (build_cohorts_tables users_df payments_df) as [[E _]|[_ [Hnil _]]];
    [|contradiction].
  destruct (ltv_table_shape users_df payments_df) as [Hidx [Hcol Hcells]].
  cbv zeta in Hidx, Hcol, Hcells.
  assert (E2 : (build_cohorts users_df payments_df).2
               = div_axis0 (cumsum_axis1 (pivot_table_sum (cohort_pay users_df payments_df) 0))
                   (groupby_size (map (fun u => to_period_M (registered_at u)) users_df)))
    by (rewrite E; reflexivity).
  rewrite <- E2 in Hidx, Hcol, Hcells. clear E E2.
  destruct (cohort_pay users_df payments_df) as [|r0 pay0] eqn:Epay; [contradiction|].
  rewrite <- Epay in *.
  assert (Hr0 : r0 ∈ cohort_pay users_df payments_df) by (rewrite Epay; left).
  assert (Hcols : columns (build_cohorts users_df payments_df).2 <> []).
  { intros E. assert (H : row_month_number r0 ∈ columns (build_cohorts users_df payments_df).2)
      by (apply Hcol; exists r0; split; [exact Hr0|reflexivity]).
    rewrite E in H. inversion H. }
  assert (Hrows : index (build_cohorts users_df payments_df).2 <> []).
  { intros E. apply cohort_pay_elem in Hr0 as [p [u [_ [Hu _]]]].
    assert (H : to_period_M (registered_at u) ∈ index (build_cohorts users_df payments_df).2)
      by (apply Hidx; exists u; split; [exact Hu|reflexivity]).
    rewrite E in H. inversion H. }
  assert (Hempty : frame_empty (build_cohorts users_df payments_df).2 = false).
  { unfold frame_empty. apply orb_false_iff.
    split; apply bool_decide_eq_false; assumption. }
  rewrite (UnitEconomicsFacts.calc_roi_by_cohorts_rows _ _ _ Hempty Hcac). cbv zeta.
  destruct (UnitEconomicsFacts.chosen_column _ (last_n_months - 1) Hcols) as [Hcol1 _].
  cbv zeta in Hcol1.
  set (col := if bool_decide ((last_n_months - 1)%Z
                              ∈ columns (build_cohorts users_df payments_df).2)
              then (last_n_months - 1)%Z
              else default 0%Z (last (merge_sort Z.le
                     (columns (build_cohorts users_df payments_df).2)))) in *.
  split.
  - intros Hin. apply list_elem_of_In, in_map_iff in Hin as [c' [Heq Hc]].
    injection Heq as -> Hnone. apply list_elem_of_In, Hidx in Hc as Hu.
    split; [exact Hu|]. intros Hex.
    assert (Hs : is_Some (cells (build_cohorts users_df payments_df).2 !! (c, col))).
    { apply Hcells. split; [exact Hex|]. apply Hcol. exact Hcol1. }
    destruct Hs as [x Hx]. rewrite Hx in Hnone. discriminate.
  - intros [Hu Hno]. apply list_elem_of_In, in_map_iff. exists c. split.
    + f_equal. destruct (cells (build_cohorts users_df payments_df).2 !! (c, col)) eqn:Ec;
        [|reflexivity].
      exfalso. apply Hno. apply (proj1 (Hcells c col)). eexists. exact Ec.
    + apply list_elem_of_In, Hidx. exact Hu.
Qed.

Lemma roi_of_cohorts_without_payments_witness :
  (662%Z, None) ∈ calc_roi_by_cohorts (build_cohorts example_users example_payments).2 500 6
  <-> (∃ u, u ∈ example_users ∧ to_period_M (registered_at u) = 662%Z)
      ∧ ¬ ∃ r, r ∈ cohort_pay example_users example_payments ∧ row_cohort r = 662%Z.
Proof.
  apply (roi_of_cohorts_without_payments example_users example_payments 500 6).
  - vm_compute. discriminate.
  - reflexivity.
Defined.

End RevenueFacts.
